(** * xbar-apps: the Central Limit Theorem applet engine

    A shallow embedding of the simulation engine of the repository
    (the standalone [Engine] of the CLT component, the extracted
    [StatEngine] core, and the shared [MathUtils]/[StatEngine] module)
    together with the properties its specification states about it.

    Numbers.  JavaScript numbers are IEEE doubles.  The embedding reads
    every finite number as an exact rational ([Q]) and keeps [NaN] as a
    separate value ([jsnum]); infinities only arise in the source from
    a division by zero, which is written out where it can happen
    ([js_div_clamp01]).  Rounding error of the double arithmetic is
    not modelled, with two exceptions: the integer mixing of the random
    generator is modelled exactly, including the rounding of its 53-bit
    counter, and so is the rounded product whose floor is the bin that
    [addToSamplingDistribution] increments ([fl64]).  Where a theorem
    below bounds a computed value within a tolerance, the tolerance
    covers the rounding of the doubles.  [Math.sqrt] is a host builtin
    and is taken as a parameter ([HostMath]).

    Typed arrays.  [Uint16Array]/[Uint32Array] are lists of [Z] whose
    stores wrap modulo 2^16 / 2^32; a read out of range yields
    [undefined] ([None]) and a store out of range does nothing.

    Time.  [performance.now()] is passed to the functions that read it
    as an explicit argument [now]. *)

From Stdlib Require Import ZArith QArith Qround Qminmax Qpower Lia Lqa List Bool.
From Stdlib Require Import Sorted Permutation.
From stdpp Require Import base list.
Import ListNotations.

(* ================================================================== *)
(** * Part I: the embedding                                            *)
(* ================================================================== *)

(** ** JavaScript numbers *)

Inductive jsnum : Type :=
| NaN : jsnum
| Num (q : Q) : jsnum.

(** [Math.max(a, Math.min(b, x))] on finite numbers. *)
Definition clamp (x a b : Q) : Q := Qmax a (Qmin b x).

(** The same on a possibly-[NaN] argument: [Math.min]/[Math.max]
    propagate [NaN]. *)
Definition clampN (x : jsnum) (a b : Q) : jsnum :=
  match x with
  | NaN => NaN
  | Num q => Num (clamp q a b)
  end.

(** [a / b] followed by [clamp(., 0, 1)], with the division by zero of
    doubles written out: [a/0] is [+Infinity] (clamped to 1) for [a > 0],
    [-Infinity] (clamped to 0) for [a < 0] and [NaN] for [a = 0]. *)
Definition js_div_clamp01 (a b : Q) : jsnum :=
  if Qeq_bool b 0 then
    (if Qlt_le_dec 0 a then Num 1
     else if Qlt_le_dec a 0 then Num 0
     else NaN)
  else Num (clamp (a / b) 0 1).

(** [Math.floor] then [clamp(., 0, hi)] on integers. *)
Definition clampZ (x a b : Z) : Z := Z.max a (Z.min b x).

(** *** Rounding to a double

    Finite doubles are read as the rationals they denote and the
    results of arithmetic as exact, except where a rounded result goes
    through [Math.floor] into a table index of the shared module; there
    the rounding is written out with [fl64]. *)

(** [floor(log2 |q|)] for [q <> 0]. *)
Definition ilog2 (q : Q) : Z :=
  let n := Z.abs (Qnum q) in
  let e0 := (Z.log2 n - Z.log2 (Zpos (Qden q)))%Z in
  if Qle_bool (2 ^ e0)%Q (n # Qden q)%Q then e0 else (e0 - 1)%Z.

(** The integer nearest to [q], ties to the even one. *)
Definition roundEven (q : Q) : Z :=
  let f := Qfloor q in
  match ((q - inject_Z f) ?= (1 # 2))%Q with
  | Lt => f
  | Gt => (f + 1)%Z
  | Eq => if Z.even f then f else (f + 1)%Z
  end.

(** The double nearest to [q] (IEEE 754 binary64, round to nearest,
    ties to even): 53 significant bits at the exponent of [q], the
    subnormal spacing [2^-1074] below [2^-1022].  Overflow to
    [Infinity] (from [2^1024] on) is not modelled. *)
Definition fl64 (q : Q) : Q :=
  if Qeq_bool q 0 then 0%Q
  else
    let e := Z.max (ilog2 q) (-1022) in
    let ulp := (2 ^ (e - 52))%Q in
    (inject_Z (roundEven (q / ulp)) * ulp)%Q.

(** [Math.sqrt], a builtin of the host. *)
Class HostMath : Type := { Math_sqrt : Q -> Q }.

(** A concrete host: the integer square root at 18 decimal digits. *)
Definition sqrt_digits (q : Q) : Q :=
  (inject_Z (Z.sqrt (Qfloor (q * inject_Z (10 ^ 36)))) / inject_Z (10 ^ 18))%Q.

#[global] Instance host_digits : HostMath := {| Math_sqrt := sqrt_digits |}.

(** ** Typed arrays *)

Definition two16 : Z := 65536.
Definition two32 : Z := 4294967296.

Definition wrap16 (z : Z) : Z := (z mod two16)%Z.
Definition wrap32 (z : Z) : Z := (z mod two32)%Z.

(** [new Uint16Array(n)] / [new Uint32Array(n)]: [n] zeros. *)
Definition zeros (n : nat) : list Z := replicate n 0%Z.

(** [arr[i] || 0]. *)
Definition rd (arr : list Z) (i : nat) : Z := default 0%Z (arr !! i).

(** [arr[i] = (arr[i] || 0) + 1] on a [Uint16Array]. *)
Definition inc16 (arr : list Z) (i : nat) : list Z :=
  <[ i := wrap16 (rd arr i + 1) ]> arr.

(** [arr[i] = (arr[i] || 0) + 1] on a [Uint32Array]. *)
Definition inc32 (arr : list Z) (i : nat) : list Z :=
  <[ i := wrap32 (rd arr i + 1) ]> arr.

(** Sum of all bins. *)
Definition sumZ (l : list Z) : Z := fold_right Z.add 0%Z l.

(** ** Deterministic RNG ([rngMulberry32] / [MathUtils.createRNG]) *)

Module Rng.

(** [x >>> 0] on an integer. *)
Definition to_uint32 (z : Z) : Z := (z mod two32)%Z.

(** [Math.imul], on the unsigned representatives of its arguments. *)
Definition imul (a b : Z) : Z := to_uint32 (a * b).

(** Rounding of a non-negative integer to the nearest double (ties to
    even): the counter [t] is a JavaScript number, not an int32. *)
Definition fl53 (z : Z) : Z :=
  if (z <? 2 ^ 53)%Z then z
  else
    let e := (Z.log2 z - 52)%Z in
    let q := Z.shiftr z e in
    let r := (z - Z.shiftl q e)%Z in
    let h := Z.shiftl 1 (e - 1) in
    let q' := if (r <? h)%Z then q
              else if (h <? r)%Z then (q + 1)%Z
              else if Z.even q then q else (q + 1)%Z in
    Z.shiftl q' e.

(** The closure variable [t]. *)
Record stream : Type := { t : Z }.

(** [let t = seed >>> 0; return function () {...}] *)
Definition create (seed : Z) : stream := {| t := to_uint32 seed |}.

(** One call of the returned closure: the value and the new [t]. *)
Definition next (s : stream) : Q * stream :=
  let t1 := fl53 (t s + 0x6D2B79F5)%Z in
  let tu := to_uint32 t1 in
  let r := imul (Z.lxor tu (Z.shiftr tu 15)) (Z.lor 1 tu) in
  let r := Z.lxor r (to_uint32 (r + imul (Z.lxor r (Z.shiftr r 7)) (Z.lor 61 r))) in
  let out := to_uint32 (Z.lxor r (Z.shiftr r 14)) in
  ((out # 4294967296)%Q, {| t := t1 |}).

(** The first [k] values of a stream, in order, and the stream left. *)
Fixpoint draws (k : nat) (s : stream) : list Q * stream :=
  match k with
  | O => ([], s)
  | S k' =>
      let '(v, s1) := next s in
      let '(vs, s2) := draws k' s1 in
      (v :: vs, s2)
  end.

End Rng.

(** ** Statistics utilities ([mean], [varianceUnbiased], [robustSD], [med]) *)

Inductive Statistic : Type :=
| StMean | StMedian | StSd | StProportion
| StOther.  (* any other string: the final [return NaN] *)

Module Stats.

(** [a.reduce((s, v) => s + v, 0)] *)
Definition sum (a : list Q) : Q := fold_left Qplus a 0%Q.

(** [a.length ? sum / a.length : NaN] *)
Definition mean (a : list Q) : jsnum :=
  match a with
  | [] => NaN
  | _ => Num (sum a / inject_Z (Z.of_nat (length a)))
  end.

(** [for (i...) s2 += (a[i] - m) ** 2] *)
Definition sumsq (m : Q) (a : list Q) : Q :=
  fold_left (fun s2 v => s2 + (v - m) * (v - m))%Q a 0%Q.

(** [varianceUnbiased(a)] and [MathUtils.variance(a, true)]. *)
Definition varianceUnbiased (a : list Q) : jsnum :=
  let n := length a in
  if (n <? 2)%nat then NaN
  else
    match mean a with
    | NaN => NaN
    | Num m => Num (sumsq m a / inject_Z (Z.of_nat n - 1))
    end.

(** [MathUtils.variance(a, false)]. *)
Definition variancePopulation (a : list Q) : jsnum :=
  let n := length a in
  if (n <? 1)%nat then NaN
  else
    match mean a with
    | NaN => NaN
    | Num m => Num (sumsq m a / inject_Z (Z.of_nat n))
    end.

(** [isFinite(v) && v >= 0 ? Math.sqrt(v) : 0] *)
Definition robustSD `{HostMath} (a : list Q) : jsnum :=
  match varianceUnbiased a with
  | NaN => Num 0
  | Num v => if Qle_bool 0 v then Num (Math_sqrt v) else Num 0
  end.

(** [a.slice().sort((x, y) => x - y)]: a stable numeric sort. *)
Fixpoint insert_sorted (x : Q) (l : list Q) : list Q :=
  match l with
  | [] => [x]
  | y :: l' => if Qlt_le_dec x y then x :: y :: l' else y :: insert_sorted x l'
  end.

Definition sort (a : list Q) : list Q :=
  fold_left (fun acc x => insert_sorted x acc) a [].

(** [med(a)] / [MathUtils.median(a)]. *)
Definition med (a : list Q) : jsnum :=
  match a with
  | [] => NaN
  | _ =>
      let b := sort a in
      let m := Nat.div2 (length b) in
      if Nat.odd (length b) then Num (nth m b 0%Q)
      else Num ((1 # 2) * (nth (m - 1) b 0 + nth m b 0))%Q
  end.

(** [xs.filter((v) => v > threshold).length / xs.length] *)
Definition proportion (threshold : Q) (xs : list Q) : Q :=
  (inject_Z (Z.of_nat (length (List.filter (fun v => negb (Qle_bool v threshold)) xs)))
   / inject_Z (Z.of_nat (length xs)))%Q.

(** [Engine.computeStat(xs)] / [StatEngine.computeStatistic(values)]. *)
Definition computeStat `{HostMath} (statistic : Statistic) (threshold : Q)
    (xs : list Q) : jsnum :=
  match xs with
  | [] => NaN
  | _ =>
      match statistic with
      | StMean => mean xs
      | StMedian => med xs
      | StSd => robustSD xs
      | StProportion => Num (proportion threshold xs)
      | StOther => NaN
      end
  end.

(** [statDomain()] / [getStatisticDomain()]: [(min, max)]. *)
Definition statDomain (statistic : Statistic) : Q * Q :=
  match statistic with
  | StSd => (0, 1 # 2)%Q
  | _ => (0, 1)%Q
  end.

(** [validateSampleSize(n)]: the [valid] flag of its result.  The two
    comparisons [n < 2] and [n > 1000] are both false on [NaN]. *)
Definition validateSampleSize (n : jsnum) : bool :=
  match n with
  | NaN => true
  | Num q => if Qlt_le_dec q 2 then false
             else if Qlt_le_dec 1000 q then false else true
  end.

End Stats.

(** ** Population summary ([Engine.popStats] / [StatEngine.getPopulationStats]) *)

Module Pop.

(** [(c + 0.5) / COLS] *)
Definition center (cols c : nat) : Q :=
  ((inject_Z (Z.of_nat c) + (1 # 2)) / inject_Z (Z.of_nat cols))%Q.

Record stats : Type := {
  mu : Q; sd : Q; med : Q; pthr : Q; total : Z
}.

(** [for (c...) { total += w; mu += w * x; }] *)
Definition loop_total_mu (cols : nat) (pc : list Z) : Z * Q :=
  fold_left (fun '(total, mu) c =>
               let x := center cols c in
               let w := rd pc c in
               ((total + w)%Z, (mu + inject_Z w * x)%Q))
            (seq 0 cols) (0%Z, 0%Q).

(** [for (c...) { s2 += w * (x - mu) * (x - mu); }] *)
Definition loop_s2 (cols : nat) (pc : list Z) (mu : Q) : Q :=
  fold_left (fun s2 c =>
               let x := center cols c in
               let w := rd pc c in
               (s2 + inject_Z w * (x - mu) * (x - mu))%Q)
            (seq 0 cols) 0%Q.

(** [for (c...) { acc += pc[c]; if (acc >= half) { medv = ...; break; } }],
    from column [c] on, [fuel] columns left. *)
Fixpoint loop_med (cols : nat) (pc : list Z) (half : Q) (acc : Z) (c fuel : nat)
    (medv : Q) : Q :=
  match fuel with
  | O => medv
  | S fuel' =>
      let acc' := (acc + rd pc c)%Z in
      if Qle_bool half (inject_Z acc') then center cols c
      else loop_med cols pc half acc' (S c) fuel' medv
  end.

(** [for (c...) { if (x > threshold) greater += pc[c]; }] *)
Definition loop_greater (cols : nat) (pc : list Z) (threshold : Q) : Z :=
  fold_left (fun greater c =>
               if Qle_bool (center cols c) threshold then greater
               else (greater + rd pc c)%Z)
            (seq 0 cols) 0%Z.

Definition popStats `{HostMath} (cols : nat) (pc : list Z) (threshold : Q) : stats :=
  let '(total, mu0) := loop_total_mu cols pc in
  let mu := if (total =? 0)%Z then (1 # 2)%Q else (mu0 / inject_Z total)%Q in
  let s2 := loop_s2 cols pc mu in
  let sdPop := if (total =? 0)%Z then 0%Q else Math_sqrt (s2 / inject_Z total) in
  let medv :=
    if (total =? 0)%Z then (1 # 2)%Q
    else loop_med cols pc (inject_Z total / 2) 0 0 cols (1 # 2) in
  let greater := loop_greater cols pc threshold in
  let pthr := if (total =? 0)%Z then 0%Q else (inject_Z greater / inject_Z total)%Q in
  {| mu := mu; sd := sdPop; med := medv; pthr := pthr; total := total |}.

End Pop.

(** ** Sampler ([Engine.sampleN] / [StatEngine.drawSample]) *)

Module Sampler.

(** [for (i...) total += weights[i]] *)
Definition totalWeight (cols : nat) (weights : list Z) : Z :=
  fold_left (fun total i => (total + rd weights i)%Z) (seq 0 cols) 0%Z.

(** The weighted walk from column [c] with [fuel] columns left:
    [acc += weights[c]; if (target <= acc) { chosen = c; break; }]. *)
Fixpoint walk (weights : list Z) (target : Q) (acc : Z) (c fuel : nat)
    (chosen : nat) : nat :=
  match fuel with
  | O => chosen
  | S fuel' =>
      let acc' := (acc + rd weights c)%Z in
      if Qle_bool target (inject_Z acc') then c
      else walk weights target acc' (S c) fuel' chosen
  end.

(** The column chosen for one RNG value [u]. *)
Definition pick (cols : nat) (weights : list Z) (total : Z) (u : Q) : nat :=
  if (total =? 0)%Z then
    Z.to_nat (Qfloor (u * inject_Z (Z.of_nat cols)))
  else
    walk weights (u * inject_Z total) 0 0 cols (Nat.shiftr cols 1).

(** The outer loop over the [n] elements: one [rng()] call each. *)
Fixpoint loop (cols : nat) (weights : list Z) (total : Z) (n : nat)
    (rng : Rng.stream) : list Q * list nat * Rng.stream :=
  match n with
  | O => ([], [], rng)
  | S n' =>
      let '(u, rng1) := Rng.next rng in
      let col := pick cols weights total u in
      let '(xs, cs, rng2) := loop cols weights total n' rng1 in
      (Pop.center cols col :: xs, col :: cs, rng2)
  end.

(** [sampleN(n)]: the values [xs], the columns [cols] and the stream left. *)
Definition sampleN (cols : nat) (weights : list Z) (n : nat) (rng : Rng.stream)
    : list Q * list nat * Rng.stream :=
  loop cols weights (totalWeight cols weights) n rng.

End Sampler.

(** ** Bin of a statistic value *)

Module Bins.

(** [clamp(Math.floor(x01 * B), 0, B - 1)] for
    [x01 = clamp((v - min) / (max - min + eps), 0, 1)];
    [None] is the [NaN] index a [NaN] value leads to.
    The gather and turbo paths of the engines have [eps = 1e-9]. *)
Definition binOf (B : nat) (eps : Q) (dom : Q * Q) (v : jsnum) : option nat :=
  match v with
  | NaN => None
  | Num q =>
      let '(min, max) := dom in
      let x01 := clamp ((q - min) / (max - min + eps)) 0 1 in
      Some (Z.to_nat (clampZ (Qfloor (x01 * inject_Z (Z.of_nat B))) 0 (Z.of_nat B - 1)))
  end.

Definition eps9 : Q := (1 # 1000000000)%Q.

(** The formula of the specification:
    [clamp(floor((v - min) / (max - min) * B), 0, B - 1)]. *)
Definition spec_bin (B : nat) (dom : Q * Q) (v : Q) : Z :=
  let '(min, max) := dom in
  clampZ (Qfloor ((v - min) / (max - min) * inject_Z (Z.of_nat B))) 0 (Z.of_nat B - 1).

(** A store [arr[bin] = (arr[bin] || 0) + 1] at a possibly-[NaN] index. *)
Definition inc32_at (arr : list Z) (bin : option nat) : list Z :=
  match bin with
  | Some b => inc32 arr b
  | None => arr
  end.

End Bins.

(** ** The animated engine ([Engine] of the CLT component; [StatEngine]
    of the engine core is the same code with [COLS]/[STAT_BINS] read
    from [config] and a derived [lines] record that no function below
    reads) *)

Module Engine.

Inductive Speed : Type := SpNormal | SpFast.

Record Geometry : Type := {
  plotW : Q; gridW : Q; colW : Q; BOX : Q; gridX0 : Q;
  H_TOP : Q; H_MID : Q; H_BOT : Q; marginY : Q;
  BOX_TOP_Y : Q; BOX_MID_Y : Q; BOX_BOT_Y : Q
}.

(** A falling sample particle [{ col, x, y, vy, targetY }]. *)
Record Particle : Type := {
  p_col : nat; p_x : Q; p_y : Q; p_vy : Q; p_targetY : Q
}.

(** A falling statistic particle [{ x, y, vy, targetY, bin }]; [bin]
    (and with it [x]) is [NaN] when the statistic was. *)
Record StatParticle : Type := {
  q_x : jsnum; q_y : Q; q_vy : Q; q_targetY : Q; q_bin : option nat
}.

Record Flash : Type := { f_col : nat; f_y : Q; f_until : Q }.

(** [{ sx, sy, x, y }] *)
Record GatherParticle : Type := {
  g_sx : Q; g_sy : Q; g_x : jsnum; g_y : jsnum
}.

(** [{ x, y, bin }] *)
Record GatherTarget : Type := {
  gt_x : jsnum; gt_y : Q; gt_bin : option nat
}.

(** [{ start, end, total, emitted, cols, xs }] *)
Record EmissionPlan : Type := {
  e_start : Q; e_end : Q; e_total : nat; e_emitted : nat;
  e_cols : list nat; e_xs : list Q
}.

(** The engine object.  The rendering context [ctx] and the display
    flags [showParamLine] and [showNormalFit], which only the painting
    code reads, are left out. *)
Record t : Type := {
  COLS : nat; STAT_BINS : nat;
  geom : Geometry;
  popCounts : list Z;              (* Uint16Array(COLS) *)
  midCounts : list Z;              (* Uint16Array(COLS) *)
  botCounts : list Z;              (* Uint32Array(STAT_BINS) *)
  sampleParticles : list Particle;
  statParticles : list StatParticle;
  popFlashes : list Flash;
  gatherParticles : list GatherParticle;
  gatherTarget : option GatherTarget;
  gathering : bool;
  gatherStart : Q;
  gatherDur : Q;
  emissionPlan : option EmissionPlan;
  lastSample : list Q;
  statistic : Statistic;
  threshold : Q;
  speed : Speed;
  rng : Rng.stream;
  needsRedraw : bool;
  lastGatheringSample : option (list Q)
}.

(** [resetGeometry({ plotW, topH, midH, botH })] with [PAD = 16]
    ([COLS] is positive). *)
Definition resetGeometry (cols : nat) (pw topH midH botH : Q) (g : Geometry) : Geometry :=
  let innerW := (pw - 2 * 16)%Q in
  let cw := inject_Z (Qfloor (innerW / inject_Z (Z.of_nat cols))) in
  let box := Qmax 6 cw in
  let gw := (box * inject_Z (Z.of_nat cols))%Q in
  {| plotW := pw; gridW := gw; colW := cw; BOX := box;
     gridX0 := inject_Z (Qfloor ((pw - gw) / 2));
     H_TOP := topH; H_MID := midH; H_BOT := botH; marginY := marginY g;
     BOX_TOP_Y := BOX_TOP_Y g; BOX_MID_Y := BOX_MID_Y g; BOX_BOT_Y := BOX_BOT_Y g |}.

Definition geometry0 : Geometry :=
  {| plotW := 960; gridW := 0; colW := 0; BOX := 8; gridX0 := 0;
     H_TOP := 300; H_MID := 240; H_BOT := 360; marginY := 8;
     BOX_TOP_Y := 8; BOX_MID_Y := 8; BOX_BOT_Y := 8 |}.

(** [new Engine(ctx)]; [cols]/[bins] are 60/60 in the component. *)
Definition create (cols bins : nat) : t :=
  {| COLS := cols; STAT_BINS := bins;
     geom := resetGeometry cols 960 300 240 360 geometry0;
     popCounts := zeros cols;
     midCounts := zeros cols;
     botCounts := zeros bins;
     sampleParticles := []; statParticles := []; popFlashes := [];
     gatherParticles := []; gatherTarget := None; gathering := false;
     gatherStart := 0; gatherDur := 260; emissionPlan := None;
     lastSample := []; statistic := StMean; threshold := 1 # 2;
     speed := SpNormal; rng := Rng.create 1234;
     needsRedraw := true; lastGatheringSample := None |}.

Definition colCenter (e : t) (col : nat) : Q :=
  (gridX0 (geom e) + inject_Z (Z.of_nat col) * BOX (geom e) + BOX (geom e) / 2)%Q.

(** [hasActiveAnimations()], as a truth value. *)
Definition hasActiveAnimations (e : t) : bool :=
  match emissionPlan e with Some _ => true | None => false end
  || negb (length (sampleParticles e) =? 0)%nat
  || negb (length (statParticles e) =? 0)%nat
  || gathering e
  || negb (length (popFlashes e) =? 0)%nat
  || negb (length (gatherParticles e) =? 0)%nat.

Definition isIdle (e : t) : bool := negb (hasActiveAnimations e).

(** [hasSampleInMid()] *)
Definition hasSampleInMid (e : t) : bool :=
  existsb (fun i => (0 <? rd (midCounts e) i)%Z) (seq 0 (COLS e)).

Definition computeStat `{HostMath} (e : t) (xs : list Q) : jsnum :=
  Stats.computeStat (statistic e) (threshold e) xs.

Definition statDomain (e : t) : Q * Q := Stats.statDomain (statistic e).

Definition popStats `{HostMath} (e : t) : Pop.stats :=
  Pop.popStats (COLS e) (popCounts e) (threshold e).

Definition sampleN (e : t) (n : nat) : list Q * list nat * Rng.stream :=
  Sampler.sampleN (COLS e) (popCounts e) n (rng e).

(** *** [scheduleEmission] and [startSample] *)

Definition scheduleEmission (xs : list Q) (cols : list nat) (dropMs now : Q) (e : t) : t :=
  {| COLS := COLS e; STAT_BINS := STAT_BINS e; geom := geom e;
     popCounts := popCounts e; midCounts := midCounts e; botCounts := botCounts e;
     sampleParticles := sampleParticles e; statParticles := statParticles e;
     popFlashes := popFlashes e; gatherParticles := gatherParticles e;
     gatherTarget := gatherTarget e; gathering := gathering e;
     gatherStart := gatherStart e; gatherDur := gatherDur e;
     emissionPlan := Some {| e_start := now; e_end := now + dropMs;
                             e_total := length cols; e_emitted := 0;
                             e_cols := cols; e_xs := xs |};
     lastSample := xs;
     statistic := statistic e; threshold := threshold e; speed := speed e;
     rng := rng e; needsRedraw := needsRedraw e;
     lastGatheringSample := lastGatheringSample e |}.

(** The engine after the [rng()] calls of a sampling. *)
Definition with_rng (r : Rng.stream) (e : t) : t :=
  {| COLS := COLS e; STAT_BINS := STAT_BINS e; geom := geom e;
     popCounts := popCounts e; midCounts := midCounts e; botCounts := botCounts e;
     sampleParticles := sampleParticles e; statParticles := statParticles e;
     popFlashes := popFlashes e; gatherParticles := gatherParticles e;
     gatherTarget := gatherTarget e; gathering := gathering e;
     gatherStart := gatherStart e; gatherDur := gatherDur e;
     emissionPlan := emissionPlan e; lastSample := lastSample e;
     statistic := statistic e; threshold := threshold e; speed := speed e;
     rng := r; needsRedraw := needsRedraw e;
     lastGatheringSample := lastGatheringSample e |}.

Definition startSample (n : nat) (dropMs now : Q) (e : t) : t :=
  let '(xs, cols, r) := sampleN e n in
  scheduleEmission xs cols dropMs now (with_rng r e).

(** *** [tick]: emission *)

(** The number [toEmit] of particles to release at [now]; a [NaN]
    fraction makes both tests fail, like a count of 0. *)
Definition toEmit (p : EmissionPlan) (now : Q) : Z :=
  match js_div_clamp01 (now - e_start p) (e_end p - e_start p) with
  | NaN => 0%Z
  | Num f =>
      let targetEmitted := Qfloor (f * inject_Z (Z.of_nat (e_total p))) in
      let toEmit := (targetEmitted - Z.of_nat (e_emitted p))%Z in
      if (toEmit <=? 0)%Z && Qle_bool 1 f
      then (Z.of_nat (e_total p) - Z.of_nat (e_emitted p))%Z
      else toEmit
  end.

(** [for (const s of this.sampleParticles) inflight[s.col]++] *)
Definition inflightOf (cols : nat) (ps : list Particle) : list Z :=
  fold_left (fun inflight s => inc16 inflight (p_col s)) ps (zeros cols).

(** [yStart]: the top of the population stack of [col]
    ([topBase = marginY + H_TOP - 16]). *)
Definition yStart (e : t) (col : nat) : Q :=
  let g := geom e in
  let topBase := (marginY g + H_TOP g - 16)%Q in
  if (0 <? rd (popCounts e) col)%Z
  then (topBase - inject_Z (rd (popCounts e) col - 1) * BOX_TOP_Y g - BOX_TOP_Y g / 2)%Q
  else (BOX_TOP_Y g * 2)%Q.

(** [targetY] for a tray stack of height [level]
    ([midBase = marginY + H_TOP + H_MID - 8]). *)
Definition sampleTargetY (e : t) (level : Z) : Q :=
  let g := geom e in
  let midBase := (marginY g + H_TOP g + H_MID g - 8)%Q in
  (midBase - inject_Z level * BOX_MID_Y g - BOX_MID_Y g / 2)%Q.

(** [while (toEmit-- > 0 && p.emitted < p.total) {...}]: the flashes
    and particles pushed, in order, and the final [emitted]. *)
Fixpoint emitLoop (e : t) (now : Q) (p : EmissionPlan) (fuel : nat)
    (emitted : nat) (inflight : list Z) : list Flash * list Particle * nat :=
  match fuel with
  | O => ([], [], emitted)
  | S fuel' =>
      if (emitted <? e_total p)%nat then
        let col := nth emitted (e_cols p) 0%nat in
        let level := (rd (midCounts e) col + rd inflight col)%Z in
        let '(fs, ps, em) :=
          emitLoop e now p fuel' (S emitted) (inc16 inflight col) in
        ({| f_col := col; f_y := yStart e col; f_until := now + 160 |} :: fs,
         {| p_col := col; p_x := colCenter e col; p_y := yStart e col;
            p_vy := 0; p_targetY := sampleTargetY e level |} :: ps,
         em)
      else ([], [], emitted)
  end.

(** The emission block: new plan, flashes and sample particles. *)
Definition emission (e : t) (now : Q)
    : option EmissionPlan * list Flash * list Particle :=
  match emissionPlan e with
  | None => (None, popFlashes e, sampleParticles e)
  | Some p =>
      let k := toEmit p now in
      let '(fs, ps, em) :=
        if (0 <? k)%Z
        then emitLoop e now p (Z.to_nat k) (e_emitted p)
                      (inflightOf (COLS e) (sampleParticles e))
        else ([], [], e_emitted p) in
      let p' := {| e_start := e_start p; e_end := e_end p; e_total := e_total p;
                   e_emitted := em; e_cols := e_cols p; e_xs := e_xs p |} in
      (if (e_total p <=? em)%nat then None else Some p',
       popFlashes e ++ fs, sampleParticles e ++ ps)
  end.

(** *** [tick]: particle physics *)

Definition gravity (s : Speed) : Q :=
  match s with SpFast => 2400 | SpNormal => 1400 end.

(** [s.vy += g * dt; s.y = Math.min(s.y + s.vy * dt, s.targetY)] *)
Definition fall (g dt : Q) (s : Particle) : Particle :=
  let vy := (p_vy s + g * dt)%Q in
  {| p_col := p_col s; p_x := p_x s;
     p_y := Qmin (p_y s + vy * dt) (p_targetY s);
     p_vy := vy; p_targetY := p_targetY s |}.

(** [s.y < s.targetY - 0.1]: still in flight. *)
Definition inFlight (y targetY : Q) : bool :=
  negb (Qle_bool (targetY - (1 # 10)) y).

(** The loop over the sample particles: survivors and the tray. *)
Fixpoint samplePhysics (g dt : Q) (ps : list Particle) (mid : list Z)
    : list Particle * list Z :=
  match ps with
  | [] => ([], mid)
  | s :: rest =>
      let s' := fall g dt s in
      if inFlight (p_y s') (p_targetY s') then
        let '(sv, mid') := samplePhysics g dt rest mid in (s' :: sv, mid')
      else samplePhysics g dt rest (inc16 mid (p_col s'))
  end.

Definition fallStat (g dt : Q) (p : StatParticle) : StatParticle :=
  let vy := (q_vy p + g * dt)%Q in
  {| q_x := q_x p; q_y := Qmin (q_y p + vy * dt) (q_targetY p);
     q_vy := vy; q_targetY := q_targetY p; q_bin := q_bin p |}.

(** The loop over the statistic particles: survivors and the
    sampling distribution. *)
Fixpoint statPhysics (g dt : Q) (ps : list StatParticle) (bot : list Z)
    : list StatParticle * list Z :=
  match ps with
  | [] => ([], bot)
  | p :: rest =>
      let p' := fallStat g dt p in
      if inFlight (q_y p') (q_targetY p') then
        let '(sv, bot') := statPhysics g dt rest bot in (p' :: sv, bot')
      else statPhysics g dt rest (Bins.inc32_at bot (q_bin p'))
  end.

(** *** [tick]: gathering *)

(** [gp.x = gp.sx + dx * t; gp.y = gp.sy + dy * t] *)
Definition moveGather (tgt : GatherTarget) (tt : jsnum) (gp : GatherParticle)
    : GatherParticle :=
  {| g_sx := g_sx gp; g_sy := g_sy gp;
     g_x := match gt_x tgt, tt with
            | Num tx, Num t0 => Num (g_sx gp + (tx - g_sx gp) * t0)
            | _, _ => NaN
            end;
     g_y := match tt with
            | Num t0 => Num (g_sy gp + (gt_y tgt - g_sy gp) * t0)
            | NaN => NaN
            end |}.

(** [q.bin === this.gatherTarget.bin] ([NaN] equals nothing). *)
Definition sameBin (a b : option nat) : bool :=
  match a, b with
  | Some x, Some y => (x =? y)%nat
  | _, _ => false
  end.

(** The particle pushed when the interpolation has reached 1. *)
Definition spawnStat (e : t) (stats : list StatParticle) (tgt : GatherTarget)
    : StatParticle :=
  let g := geom e in
  let botBase := (marginY g + H_TOP g + H_MID g + H_BOT g - 8)%Q in
  let inflightForBin :=
    length (List.filter (fun q => sameBin (q_bin q) (gt_bin tgt)) stats) in
  let level :=
    (match gt_bin tgt with Some b => rd (botCounts e) b | None => 0 end
     + Z.of_nat inflightForBin)%Z in
  let targetY := (botBase - inject_Z level * BOX_BOT_Y g - BOX_BOT_Y g / 2)%Q in
  let xCenter :=
    match gt_bin tgt with
    | Some b => Num (gridX0 g + inject_Z (Z.of_nat b) * BOX g + BOX g / 2)
    | None => NaN
    end in
  {| q_x := xCenter; q_y := gt_y tgt; q_vy := 0; q_targetY := targetY;
     q_bin := gt_bin tgt |}.

(** The interpolation parameter [t] of the gather at [now]. *)
Definition gatherT (e : t) (now : Q) : jsnum :=
  js_div_clamp01 (now - gatherStart e) (gatherDur e).

(** [t >= 1] *)
Definition reached1 (tt : jsnum) : bool :=
  match tt with
  | Num t0 => Qle_bool 1 t0
  | NaN => false
  end.

Record GatherOut : Type := {
  go_gatherParticles : list GatherParticle;
  go_statParticles : list StatParticle;
  go_gathering : bool;
  go_gatherTarget : option GatherTarget;
  go_lastGatheringSample : option (list Q)
}.

(** The gathering block of [tick]. *)
Definition gatherStep (e : t) (now : Q) : GatherOut :=
  match gathering e, gatherTarget e with
  | true, Some tgt =>
      let tt := gatherT e now in
      if reached1 tt then
        {| go_gatherParticles := [];
           go_statParticles := statParticles e ++ [spawnStat e (statParticles e) tgt];
           go_gathering := false; go_gatherTarget := None;
           go_lastGatheringSample := None |}
      else
        {| go_gatherParticles := map (moveGather tgt tt) (gatherParticles e);
           go_statParticles := statParticles e;
           go_gathering := true; go_gatherTarget := Some tgt;
           go_lastGatheringSample := lastGatheringSample e |}
  | _, _ =>
      {| go_gatherParticles := gatherParticles e;
         go_statParticles := statParticles e;
         go_gathering := gathering e; go_gatherTarget := gatherTarget e;
         go_lastGatheringSample := lastGatheringSample e |}
  end.

(** *** [tick(dt, now)] *)

Definition tick (dt now : Q) (e : t) : t :=
  let hadAnimations := hasActiveAnimations e in
  let g := gravity (speed e) in
  let '(plan, flashes, parts) := emission e now in
  let '(survivors, mid) := samplePhysics g dt parts (midCounts e) in
  let go := gatherStep e now in
  let '(statSurvivors, bot) := statPhysics g dt (go_statParticles go) (botCounts e) in
  let flashes' := List.filter (fun f => negb (Qle_bool (f_until f) now)) flashes in
  let e' :=
    {| COLS := COLS e; STAT_BINS := STAT_BINS e; geom := geom e;
       popCounts := popCounts e; midCounts := mid; botCounts := bot;
       sampleParticles := survivors; statParticles := statSurvivors;
       popFlashes := flashes'; gatherParticles := go_gatherParticles go;
       gatherTarget := go_gatherTarget go; gathering := go_gathering go;
       gatherStart := gatherStart e; gatherDur := gatherDur e;
       emissionPlan := plan; lastSample := lastSample e;
       statistic := statistic e; threshold := threshold e; speed := speed e;
       rng := rng e; needsRedraw := needsRedraw e;
       lastGatheringSample := go_lastGatheringSample go |} in
  {| COLS := COLS e'; STAT_BINS := STAT_BINS e'; geom := geom e';
     popCounts := popCounts e'; midCounts := midCounts e'; botCounts := botCounts e';
     sampleParticles := sampleParticles e'; statParticles := statParticles e';
     popFlashes := popFlashes e'; gatherParticles := gatherParticles e';
     gatherTarget := gatherTarget e'; gathering := gathering e';
     gatherStart := gatherStart e'; gatherDur := gatherDur e';
     emissionPlan := emissionPlan e'; lastSample := lastSample e';
     statistic := statistic e'; threshold := threshold e'; speed := speed e';
     rng := rng e';
     needsRedraw := if hasActiveAnimations e' || hadAnimations then true
                    else needsRedraw e';
     lastGatheringSample := lastGatheringSample e' |}.

(** *** [calculateWithGather] *)

(** [for (c...) for (r < midCounts[c]) list.push((c + 0.5) / COLS)] *)
Definition expandTray (cols : nat) (mid : list Z) : list Q :=
  flat_map (fun c => repeat (Pop.center cols c) (Z.to_nat (rd mid c))) (seq 0 cols).

(** The snapshot of the tray: one gather particle per stacked box. *)
Definition snapshotTray (e : t) : list GatherParticle :=
  let g := geom e in
  let midBase := (marginY g + H_TOP g + H_MID g - 16)%Q in
  flat_map (fun c =>
              map (fun r =>
                     let startY := (midBase - inject_Z (Z.of_nat r) * BOX_MID_Y g
                                    - BOX_MID_Y g / 2)%Q in
                     let startX := colCenter e c in
                     {| g_sx := startX; g_sy := startY;
                        g_x := Num startX; g_y := Num startY |})
                  (seq 0 (Z.to_nat (rd (midCounts e) c))))
           (seq 0 (COLS e)).

Definition calculateWithGather `{HostMath} (now : Q) (e : t) : t :=
  let xs := lastSample e in
  let hasMid := hasSampleInMid e in
  if (length xs =? 0)%nat && negb hasMid then e
  else
    let lgs := if negb (length xs =? 0)%nat then xs
               else expandTray (COLS e) (midCounts e) in
    let val := computeStat e lgs in
    let bin := Bins.binOf (STAT_BINS e) Bins.eps9 (statDomain e) val in
    let g := geom e in
    let gatherX :=
      match bin with
      | Some b => Num (gridX0 g + inject_Z (Z.of_nat b) * BOX g + BOX g / 2)
      | None => NaN
      end in
    let gatherY := (marginY g + H_TOP g + H_MID g / 2)%Q in
    {| COLS := COLS e; STAT_BINS := STAT_BINS e; geom := geom e;
       popCounts := popCounts e;
       midCounts := zeros (COLS e);
       botCounts := botCounts e;
       sampleParticles := sampleParticles e; statParticles := statParticles e;
       popFlashes := popFlashes e;
       gatherParticles := snapshotTray e;
       gatherTarget := Some {| gt_x := gatherX; gt_y := gatherY; gt_bin := bin |};
       gathering := true;
       gatherStart := now; gatherDur := gatherDur e;
       emissionPlan := emissionPlan e;
       lastSample := [];
       statistic := statistic e; threshold := threshold e; speed := speed e;
       rng := rng e; needsRedraw := needsRedraw e;
       lastGatheringSample := Some lgs |}.

(** *** [clearTray], [resetExperiment] *)

Definition clearTray (e : t) : t :=
  {| COLS := COLS e; STAT_BINS := STAT_BINS e; geom := geom e;
     popCounts := popCounts e;
     midCounts := zeros (COLS e);
     botCounts := botCounts e;
     sampleParticles := [];
     statParticles := statParticles e;
     popFlashes := popFlashes e;
     gatherParticles := [];
     gatherTarget := gatherTarget e;
     gathering := false;
     gatherStart := gatherStart e; gatherDur := gatherDur e;
     emissionPlan := None;
     lastSample := [];
     statistic := statistic e; threshold := threshold e; speed := speed e;
     rng := rng e;
     needsRedraw := true;
     lastGatheringSample := lastGatheringSample e |}.

Definition resetExperiment (e : t) : t :=
  {| COLS := COLS e; STAT_BINS := STAT_BINS e; geom := geom e;
     popCounts := popCounts e; midCounts := midCounts e;
     botCounts := zeros (STAT_BINS e);
     sampleParticles := sampleParticles e;
     statParticles := [];
     popFlashes := popFlashes e; gatherParticles := gatherParticles e;
     gatherTarget := gatherTarget e; gathering := gathering e;
     gatherStart := gatherStart e; gatherDur := gatherDur e;
     emissionPlan := emissionPlan e; lastSample := lastSample e;
     statistic := statistic e; threshold := threshold e; speed := speed e;
     rng := rng e;
     needsRedraw := true;
     lastGatheringSample := lastGatheringSample e |}.

(** The click handler of the reset button:
    [engine.clearTray(); engine.resetExperiment();]. *)
Definition reset (e : t) : t := resetExperiment (clearTray e).

(** *** [handleRepeatTurbo] *)

Definition with_rng_bot (r : Rng.stream) (bot : list Z) (redraw : bool) (e : t) : t :=
  {| COLS := COLS e; STAT_BINS := STAT_BINS e; geom := geom e;
     popCounts := popCounts e; midCounts := midCounts e;
     botCounts := bot;
     sampleParticles := sampleParticles e; statParticles := statParticles e;
     popFlashes := popFlashes e; gatherParticles := gatherParticles e;
     gatherTarget := gatherTarget e; gathering := gathering e;
     gatherStart := gatherStart e; gatherDur := gatherDur e;
     emissionPlan := emissionPlan e; lastSample := lastSample e;
     statistic := statistic e; threshold := threshold e; speed := speed e;
     rng := r;
     needsRedraw := redraw;
     lastGatheringSample := lastGatheringSample e |}.

(** The bin one turbo iteration resolves for the sample [xs]. *)
Definition turboBin `{HostMath} (e : t) (xs : list Q) : option nat :=
  Bins.binOf (STAT_BINS e) Bins.eps9 (statDomain e) (computeStat e xs).

(** One iteration of the loop of [handleRepeatTurbo]. *)
Definition turboStep `{HostMath} (n : nat) (e : t) : t :=
  let '(xs, _, r) := sampleN e n in
  with_rng_bot r (Bins.inc32_at (botCounts e) (turboBin e xs)) (needsRedraw e) e.

Definition handleRepeatTurbo `{HostMath} (n : nat) (e : t) : t :=
  let e' := Nat.iter 1000 (turboStep n) e in
  with_rng_bot (rng e') (botCounts e') true e'.

End Engine.

(** ** Controls of the component that write engine fields *)

Module Controls.
Import Engine.

(** The fields the control handlers and [draw] assign. *)
Definition assign (g : Geometry) (pop : list Z) (st : Statistic) (thr : Q)
    (sp : Speed) (r : Rng.stream) (dur : Q) (redraw : bool) (e : Engine.t) : Engine.t :=
  {| COLS := COLS e; STAT_BINS := STAT_BINS e; geom := g;
     popCounts := pop; midCounts := midCounts e; botCounts := botCounts e;
     sampleParticles := sampleParticles e; statParticles := statParticles e;
     popFlashes := popFlashes e; gatherParticles := gatherParticles e;
     gatherTarget := gatherTarget e; gathering := gathering e;
     gatherStart := gatherStart e; gatherDur := dur;
     emissionPlan := emissionPlan e; lastSample := lastSample e;
     statistic := st; threshold := thr; speed := sp;
     rng := r; needsRedraw := redraw;
     lastGatheringSample := lastGatheringSample e |}.

(** [engine.statistic = this.value] *)
Definition setStatistic (st : Statistic) (e : Engine.t) : Engine.t :=
  assign (geom e) (popCounts e) st (threshold e) (speed e) (rng e)
         (gatherDur e) (needsRedraw e) e.

(** [engine.threshold = parseFloat(this.value)] *)
Definition setThreshold (thr : Q) (e : Engine.t) : Engine.t :=
  assign (geom e) (popCounts e) (statistic e) thr (speed e) (rng e)
         (gatherDur e) (needsRedraw e) e.

(** [engine.speed = this.value] *)
Definition setSpeed (sp : Speed) (e : Engine.t) : Engine.t :=
  assign (geom e) (popCounts e) (statistic e) (threshold e) sp (rng e)
         (gatherDur e) (needsRedraw e) e.

(** [engine.gatherDur = ...] (the repeat-10 handler sets 180). *)
Definition setGatherDur (dur : Q) (e : Engine.t) : Engine.t :=
  assign (geom e) (popCounts e) (statistic e) (threshold e) (speed e) (rng e)
         dur (needsRedraw e) e.

(** [engine.rng = rngMulberry32(seed)] *)
Definition setSeed (seed : Z) (e : Engine.t) : Engine.t :=
  assign (geom e) (popCounts e) (statistic e) (threshold e) (speed e)
         (Rng.create seed) (gatherDur e) (needsRedraw e) e.

(** [applyGenerator(name)]: the weights go through [Math.exp] and
    [Math.log]; the rounded table [counts] is taken as given. *)
Definition applyGenerator (counts : list Z) (e : Engine.t) : Engine.t :=
  assign (geom e) counts (statistic e) (threshold e) (speed e) (rng e)
         (gatherDur e) true e.

(** [clickPopulation] ([delta = 1]) and [altClickPopulation] ([delta = -1]). *)
Definition clickPopulation (delta : Z) (xCanvas yCanvas : Q) (e : Engine.t) : Engine.t :=
  let g := geom e in
  if negb (Qle_bool yCanvas (marginY g + H_TOP g)) then e
  else
    let col := Z.to_nat (clampZ (Qfloor ((xCanvas - gridX0 g) / BOX g)) 0
                                (Z.of_nat (COLS e) - 1)) in
    let v := clampZ (rd (popCounts e) col + delta) 0 10000 in
    assign g (<[ col := wrap16 v ]> (popCounts e)) (statistic e) (threshold e)
           (speed e) (rng e) (gatherDur e) true e.

(** [layoutFromViewport(plotW, canvasH)] with [TOP_UNITS = 30],
    [MID_UNITS = 24], [BOT_UNITS = 36]. *)
Definition layoutFromViewport (pw canvasH : Q) (e : Engine.t) : Engine.t :=
  let innerW := Qmax 200 (pw - 2 * 16) in
  let fromWidth := Qmax 6 (inject_Z (Qfloor (innerW / inject_Z (Z.of_nat (COLS e))))) in
  let fromHeight := Qmax 6 (inject_Z (Qfloor ((canvasH - 2 * 16) / 90))) in
  let box := Qmin fromWidth fromHeight in
  assign (resetGeometry (COLS e) pw (30 * box) (24 * box) (36 * box) (geom e))
         (popCounts e) (statistic e) (threshold e) (speed e) (rng e)
         (gatherDur e) true e.

(** [arr.reduce((m, v) => (v > m ? v : m), 0)] *)
Definition maxOf (arr : list Z) : Z := fold_left Z.max arr 0%Z.

(** [need > 0 ? Math.min(1, (H - 28) / need) : 1] for [need = maxOf(counts) * BOX]. *)
Definition scaleOf (h box : Q) (counts : list Z) : Q :=
  let need := (inject_Z (maxOf counts) * box)%Q in
  if negb (Qle_bool need 0) then Qmin 1 ((h - 28) / need) else 1%Q.

(** What [draw()] writes back into the engine: the vertical box sizes
    and [needsRedraw = false].  The engine is one that has its canvas
    context, as every engine the page constructs
    ([new Engine(canvas.getContext('2d'))]); without a context
    [draw()] returns before it writes anything. *)
Definition draw (e : Engine.t) : Engine.t :=
  if negb (needsRedraw e) then e
  else
    let g := geom e in
    let g' := {| plotW := plotW g; gridW := gridW g; colW := colW g; BOX := BOX g;
                 gridX0 := gridX0 g; H_TOP := H_TOP g; H_MID := H_MID g;
                 H_BOT := H_BOT g; marginY := marginY g;
                 BOX_TOP_Y := BOX g * scaleOf (H_TOP g) (BOX g) (popCounts e);
                 BOX_MID_Y := BOX g * scaleOf (H_MID g) (BOX g) (midCounts e);
                 BOX_BOT_Y := BOX g * scaleOf (H_BOT g) (BOX g) (botCounts e) |} in
    assign g' (popCounts e) (statistic e) (threshold e) (speed e) (rng e)
           (gatherDur e) false e.

End Controls.

(** ** The component: engine, pending timers and the clock *)

Module App.

(** A pending [setTimeout(() => this.startSample(n, dropMs), 100)]. *)
Record Timer : Type := { due : Q; tm_n : nat; tm_dropMs : Q }.

Record t : Type := {
  engine : Engine.t;
  timers : list Timer;
  clock : Q                      (* the last time observed *)
}.

(** [new Engine(ctx)] followed by [engine.rng = rngMulberry32(seed)]
    (the population the component installs at mount is an
    [EvApplyGenerator] event). *)
Definition init (seed : Z) : t :=
  {| engine := Controls.setSeed seed (Engine.create 60 60); timers := []; clock := 0 |}.

(** [this.lastSample?.length || this.hasSampleInMid()] *)
Definition trayOccupied (e : Engine.t) : bool :=
  negb (length (Engine.lastSample e) =? 0)%nat || Engine.hasSampleInMid e.

(** [drawSampleWithAutoCalculate(n, dropMs)] called at time [now]. *)
Definition drawSampleWithAutoCalculate `{HostMath} (n : nat) (dropMs now : Q) (w : t) : t :=
  if trayOccupied (engine w) then
    {| engine := Engine.calculateWithGather now (engine w);
       timers := timers w ++ [{| due := now + 100; tm_n := n; tm_dropMs := dropMs |}];
       clock := now |}
  else
    {| engine := Engine.startSample n dropMs now (engine w);
       timers := timers w; clock := now |}.

(** The callback of a timer, run at time [now]. *)
Definition fire (tm : Timer) (now : Q) (e : Engine.t) : Engine.t :=
  Engine.startSample (tm_n tm) (tm_dropMs tm) now e.

Definition onEngine (f : Engine.t -> Engine.t) (now : Q) (w : t) : t :=
  {| engine := f (engine w); timers := timers w; clock := now |}.

(** What can happen to the component. *)
Inductive event : Type :=
| EvTick (dt now : Q)                       (* animation frame: [engine.tick(dt, now)] *)
| EvRender (now : Q)                        (* [engine.draw()] *)
| EvDraw (n : nat) (dropMs now : Q)         (* draw button *)
| EvTimer (i : nat) (now : Q)               (* the [i]-th pending timer fires *)
| EvTurbo (n : nat) (now : Q)               (* repeat-1000 button *)
| EvClearTray (now : Q)
| EvResetExperiment (now : Q)
| EvReset (now : Q)                         (* reset button *)
| EvSetSeed (seed : Z) (now : Q)
| EvSetStatistic (st : Statistic) (now : Q)
| EvSetThreshold (thr : Q) (now : Q)
| EvSetSpeed (sp : Engine.Speed) (now : Q)
| EvSetGatherDur (dur : Q) (now : Q)
| EvApplyGenerator (counts : list Z) (now : Q)
| EvClick (delta : Z) (x y : Q) (now : Q)
| EvLayout (plotW canvasH : Q) (now : Q).     (* resize *)

Definition timeOf (ev : event) : Q :=
  match ev with
  | EvTick _ now | EvRender now | EvDraw _ _ now | EvTimer _ now | EvTurbo _ now
  | EvClearTray now | EvResetExperiment now | EvReset now | EvSetSeed _ now
  | EvSetStatistic _ now | EvSetThreshold _ now | EvSetSpeed _ now
  | EvSetGatherDur _ now | EvApplyGenerator _ now | EvClick _ _ _ now
  | EvLayout _ _ now => now
  end.

(** One event: [None] when the event cannot happen (time running
    backwards, a timer that is not pending or not yet due). *)
Definition exec `{HostMath} (ev : event) (w : t) : option t :=
  let now := timeOf ev in
  if negb (Qle_bool (clock w) now) then None
  else
    match ev with
    | EvTick dt _ => Some (onEngine (Engine.tick dt now) now w)
    | EvRender _ => Some (onEngine Controls.draw now w)
    | EvDraw n dropMs _ => Some (drawSampleWithAutoCalculate n dropMs now w)
    | EvTimer i _ =>
        match timers w !! i with
        | Some tm =>
            if Qle_bool (due tm) now
            then Some {| engine := fire tm now (engine w);
                         timers := delete i (timers w); clock := now |}
            else None
        | None => None
        end
    | EvTurbo n _ => Some (onEngine (Engine.handleRepeatTurbo n) now w)
    | EvClearTray _ => Some (onEngine Engine.clearTray now w)
    | EvResetExperiment _ => Some (onEngine Engine.resetExperiment now w)
    | EvReset _ => Some (onEngine Engine.reset now w)
    | EvSetSeed s _ => Some (onEngine (Controls.setSeed s) now w)
    | EvSetStatistic st _ => Some (onEngine (Controls.setStatistic st) now w)
    | EvSetThreshold thr _ => Some (onEngine (Controls.setThreshold thr) now w)
    | EvSetSpeed sp _ => Some (onEngine (Controls.setSpeed sp) now w)
    | EvSetGatherDur d _ => Some (onEngine (Controls.setGatherDur d) now w)
    | EvApplyGenerator c _ => Some (onEngine (Controls.applyGenerator c) now w)
    | EvClick d x y _ => Some (onEngine (Controls.clickPopulation d x y) now w)
    | EvLayout pw ch _ => Some (onEngine (Controls.layoutFromViewport pw ch) now w)
    end.

(** A run: the events in order. *)
Fixpoint run `{HostMath} (evs : list event) (w : t) : option t :=
  match evs with
  | [] => Some w
  | ev :: rest =>
      match exec ev w with
      | Some w' => run rest w'
      | None => None
      end
  end.

(** The same as a relation between states. *)
Inductive steps `{HostMath} : t -> list event -> t -> Prop :=
| steps_nil w : steps w [] w
| steps_cons w ev w1 evs w2 :
    exec ev w = Some w1 -> steps w1 evs w2 -> steps w (ev :: evs) w2.


(** The three histograms. *)
Definition histograms (w : t) : list Z * list Z * list Z :=
  (Engine.popCounts (engine w), Engine.midCounts (engine w),
   Engine.botCounts (engine w)).

End App.

(** ** The shared [StatEngine] module (no animation: its [particles] and
    [animations] fields are written by [reset()] only and never read) *)

Module StatEngine.

Record t : Type := {
  cols : nat; statBins : nat;          (* config *)
  populationData : list Z;             (* Uint16Array(cols) *)
  sampleData : list Z;                 (* Uint16Array(cols) *)
  samplingDistData : list Z;           (* Uint32Array(statBins) *)
  currentSample : list Q;
  statistic : Statistic;
  threshold : Q;
  rng : Rng.stream
}.

Definition getPopulationStats `{HostMath} (e : t) : Pop.stats :=
  Pop.popStats (cols e) (populationData e) (threshold e).

(** [drawSample(sampleSize)]: [{ values, columns }] and the engine
    with [currentSample] and the advanced stream. *)
Definition drawSample (sampleSize : nat) (e : t) : list Q * list nat * t :=
  let '(values, columns, r) :=
    Sampler.sampleN (cols e) (populationData e) sampleSize (rng e) in
  (values, columns,
   {| cols := cols e; statBins := statBins e;
      populationData := populationData e; sampleData := sampleData e;
      samplingDistData := samplingDistData e;
      currentSample := values;
      statistic := statistic e; threshold := threshold e; rng := r |}).

Definition getStatisticDomain (e : t) : Q * Q := Stats.statDomain (statistic e).

Definition computeStatistic `{HostMath} (e : t) (values : list Q) : jsnum :=
  Stats.computeStat (statistic e) (threshold e) values.

(** The bin [addToSamplingDistribution] increments:
    [clamp(Math.floor(proportion * statBins), 0, statBins - 1)] for
    [proportion = clamp((v - min) / (max - min), 0, 1)].  With [min = 0]
    and [max - min] equal to 1 or 1/2 the quotient is exact in doubles;
    the product is rounded to a double before [Math.floor].  [None] is
    the [NaN] index a [NaN] value leads to. *)
Definition binFor (e : t) (v : jsnum) : option nat :=
  match v with
  | NaN => None
  | Num q =>
      let '(min, max) := getStatisticDomain e in
      let proportion := clamp ((q - min) / (max - min)) 0 1 in
      Some (Z.to_nat (clampZ (Qfloor (fl64 (proportion * inject_Z (Z.of_nat (statBins e)))))
                             0 (Z.of_nat (statBins e) - 1)))
  end.

Definition addToSamplingDistribution (v : jsnum) (e : t) : t :=
  {| cols := cols e; statBins := statBins e;
     populationData := populationData e; sampleData := sampleData e;
     samplingDistData := Bins.inc32_at (samplingDistData e) (binFor e v);
     currentSample := currentSample e;
     statistic := statistic e; threshold := threshold e; rng := rng e |}.

(** One iteration of [runBulkSimulation]:
    [if (!isNaN(statValue)) this.addToSamplingDistribution(statValue)]. *)
Definition bulkStep `{HostMath} (sampleSize : nat) (e : t) : t :=
  let '(values, _, e1) := drawSample sampleSize e in
  match computeStatistic e1 values with
  | NaN => e1
  | Num v => addToSamplingDistribution (Num v) e1
  end.

Definition runBulkSimulation `{HostMath} (sampleSize iterations : nat) (e : t) : t :=
  Nat.iter iterations (bulkStep sampleSize) e.

Definition clearSample (e : t) : t :=
  {| cols := cols e; statBins := statBins e;
     populationData := populationData e;
     sampleData := zeros (length (sampleData e));     (* fill(0) *)
     samplingDistData := samplingDistData e;
     currentSample := [];
     statistic := statistic e; threshold := threshold e; rng := rng e |}.

Definition clearSamplingDistribution (e : t) : t :=
  {| cols := cols e; statBins := statBins e;
     populationData := populationData e; sampleData := sampleData e;
     samplingDistData := zeros (length (samplingDistData e));
     currentSample := currentSample e;
     statistic := statistic e; threshold := threshold e; rng := rng e |}.

Definition clearAll (e : t) : t := clearSamplingDistribution (clearSample e).

(** [new StatEngine(options)]: the configuration lists
    [cols: options.cols || 60], [statBins: options.statBins || 60] and
    [seed: options.seed || 1234] and then spreads [...options] over
    them, so a key that [options] has keeps its value and only a
    missing key ([None]) gets the default; then [reset()] and
    [createRNG(this.config.seed)]. *)
Definition create (cols statBins : option nat) (seed : option Z) : t :=
  let c := default 60%nat cols in
  let b := default 60%nat statBins in
  {| cols := c; statBins := b;
     populationData := zeros c; sampleData := zeros c; samplingDistData := zeros b;
     currentSample := []; statistic := StMean; threshold := 1 # 2;
     rng := Rng.create (default 1234%Z seed) |}.

(** The engine with another population table. *)
Definition with_population (data : list Z) (e : t) : t :=
  {| cols := cols e; statBins := statBins e;
     populationData := data; sampleData := sampleData e;
     samplingDistData := samplingDistData e;
     currentSample := currentSample e;
     statistic := statistic e; threshold := threshold e; rng := rng e |}.

(** [modifyPopulation(position, delta)] *)
Definition modifyPopulation (position : Q) (delta : Z) (e : t) : t :=
  let col := Z.to_nat (clampZ (Qfloor (position * inject_Z (Z.of_nat (cols e)))) 0
                              (Z.of_nat (cols e) - 1)) in
  let v := clampZ (rd (populationData e) col + delta) 0 10000 in
  with_population (<[ col := wrap16 v ]> (populationData e)) e.

(** The entry [uniform: (x) => 1] of the table [generators]; the other
    entries go through [Math.exp] and [Math.log]. *)
Definition uniform (x : Q) : Q := 1%Q.

(** The loop of [setPopulationGenerator] for the weight function
    [generator]:
    [populationData[c] = Math.max(0, Math.round(generator(x) * 20))]
    ([Math.round] rounds halves up). *)
Definition setPopulationGenerator (generator : Q -> Q) (e : t) : t :=
  with_population
    (fold_left (fun data c =>
                  let x := Pop.center (cols e) c in
                  let weight := generator x in
                  <[ c := wrap16 (Z.max 0 (Qfloor (weight * 20 + (1 # 2)))) ]> data)
               (seq 0 (cols e)) (populationData e))
    e.

(** [{ mean, sd, total }] *)
Record distStats : Type := { ds_mean : Q; ds_sd : Q; ds_total : Z }.

(** [domain.min + x01 * (domain.max - domain.min)] for
    [x01 = (b + 0.5) / statBins]. *)
Definition binValue (e : t) (b : nat) : Q :=
  let '(min, max) := getStatisticDomain e in
  (min + Pop.center (statBins e) b * (max - min))%Q.

(** [for (b...) { total += weight; mean += weight * value; }] *)
Definition loop_total_mean (e : t) : Z * Q :=
  fold_left (fun '(total, mean) b =>
               let weight := rd (samplingDistData e) b in
               ((total + weight)%Z, (mean + inject_Z weight * binValue e b)%Q))
            (seq 0 (statBins e)) (0%Z, 0%Q).

(** [for (b...) variance += weight * (value - mean) * (value - mean)] *)
Definition loop_variance (e : t) (mean : Q) : Q :=
  fold_left (fun variance b =>
               let weight := rd (samplingDistData e) b in
               (variance + inject_Z weight * (binValue e b - mean) * (binValue e b - mean))%Q)
            (seq 0 (statBins e)) 0%Q.

Definition getSamplingDistributionStats `{HostMath} (e : t) : distStats :=
  let '(total, mean0) := loop_total_mean e in
  let mean := if (total =? 0)%Z then 0%Q else (mean0 / inject_Z total)%Q in
  let variance :=
    if (total =? 0)%Z then 0%Q else (loop_variance e mean / inject_Z total)%Q in
  {| ds_mean := mean; ds_sd := Math_sqrt (Qmax 0 variance); ds_total := total |}.

End StatEngine.

(** ** The renderer ([StatRenderer]): layout and coordinate maps *)

Module Renderer.

(** [DEFAULT_CONFIG] merged with the constructor's [config]; [cols]
    is absent unless the caller passes it. *)
Record Config : Type := {
  padding : Q; topUnits : Q; midUnits : Q; botUnits : Q; cfg_cols : option nat
}.

Definition DEFAULT_CONFIG : Config :=
  {| padding := 16; topUnits := 30; midUnits := 24; botUnits := 36; cfg_cols := None |}.

(** [this.layout], with the size of the canvas element. *)
Record Layout : Type := {
  plotW : Q; gridW : Q; colW : Q; boxSize : Q; gridX0 : Q; marginY : Q;
  h_top : Q; h_mid : Q; h_bot : Q;
  canvas_width : Q; canvas_height : Q
}.

(** The layout set up by the constructor before [setupLayout()], for
    a canvas element of size [cw] x [ch]. *)
Definition layout0 (cw ch : Q) : Layout :=
  {| plotW := 960; gridW := 0; colW := 0; boxSize := 8; gridX0 := 0; marginY := 8;
     h_top := 300; h_mid := 240; h_bot := 360;
     canvas_width := cw; canvas_height := ch |}.

(** [this.config.cols || 60] *)
Definition colsOf (cfg : Config) : nat :=
  match cfg_cols cfg with
  | Some (S k) => S k
  | _ => 60
  end.

(** [calculateCanvasHeight()] *)
Definition calculateCanvasHeight (cfg : Config) : Q :=
  ((topUnits cfg + midUnits cfg + botUnits cfg) * 12 + 2 * padding cfg)%Q.

(** [updateLayout(plotW, canvasH)] *)
Definition updateLayout (cfg : Config) (pw canvasH : Q) (l : Layout) : Layout :=
  let innerW := Qmax 200 (pw - 2 * padding cfg) in
  let cols := inject_Z (Z.of_nat (colsOf cfg)) in
  let fromWidth := Qmax 6 (inject_Z (Qfloor (innerW / cols))) in
  let totalUnits := (topUnits cfg + midUnits cfg + botUnits cfg)%Q in
  let fromHeight := Qmax 6 (inject_Z (Qfloor ((canvasH - 2 * 16) / totalUnits))) in
  let box := Qmin fromWidth fromHeight in
  let gw := (box * cols)%Q in
  let top := (topUnits cfg * box)%Q in
  let mid := (midUnits cfg * box)%Q in
  let bot := (botUnits cfg * box)%Q in
  {| plotW := pw; gridW := gw;
     colW := inject_Z (Qfloor (innerW / cols));
     boxSize := box;
     gridX0 := inject_Z (Qfloor ((pw - gw) / 2));
     marginY := marginY l;
     h_top := top; h_mid := mid; h_bot := bot;
     canvas_width := pw;
     canvas_height := (top + mid + bot + 2 * marginY l)%Q |}.

(** [setupLayout()] *)
Definition setupLayout (cfg : Config) (l : Layout) : Layout :=
  updateLayout cfg (plotW l) (calculateCanvasHeight cfg) l.

(** [valueToX(value, domain)] *)
Definition valueToX (l : Layout) (value : Q) (domain : Q * Q) : jsnum :=
  let '(min, max) := domain in
  match js_div_clamp01 (value - min) (max - min) with
  | NaN => NaN
  | Num proportion => Num (gridX0 l + proportion * gridW l)
  end.

(** [screenToValue(screenX)] *)
Definition screenToValue (l : Layout) (screenX : Q) : jsnum :=
  js_div_clamp01 (screenX - gridX0 l) (gridW l).

End Renderer.

(** ** The application ([CLTApp]): the shared engine behind the
    control panel, without animation of particles *)

Module CLTApp.

(** [this.animationState] (its [particles] and [startTime] are never
    read) and the controls the handlers read. *)
Record t : Type := {
  engine : StatEngine.t;
  layout : Renderer.Layout;
  isRunning : bool;
  currentIteration : nat;
  totalIterations : nat;
  sampleSize : nat;               (* controls.sampleSize *)
  speed : Engine.Speed            (* controls.speed *)
}.

Definition with_engine (e : StatEngine.t) (a : t) : t :=
  {| engine := e; layout := layout a; isRunning := isRunning a;
     currentIteration := currentIteration a; totalIterations := totalIterations a;
     sampleSize := sampleSize a; speed := speed a |}.

(** [updateSampleVisualization(sampleResult)]:
    [clearSample()] and one increment of [sampleData] per column. *)
Definition updateSampleVisualization (columns : list nat) (e : StatEngine.t)
    : StatEngine.t :=
  let e1 := StatEngine.clearSample e in
  {| StatEngine.cols := StatEngine.cols e1; StatEngine.statBins := StatEngine.statBins e1;
     StatEngine.populationData := StatEngine.populationData e1;
     StatEngine.sampleData := fold_left inc16 columns (StatEngine.sampleData e1);
     StatEngine.samplingDistData := StatEngine.samplingDistData e1;
     StatEngine.currentSample := StatEngine.currentSample e1;
     StatEngine.statistic := StatEngine.statistic e1;
     StatEngine.threshold := StatEngine.threshold e1;
     StatEngine.rng := StatEngine.rng e1 |}.

(** The body shared by [drawSample()] and [animate]: draw one sample,
    show it, add its statistic to the sampling distribution. *)
Definition sampleOnce `{HostMath} (n : nat) (e : StatEngine.t) : StatEngine.t :=
  let '(values, columns, e1) := StatEngine.drawSample n e in
  let e2 := updateSampleVisualization columns e1 in
  match StatEngine.computeStatistic e2 values with
  | NaN => e2
  | Num v => StatEngine.addToSamplingDistribution (Num v) e2
  end.

(** [drawSample()] *)
Definition drawSample `{HostMath} (a : t) : t :=
  if isRunning a then a
  else with_engine (sampleOnce (sampleSize a) (engine a)) a.

(** One call of the closure [animate] of [runAnimatedSampling]; the
    flag tells whether it has armed [setTimeout(animate, 50)]. *)
Definition animate `{HostMath} (n : nat) (a : t) : t * bool :=
  if (totalIterations a <=? currentIteration a)%nat then
    ({| engine := engine a; layout := layout a; isRunning := false;
        currentIteration := currentIteration a; totalIterations := totalIterations a;
        sampleSize := sampleSize a; speed := speed a |}, false)
  else
    ({| engine := sampleOnce n (engine a); layout := layout a;
        isRunning := isRunning a;
        currentIteration := S (currentIteration a);
        totalIterations := totalIterations a;
        sampleSize := sampleSize a; speed := speed a |}, true).

(** [runAnimatedSampling(count, sampleSize)]: the state is replaced
    and [animate] is called once. *)
Definition runAnimatedSampling `{HostMath} (count n : nat) (a : t) : t * bool :=
  animate n {| engine := engine a; layout := layout a; isRunning := true;
               currentIteration := 0; totalIterations := count;
               sampleSize := sampleSize a; speed := speed a |}.

(** [runMultipleSamples(count)] *)
Definition runMultipleSamples `{HostMath} (count : nat) (a : t) : t * bool :=
  if isRunning a then (a, false)
  else
    match speed a with
    | Engine.SpFast =>
        (with_engine (StatEngine.runBulkSimulation (sampleSize a) count (engine a)) a, false)
    | Engine.SpNormal =>
        if (100 <=? count)%nat then
          (with_engine (StatEngine.runBulkSimulation (sampleSize a) count (engine a)) a,
           false)
        else runAnimatedSampling count (sampleSize a) a
    end.

(** The [k] timer callbacks that follow a call of [animate] which
    armed the timer. *)
Fixpoint animateTimers `{HostMath} (n k : nat) (a : t) : t :=
  match k with
  | O => a
  | S k' =>
      let '(a1, armed) := animate n a in
      if armed then animateTimers n k' a1 else a1
  end.

(** [reset()] *)
Definition reset (a : t) : t :=
  {| engine := StatEngine.clearAll (engine a); layout := layout a; isRunning := false;
     currentIteration := currentIteration a; totalIterations := totalIterations a;
     sampleSize := sampleSize a; speed := speed a |}.

(** [setSeed(seed)] and the [seedChange] handler. *)
Definition setSeed (seed : Z) (a : t) : t :=
  let e := engine a in
  with_engine
    (StatEngine.clearAll
       {| StatEngine.cols := StatEngine.cols e; StatEngine.statBins := StatEngine.statBins e;
          StatEngine.populationData := StatEngine.populationData e;
          StatEngine.sampleData := StatEngine.sampleData e;
          StatEngine.samplingDistData := StatEngine.samplingDistData e;
          StatEngine.currentSample := StatEngine.currentSample e;
          StatEngine.statistic := StatEngine.statistic e;
          StatEngine.threshold := StatEngine.threshold e;
          StatEngine.rng := Rng.create seed |})
    a.

(** The canvas handler [modifyPopulation(e, isAdding)] at the canvas
    position [(x, y)]; [engine.modifyPopulation(NaN, .)] stores at the
    index [NaN], which does nothing. *)
Definition canvasModify (x y : Q) (isAdding : bool) (a : t) : t :=
  match Renderer.screenToValue (layout a) x with
  | NaN =>  a
  | Num proportion =>
      if Qle_bool (Renderer.h_top (layout a) + Renderer.marginY (layout a)) y then a
      else with_engine
             (StatEngine.modifyPopulation proportion (if isAdding then 1 else -1)%Z
                                          (engine a)) a
  end.

End CLTApp.

(** ** Rendering utilities ([RenderUtils]) *)

Module RenderUtils.

(** [{ start, end }] *)
Record Segment : Type := { seg_start : Q; seg_end : Q }.

(** [segments.sort((a, b) => a.start - b.start)]: a stable sort. *)
Fixpoint insert_by_start (s : Segment) (l : list Segment) : list Segment :=
  match l with
  | [] => [s]
  | y :: l' =>
      if Qlt_le_dec (seg_start s) (seg_start y) then s :: y :: l'
      else y :: insert_by_start s l'
  end.

Definition sort_by_start (segments : list Segment) : list Segment :=
  fold_left (fun acc s => insert_by_start s acc) segments [].

(** The loop of [mergeSegments]: [merged] is [done ++ [last]]. *)
Fixpoint mergeLoop (done : list Segment) (last : Segment) (rest : list Segment)
    : list Segment :=
  match rest with
  | [] => done ++ [last]
  | current :: rest' =>
      if Qle_bool (seg_start current) (seg_end last) then
        mergeLoop done
                  {| seg_start := seg_start last;
                     seg_end := Qmax (seg_end last) (seg_end current) |}
                  rest'
      else mergeLoop (done ++ [last]) current rest'
  end.

(** [mergeSegments(segments)] *)
Definition mergeSegments (segments : list Segment) : list Segment :=
  if (length segments <=? 1)%nat then segments
  else
    match sort_by_start segments with
    | [] => []
    | first :: rest => mergeLoop [] first rest
    end.

End RenderUtils.

(** ** Runs of the component used as examples *)

Module Scenario.
Import App.

(** [k] animation frames [step] ms apart after [from], each with the
    time step [dt] (the loop caps [dt] at 0.06 s). *)
Definition ticksEvery (step dt from : Q) (k : nat) : list event :=
  map (fun i => EvTick dt (from + inject_Z (Z.of_nat i) * step)) (seq 1 k).

(** A draw of 2 at time 0, animated until everything has landed. *)
Definition firstDraw : list event :=
  [EvDraw 2 1200 0] ++ ticksEvery 60 (6 # 100) 0 33.

(** The component after the first draw and its frames. *)
Definition firstDrawn : t :=
  match @run host_digits firstDraw (init 1234) with
  | Some w => w
  | None => init 1234
  end.

(** The engine once the first draw has settled. *)
Definition settled : Engine.t := engine firstDrawn.

(** A second draw at 2000 ms: the gather starts, the timer fires
    100 ms later. *)
Definition secondDraw : list event :=
  EvDraw 2 1200 2000 :: [EvTick (6 # 100) 2060] ++ [EvTimer 0 2100].

Definition redraw : list event := firstDraw ++ secondDraw.














(** An engine showing the proportion above 0.5 whose last sample is
    [{0.5/60, 59.5/60}]: weight 1 in the first and in the last bin, a
    draw of 2 with the default seed.  The statistic is 1/2, which is
    exact in doubles too. *)
Definition twoBins : Engine.t :=
  Controls.setStatistic StProportion
    (Controls.applyGenerator ((1 :: zeros 58) ++ [1])%Z (Engine.create 60 60)).

Definition twoBinsDrawn : Engine.t := Engine.startSample 2 1200 0 twoBins.

End Scenario.

(** ** The statements of the specification, in its own words *)

Module Spec.

(** Running cumulative weight of the bins [0..c]. *)
Definition cumulative (weights : list Z) (c : nat) : Z :=
  sumZ (map (rd weights) (seq 0 (S c))).

(** Total weight of [cols] bins. *)
Definition totalWeight (cols : nat) (weights : list Z) : Z :=
  sumZ (map (rd weights) (seq 0 cols)).

(** [c] is the first bin at which the running sum reaches or
    exceeds [target]. *)
Definition first_reaching (weights : list Z) (target : Q) (c : nat) : Prop :=
  (target <= inject_Z (cumulative weights c))%Q /\
  forall j, (j < c)%nat -> ~ (target <= inject_Z (cumulative weights j))%Q.

(** Sum of a list of rationals. *)
Definition sumQ (l : list Q) : Q := fold_right Qplus 0%Q l.




(** Sample variance with denominator [n - 1]. *)
Definition sample_variance (a : list Q) : Q :=
  let n := inject_Z (Z.of_nat (length a)) in
  let m := (sumQ a / n)%Q in
  (sumQ (map (fun v => (v - m) * (v - m)) a) / (n - 1))%Q.

End Spec.

(** ** Predicates and invariants used in the statements *)

Local Open Scope Q_scope.

(** Weight of the bins [0..c-1]. *)
Definition prefix (weights : list Z) (c : nat) : Z :=
  sumZ (map (rd weights) (seq 0 c)).

(** A particle reaches its target in a tick of length [dt]. *)
Definition lands (g dt : Q) (s : Engine.Particle) : Prop :=
  Engine.inFlight (Engine.p_y (Engine.fall g dt s)) (Engine.p_targetY (Engine.fall g dt s))
  = false.








(** ** Further predicates used in the statements *)

(** Equality of two JavaScript numbers as values: two finite numbers
    are equal when they are the same rational. *)
Definition sameNumber (a b : jsnum) : Prop :=
  match a, b with
  | NaN, NaN => True
  | Num p, Num q => p == q
  | _, _ => False
  end.

(** The number of values of [a] that satisfy [p]. *)
Definition countIf (p : Q -> bool) (a : list Q) : nat := length (List.filter p a).

(** Consecutive animation frames of the engine, all of length [dt]:
    [tick(dt, now)] for each time of [times], in order. *)
Fixpoint ticks (dt : Q) (times : list Q) (e : Engine.t) : Engine.t :=
  match times with
  | [] => e
  | now :: rest => ticks dt rest (Engine.tick dt now e)
  end.


(** The three stages of a gather that started at [t0] with target
    [tgt] over the sampling distribution [bot0]: still gathering; its
    statistic particle falling, at most [D] above its row; landed. *)
Definition gatherStage (tgt : Engine.GatherTarget) (bot0 : list Z) (D : Q)
    (e : Engine.t) : Prop :=
  (Engine.gathering e = true /\ Engine.gatherTarget e = Some tgt /\
   Engine.statParticles e = [] /\ Engine.botCounts e = bot0)
  \/ (Engine.gathering e = false /\ Engine.botCounts e = bot0 /\
      exists q, Engine.statParticles e = [q] /\ 0 <= Engine.q_vy q /\
                Engine.q_targetY q - Engine.q_y q <= D /\
                Engine.q_bin q = Engine.gt_bin tgt)
  \/ (Engine.gathering e = false /\ Engine.statParticles e = [] /\
      Engine.botCounts e = Bins.inc32_at bot0 (Engine.gt_bin tgt)).

(** A state of the application: the engine and the renderer as the
    constructor of [CLTApp] builds them and the defaults of the control
    panel, with the uniform preset as population (the constructor
    installs the normal one, which goes through [Math.exp]). *)
Definition uniformApp : CLTApp.t :=
  {| CLTApp.engine :=
       StatEngine.setPopulationGenerator StatEngine.uniform
         (StatEngine.create (Some 60%nat) (Some 60%nat) (Some 1234%Z));
     CLTApp.layout := Renderer.setupLayout Renderer.DEFAULT_CONFIG (Renderer.layout0 300 150);
     CLTApp.isRunning := false; CLTApp.currentIteration := 0; CLTApp.totalIterations := 0;
     CLTApp.sampleSize := 30; CLTApp.speed := Engine.SpNormal |}.

(** An engine whose histograms have the sizes of its configuration
    and which computes one of the four statistics. *)
Definition wellSized (e : StatEngine.t) : Prop :=
  (0 < StatEngine.cols e)%nat /\
  length (StatEngine.sampleData e) = StatEngine.cols e /\
  (0 < StatEngine.statBins e)%nat /\
  StatEngine.statistic e <> StOther /\
  length (StatEngine.samplingDistData e) = StatEngine.statBins e /\
  Forall (fun z => 0 <= z)%Z (StatEngine.samplingDistData e).

(** Whether some segment of [l] contains [x]. *)
Definition covers (l : list RenderUtils.Segment) (x : Q) : bool :=
  existsb (fun s => Qle_bool (RenderUtils.seg_start s) x &&
                    Qle_bool x (RenderUtils.seg_end s)) l.

(** Whether every segment of [l] ends strictly before the next one
    starts. *)
Fixpoint separated (l : list RenderUtils.Segment) : bool :=
  match l with
  | s :: l' =>
      match l' with
      | t :: _ => negb (Qle_bool (RenderUtils.seg_start t) (RenderUtils.seg_end s))
      | [] => true
      end && separated l'
  | [] => true
  end.

(** The order [segments.sort((a, b) => a.start - b.start)] sorts by. *)
Definition le_start (a b : RenderUtils.Segment) : Prop :=
  RenderUtils.seg_start a <= RenderUtils.seg_start b.

(* ================================================================== *)
(** * Part II: properties                                              *)
(* ================================================================== *)

(** ** Sums written as loops and as sums *)

Section Sums.

Lemma fold_left_Qplus (l : list Q) (acc : Q) :
  fold_left Qplus l acc == acc + Spec.sumQ l.
Proof.
  revert acc; induction l as [|x l IH]; intros acc; simpl.
  - ring.
  - rewrite IH. ring.
Qed.

Lemma sumsq_fold (m : Q) (l : list Q) (acc : Q) :
  fold_left (fun s2 v => s2 + (v - m) * (v - m)) l acc
  == acc + Spec.sumQ (map (fun v => (v - m) * (v - m)) l).
Proof.
  revert acc; induction l as [|x l IH]; intros acc; simpl.
  - ring.
  - rewrite IH. ring.
Qed.

Lemma sumQ_sq_compat (m m' : Q) (l : list Q) :
  m == m' ->
  Spec.sumQ (map (fun v => (v - m) * (v - m)) l)
  == Spec.sumQ (map (fun v => (v - m') * (v - m')) l).
Proof.
  intros Hm; induction l as [|x l IH]; simpl.
  - reflexivity.
  - rewrite IH, Hm. reflexivity.
Qed.

Lemma sumQ_sq_nonneg (m : Q) (l : list Q) :
  0 <= Spec.sumQ (map (fun v => (v - m) * (v - m)) l).
Proof.
  induction l as [|x l IH]; simpl.
  - apply Qle_refl.
  - assert (0 <= (x - m) * (x - m)).
    { destruct (Qlt_le_dec (x - m) 0) as [Hneg|Hpos].
      - assert (E : (x - m) * (x - m) == (- (x - m)) * (- (x - m))) by ring.
        rewrite E. apply Qmult_le_0_compat; lra.
      - apply Qmult_le_0_compat; lra. }
    lra.
Qed.

End Sums.

(** ** C1: the standard-deviation statistic *)

Lemma variance_is_sample_variance (a : list Q) :
  (2 <= length a)%nat ->
  exists v, Stats.varianceUnbiased a = Num v /\ v == Spec.sample_variance a /\ 0 <= v.
Proof.
  intros Hn. unfold Stats.varianceUnbiased.
  destruct (Nat.ltb_spec (length a) 2) as [Hlt|_]; [lia|].
  unfold Stats.mean. destruct a as [|x a]; [simpl in Hn; lia|].
  set (l := x :: a) in *.
  set (n := inject_Z (Z.of_nat (length l))).
  assert (Hn1 : 0 < n - 1).
  { unfold n. rewrite <- (Qplus_opp_r 1). unfold Qminus.
    apply Qplus_lt_le_compat; [|apply Qle_refl].
    change 1 with (inject_Z 1). rewrite <- Zlt_Qlt. lia. }
  exists (Stats.sumsq (Stats.sum l / n) l / inject_Z (Z.of_nat (length l) - 1)).
  assert (Hd : inject_Z (Z.of_nat (length l) - 1) == n - 1).
  { unfold n, Zminus. rewrite inject_Z_plus, inject_Z_opp. reflexivity. }
  assert (Hs : Stats.sumsq (Stats.sum l / n) l
               == Spec.sumQ (map (fun v => (v - Spec.sumQ l / n) * (v - Spec.sumQ l / n)) l)).
  { unfold Stats.sumsq. rewrite sumsq_fold. rewrite Qplus_0_l.
    apply sumQ_sq_compat. unfold Stats.sum. rewrite fold_left_Qplus.
    rewrite Qplus_0_l. reflexivity. }
  split; [reflexivity|]. split.
  - unfold Spec.sample_variance. fold l. fold n. rewrite Hd, Hs. reflexivity.
  - rewrite Hd. unfold Stats.sumsq. rewrite sumsq_fold, Qplus_0_l.
    apply Qle_shift_div_l; [exact Hn1|]. rewrite Qmult_0_l. apply sumQ_sq_nonneg.
Qed.

(** C1 (as the code has it): on the empty list the standard-deviation
    statistic is [NaN]; on a list of exactly one value it is the number
    0 ([robustSD] turns the undefined variance into 0); on a list of
    [n >= 2] values it is the square root of the sample variance with
    denominator [n - 1]. *)
Theorem sd_statistic `{HostMath} (thr : Q) (a : list Q) :
  (length a = 0%nat -> Stats.computeStat StSd thr a = NaN) /\
  (length a = 1%nat -> Stats.computeStat StSd thr a = Num 0) /\
  ((2 <= length a)%nat ->
   exists v, v == Spec.sample_variance a /\ 0 <= v /\
             Stats.computeStat StSd thr a = Num (Math_sqrt v)).
Proof.
  split; [|split].
  - destruct a; [reflexivity|discriminate].
  - destruct a as [|x [|y a]]; try discriminate. reflexivity.
  - intros Hn. destruct (variance_is_sample_variance a Hn) as (v & Hv & Heq & Hpos).
    exists v. split; [exact Heq|]. split; [exact Hpos|].
    destruct a as [|x a]; [simpl in Hn; lia|].
    unfold Stats.computeStat, Stats.robustSD. rewrite Hv.
    apply Qle_bool_iff in Hpos. rewrite Hpos. reflexivity.
Qed.

Lemma sd_statistic_witness :
  Stats.computeStat StSd (1 # 2) [] = NaN /\
  Stats.computeStat StSd (1 # 2) [1 # 4] = Num 0 /\
  exists v, v == Spec.sample_variance [1 # 4; 3 # 4] /\ 0 <= v /\
            Stats.computeStat StSd (1 # 2) [1 # 4; 3 # 4] = Num (Math_sqrt v).
Proof.
  split; [|split].
  - apply (sd_statistic (1 # 2) []). reflexivity.
  - apply (sd_statistic (1 # 2) [1 # 4]). reflexivity.
  - apply (sd_statistic (1 # 2) [1 # 4; 3 # 4]). simpl. lia.
Defined.

(** The claim as stated fails on a one-element sample: the statistic is
    the number 0, not an undefined result. *)
Lemma sd_single_value_is_zero :
  Stats.computeStat StSd (1 # 2) [3 # 4] = Num 0 /\
  Stats.computeStat StSd (1 # 2) [3 # 4] <> NaN.
Proof. split; [reflexivity|discriminate]. Qed.

(** ** The random stream *)

Lemma to_uint32_range (z : Z) : (0 <= Rng.to_uint32 z < two32)%Z.
Proof. unfold Rng.to_uint32, two32. apply Z.mod_pos_bound. lia. Qed.

Lemma next_range (s : Rng.stream) : 0 <= fst (Rng.next s) /\ fst (Rng.next s) < 1.
Proof.
  unfold Rng.next; cbv zeta; cbn [fst].
  match goal with |- context [Rng.to_uint32 ?z # _] =>
    pose proof (to_uint32_range z) as Hr; set (out := Rng.to_uint32 z) in * end.
  unfold two32 in Hr. unfold Qle, Qlt; cbn [Qnum Qden]. clearbody out. split; lia.
Qed.

Lemma draws_S (k : nat) (s : Rng.stream) :
  Rng.draws (S k) s =
  (fst (Rng.next s) :: fst (Rng.draws k (snd (Rng.next s))),
   snd (Rng.draws k (snd (Rng.next s)))).
Proof.
  cbn [Rng.draws]. destruct (Rng.next s) as [v s1]. cbn [fst snd].
  destruct (Rng.draws k s1) as [vs s2]. reflexivity.
Qed.

Lemma draws_length (k : nat) (s : Rng.stream) : length (fst (Rng.draws k s)) = k.
Proof.
  revert s; induction k as [|k IH]; intros s; [reflexivity|].
  rewrite draws_S. cbn [fst length]. rewrite IH. reflexivity.
Qed.

Lemma draws_range (k : nat) (s : Rng.stream) :
  Forall (fun u => 0 <= u /\ u < 1) (fst (Rng.draws k s)).
Proof.
  revert s; induction k as [|k IH]; intros s; [constructor|].
  rewrite draws_S. cbn [fst]. constructor; [apply next_range|apply IH].
Qed.

(** ** Running sums of a histogram *)

Lemma sumZ_app (l1 l2 : list Z) : sumZ (l1 ++ l2) = (sumZ l1 + sumZ l2)%Z.
Proof. induction l1 as [|x l1 IH]; simpl; [reflexivity|]. rewrite IH. lia. Qed.

Lemma prefix_S (weights : list Z) (c : nat) :
  prefix weights (S c) = (prefix weights c + rd weights c)%Z.
Proof.
  unfold prefix. rewrite seq_S, map_app, sumZ_app. simpl. lia.
Qed.

Lemma cumulative_prefix (weights : list Z) (c : nat) :
  Spec.cumulative weights c = prefix weights (S c).
Proof. reflexivity. Qed.

Lemma rd_nonneg (weights : list Z) (c : nat) :
  Forall (fun w => 0 <= w)%Z weights -> (0 <= rd weights c)%Z.
Proof.
  intros Hall. unfold rd. destruct (weights !! c) as [w|] eqn:E; simpl; [|lia].
  rewrite Forall_forall in Hall. apply Hall.
  eapply list_elem_of_lookup_2; eauto.
Qed.

Lemma prefix_nonneg (weights : list Z) (c : nat) :
  Forall (fun w => 0 <= w)%Z weights -> (0 <= prefix weights c)%Z.
Proof.
  intros Hall. induction c as [|c IH]; [unfold prefix; simpl; lia|].
  rewrite prefix_S. pose proof (rd_nonneg weights c Hall). lia.
Qed.

Lemma fold_total_from (weights : list Z) (l : list nat) (acc : Z) :
  fold_left (fun total i => (total + rd weights i)%Z) l acc
  = (acc + sumZ (map (rd weights) l))%Z.
Proof.
  revert acc; induction l as [|i l IH]; intros acc; simpl; [lia|].
  rewrite IH. lia.
Qed.

Lemma totalWeight_spec (cols : nat) (weights : list Z) :
  Sampler.totalWeight cols weights = Spec.totalWeight cols weights.
Proof.
  unfold Sampler.totalWeight, Spec.totalWeight. rewrite fold_total_from. lia.
Qed.

(** ** The weighted walk *)

Lemma Qle_bool_false (x y : Q) : Qle_bool x y = false <-> ~ x <= y.
Proof.
  rewrite <- Qle_bool_iff. destruct (Qle_bool x y); split; intros; congruence.
Qed.

Lemma walk_spec (weights : list Z) (target : Q) (fuel c chosen : nat) :
  let r := Sampler.walk weights target (prefix weights c) c fuel chosen in
  ((c <= r < c + fuel)%nat /\ target <= inject_Z (prefix weights (S r)) /\
   forall j, (c <= j < r)%nat -> ~ target <= inject_Z (prefix weights (S j)))
  \/ (r = chosen /\
      forall j, (c <= j < c + fuel)%nat -> ~ target <= inject_Z (prefix weights (S j))).
Proof.
  revert c; induction fuel as [|fuel IH]; intros c; simpl.
  - right. split; [reflexivity|]. intros j Hj. lia.
  - rewrite <- prefix_S.
    destruct (Qle_bool target (inject_Z (prefix weights (S c)))) eqn:E.
    + left. apply Qle_bool_iff in E. split; [lia|]. split; [exact E|].
      intros j Hj. lia.
    + apply Qle_bool_false in E.
      destruct (IH (S c)) as [(Hr & Ht & Hfirst)|(Hr & Hnone)].
      * left. split; [lia|]. split; [exact Ht|].
        intros j Hj. destruct (Nat.eq_dec j c) as [->|Hne]; [exact E|].
        apply Hfirst. lia.
      * right. split; [exact Hr|]. intros j Hj.
        destruct (Nat.eq_dec j c) as [->|Hne]; [exact E|]. apply Hnone. lia.
Qed.

Lemma walk_in_range (weights : list Z) (target : Q) (acc : Z) (fuel c chosen : nat) :
  (chosen < c + fuel)%nat -> (0 < fuel)%nat ->
  (Sampler.walk weights target acc c fuel chosen < c + fuel)%nat.
Proof.
  revert acc c; induction fuel as [|fuel IH]; intros acc c Hch Hf; [lia|]. simpl.
  destruct (Qle_bool target (inject_Z (acc + rd weights c))); [lia|].
  destruct fuel as [|fuel']; [simpl; lia|].
  specialize (IH (acc + rd weights c)%Z (S c)). lia.
Qed.

Lemma uniform_in_range (cols : nat) (u : Q) :
  (0 < cols)%nat -> 0 <= u -> u < 1 ->
  (Z.to_nat (Qfloor (u * inject_Z (Z.of_nat cols))) < cols)%nat.
Proof.
  intros Hc H0 H1.
  assert (Hc' : 0 < inject_Z (Z.of_nat cols)).
  { change 0 with (inject_Z 0). rewrite <- Zlt_Qlt. lia. }
  assert (Hlt : u * inject_Z (Z.of_nat cols) < inject_Z (Z.of_nat cols)).
  { rewrite <- (Qmult_1_l (inject_Z (Z.of_nat cols))) at 2.
    apply Qmult_lt_compat_r; assumption. }
  assert (Hge : 0 <= u * inject_Z (Z.of_nat cols)).
  { apply Qmult_le_0_compat; [assumption|apply Qlt_le_weak; assumption]. }
  pose proof (Qfloor_le (u * inject_Z (Z.of_nat cols))) as Hfl.
  assert (Hf0 : (0 <= Qfloor (u * inject_Z (Z.of_nat cols)))%Z).
  { change 0%Z with (Qfloor (inject_Z 0)) at 1. rewrite Qfloor_Z.
    rewrite <- (Qfloor_Z 0). apply Qfloor_resp_le. exact Hge. }
  assert (Hf1 : (Qfloor (u * inject_Z (Z.of_nat cols)) < Z.of_nat cols)%Z).
  { rewrite Zlt_Qlt. eapply Qle_lt_trans; [exact Hfl|exact Hlt]. }
  lia.
Qed.

Lemma pick_in_range (cols : nat) (weights : list Z) (total : Z) (u : Q) :
  (0 < cols)%nat -> 0 <= u -> u < 1 ->
  (Sampler.pick cols weights total u < cols)%nat.
Proof.
  intros Hc H0 H1. unfold Sampler.pick.
  destruct (total =? 0)%Z.
  - apply uniform_in_range; assumption.
  - change cols with (0 + cols)%nat at 2. apply walk_in_range; [|lia].
    rewrite Nat.shiftr_div_pow2. change (2 ^ 1)%nat with 2%nat.
    apply Nat.div_lt; lia.
Qed.

Lemma pick_first_reaching (cols : nat) (weights : list Z) (u : Q) :
  Forall (fun w => 0 <= w)%Z weights ->
  Spec.totalWeight cols weights <> 0%Z -> 0 <= u -> u < 1 ->
  let c := Sampler.pick cols weights (Spec.totalWeight cols weights) u in
  Spec.first_reaching weights (u * inject_Z (Spec.totalWeight cols weights)) c
  /\ (c < cols)%nat.
Proof.
  intros Hall Hne H0 H1. cbv zeta. unfold Sampler.pick.
  destruct (Z.eqb_spec (Spec.totalWeight cols weights) 0) as [E|_]; [contradiction|].
  set (total := Spec.totalWeight cols weights) in *.
  assert (Hpos : (0 < total)%Z).
  { pose proof (prefix_nonneg weights cols Hall). unfold total, Spec.totalWeight in *.
    unfold prefix in *. lia. }
  assert (Hcols : (0 < cols)%nat).
  { destruct cols; [|lia]. unfold total, Spec.totalWeight in Hpos. simpl in Hpos. lia. }
  assert (Htgt : u * inject_Z total <= inject_Z total).
  { rewrite <- (Qmult_1_l (inject_Z total)) at 2.
    apply Qmult_le_compat_r; [apply Qlt_le_weak; assumption|].
    change 0 with (inject_Z 0). rewrite <- Zle_Qle. lia. }
  pose proof (walk_spec weights (u * inject_Z total) cols 0 (Nat.shiftr cols 1)) as Hw.
  cbv zeta in Hw. change (prefix weights 0) with 0%Z in Hw.
  destruct Hw as [(Hr & Ht & Hfirst)|(_ & Hnone)].
  - split; [|lia]. split; [rewrite cumulative_prefix; exact Ht|].
    intros j Hj. rewrite cumulative_prefix. apply Hfirst. lia.
  - exfalso. apply (Hnone (cols - 1)%nat); [lia|].
    replace (S (cols - 1)) with cols by lia. exact Htgt.
Qed.

(** ** C5, C10: the sampler *)

Lemma loop_spec (cols : nat) (weights : list Z) (total : Z) (n : nat) (rng : Rng.stream) :
  Sampler.loop cols weights total n rng =
  (map (Pop.center cols) (map (Sampler.pick cols weights total) (fst (Rng.draws n rng))),
   map (Sampler.pick cols weights total) (fst (Rng.draws n rng)),
   snd (Rng.draws n rng)).
Proof.
  revert rng; induction n as [|n IH]; intros rng; [reflexivity|].
  rewrite draws_S. cbn [Sampler.loop fst snd map].
  destruct (Rng.next rng) as [u rng1]. cbn [fst snd].
  rewrite IH. reflexivity.
Qed.



Lemma sampleN_columns_lt (cols : nat) (weights : list Z) (n : nat) (rng : Rng.stream) :
  (0 < cols)%nat ->
  Forall (fun c => (c < cols)%nat) (snd (fst (Sampler.sampleN cols weights n rng))).
Proof.
  intros Hc. unfold Sampler.sampleN. rewrite loop_spec. cbn [fst snd].
  apply Forall_fmap. eapply Forall_impl; [apply draws_range|].
  intros u [H0 H1]. cbn. apply pick_in_range; assumption.
Qed.

(** C10: every column the sampler returns lies in [0, C-1], whatever
    the population (all-zero included, and whether or not the weighted
    walk falls through to the middle column), so a histogram of [C] bins
    indexed by a sampled column is accessed in bounds. *)
Theorem sampled_columns_in_bounds (cols : nat) (weights : list Z) (n : nat)
    (rng : Rng.stream) :
  (0 < cols)%nat ->
  let cs := snd (fst (Sampler.sampleN cols weights n rng)) in
  Forall (fun c => (c < cols)%nat) cs /\
  forall arr : list Z, length arr = cols -> Forall (fun c => is_Some (arr !! c)) cs.
Proof.
  intros Hc cs.
  assert (Hcs : Forall (fun c => (c < cols)%nat) cs)
    by (apply sampleN_columns_lt; exact Hc).
  split; [exact Hcs|].
  intros arr Hlen. eapply Forall_impl; [exact Hcs|].
  intros c Hlt. cbn in Hlt. apply lookup_lt_is_Some. lia.
Qed.

Lemma sampled_columns_in_bounds_witness :
  Forall (fun c => (c < 60)%nat)
         (snd (fst (Sampler.sampleN 60 (zeros 60) 5 (Rng.create 1234)))).
Proof.
  apply (sampled_columns_in_bounds 60 (zeros 60) 5 (Rng.create 1234)). lia.
Defined.

(** ** C9: the population summary *)

Lemma sumZ_cons (x : Z) (l : list Z) : sumZ (x :: l) = (x + sumZ l)%Z.
Proof. reflexivity. Qed.

Lemma sumQ_cons (x : Q) (l : list Q) : Spec.sumQ (x :: l) = x + Spec.sumQ l.
Proof. reflexivity. Qed.

Lemma loop_total_mu_from (cols : nat) (pc : list Z) (l : list nat) (t0 : Z) (m0 : Q) :
  let r := fold_left (fun '(total, mu) c =>
                        let x := Pop.center cols c in
                        let w := rd pc c in
                        ((total + w)%Z, mu + inject_Z w * x))
                     l (t0, m0) in
  fst r = (t0 + sumZ (map (rd pc) l))%Z /\
  snd r == m0 + Spec.sumQ (map (fun c => inject_Z (rd pc c) * Pop.center cols c) l).
Proof.
  revert t0 m0; induction l as [|c l IH]; intros t0 m0; cbn [fold_left map].
  - split; [cbn; lia|cbn; ring].
  - cbv zeta in IH |- *.
    destruct (IH (t0 + rd pc c)%Z (m0 + inject_Z (rd pc c) * Pop.center cols c)) as [H1 H2].
    split.
    + rewrite H1, sumZ_cons. lia.
    + rewrite H2, sumQ_cons. ring.
Qed.



Lemma loop_med_spec (cols : nat) (pc : list Z) (half : Q) (fuel c : nat) (medv : Q) :
  let r := Pop.loop_med cols pc half (prefix pc c) c fuel medv in
  (exists k, (c <= k < c + fuel)%nat /\ r = Pop.center cols k /\
             half <= inject_Z (prefix pc (S k)) /\
             forall j, (c <= j < k)%nat -> ~ half <= inject_Z (prefix pc (S j)))
  \/ (r = medv /\
      forall j, (c <= j < c + fuel)%nat -> ~ half <= inject_Z (prefix pc (S j))).
Proof.
  revert c; induction fuel as [|fuel IH]; intros c; cbn [Pop.loop_med]; cbv zeta.
  - right. split; [reflexivity|]. intros j Hj. lia.
  - rewrite <- prefix_S.
    destruct (Qle_bool half (inject_Z (prefix pc (S c)))) eqn:E.
    + left. exists c. apply Qle_bool_iff in E.
      split; [lia|]. split; [reflexivity|]. split; [exact E|]. intros j Hj. lia.
    + apply Qle_bool_false in E.
      destruct (IH (S c)) as [(k & Hk & Hr & Ht & Hfirst)|(Hr & Hnone)].
      * left. exists k. split; [lia|]. split; [exact Hr|]. split; [exact Ht|].
        intros j Hj. destruct (Nat.eq_dec j c) as [->|Hne]; [exact E|].
        apply Hfirst. lia.
      * right. split; [exact Hr|]. intros j Hj.
        destruct (Nat.eq_dec j c) as [->|Hne]; [exact E|]. apply Hnone. lia.
Qed.




(** ** C6: determinism *)

Lemma create_uint32 (s1 s2 : Z) :
  Rng.to_uint32 s1 = Rng.to_uint32 s2 -> Rng.create s1 = Rng.create s2.
Proof. intros E. unfold Rng.create. rewrite E. reflexivity. Qed.

Lemma steps_run `{HostMath} (w : App.t) (evs : list App.event) (w' : App.t) :
  App.steps w evs w' <-> App.run evs w = Some w'.
Proof.
  split.
  - induction 1 as [w|w ev w1 evs w2 Hex _ IH]; cbn [App.run]; [reflexivity|].
    rewrite Hex. exact IH.
  - revert w; induction evs as [|ev evs IH]; intros w; cbn [App.run].
    + intros [= <-]. constructor.
    + destruct (App.exec ev w) as [w1|] eqn:E; [|discriminate].
      intros Hr. econstructor; [exact E|]. apply IH. exact Hr.
Qed.

Lemma steps_functional `{HostMath} (w : App.t) (evs : list App.event) (w1 w2 : App.t) :
  App.steps w evs w1 -> App.steps w evs w2 -> w1 = w2.
Proof.
  intros H1; revert w2.
  induction H1 as [w|w ev wa evs wb Hex _ IH]; intros w2 H2.
  - inversion H2; subst. reflexivity.
  - inversion H2 as [|? ? wa' ? ? Hex' Hrest]; subst.
    rewrite Hex in Hex'. injection Hex' as <-. apply IH. exact Hrest.
Qed.

(** C6: two streams created with the same seed produce the same values,
    and two components seeded with the same seed that go through the
    same sequence of events end with the same population, sample-tray
    and sampling-distribution histograms. *)
Theorem same_seed_same_run `{HostMath} (s : Z) (r1 r2 : Rng.stream)
    (evs : list App.event) (w1 w2 : App.t) :
  r1 = Rng.create s -> r2 = Rng.create s ->
  App.steps (App.init s) evs w1 -> App.steps (App.init s) evs w2 ->
  (forall k, fst (Rng.draws k r1) = fst (Rng.draws k r2)) /\
  App.histograms w1 = App.histograms w2.
Proof.
  intros -> -> H1 H2. split; [reflexivity|].
  rewrite (steps_functional _ _ _ _ H1 H2). reflexivity.
Qed.

Lemma same_seed_same_run_witness :
  fst (Rng.draws 3 (Rng.create 1234)) = fst (Rng.draws 3 (Rng.create 1234)) /\
  App.histograms Scenario.firstDrawn = App.histograms Scenario.firstDrawn.
Proof.
  assert (Hrun : App.steps (App.init 1234) Scenario.firstDraw Scenario.firstDrawn).
  { apply steps_run. vm_compute. reflexivity. }
  destruct (@same_seed_same_run host_digits 1234 (Rng.create 1234) (Rng.create 1234)
              Scenario.firstDraw Scenario.firstDrawn Scenario.firstDrawn
              eq_refl eq_refl Hrun Hrun) as [Hd Hh].
  split; [apply (Hd 3%nat)|exact Hh].
Defined.

(** ** C4: the bin of a statistic value *)

Lemma clamp01_below (x : Q) : x <= 0 -> clamp x 0 1 == 0.
Proof.
  intros Hx. unfold clamp.
  destruct (Q.min_spec 1 x) as [[Hlt E]|[_ E]]; rewrite E.
  - exfalso. lra.
  - apply Q.max_l. exact Hx.
Qed.

Lemma clamp01_above (x : Q) : 1 <= x -> clamp x 0 1 == 1.
Proof.
  intros Hx. unfold clamp. rewrite (Q.min_l 1 x Hx). apply Q.max_r. lra.
Qed.

Lemma clamp01_inside (x : Q) : 0 <= x -> x <= 1 -> clamp x 0 1 == x.
Proof.
  intros H0 H1. unfold clamp. rewrite (Q.min_r 1 x H1). apply Q.max_r. exact H0.
Qed.

Lemma Qfloor_nonpos (x : Q) : x <= 0 -> (Qfloor x <= 0)%Z.
Proof. intros Hx. rewrite <- (Qfloor_Z 0). apply Qfloor_resp_le. exact Hx. Qed.

Lemma Qfloor_ge (x : Q) (z : Z) : inject_Z z <= x -> (z <= Qfloor x)%Z.
Proof. intros Hx. rewrite <- (Qfloor_Z z). apply Qfloor_resp_le. exact Hx. Qed.

Lemma clamp_then_floor (x : Q) (B : nat) :
  clampZ (Qfloor (clamp x 0 1 * inject_Z (Z.of_nat B))) 0 (Z.of_nat B - 1)
  = clampZ (Qfloor (x * inject_Z (Z.of_nat B))) 0 (Z.of_nat B - 1).
Proof.
  set (b := inject_Z (Z.of_nat B)).
  assert (Hb : 0 <= b) by (unfold b; change 0 with (inject_Z 0); rewrite <- Zle_Qle; lia).
  unfold clampZ.
  destruct (Qlt_le_dec x 0) as [Hneg|Hpos].
  - rewrite (Qfloor_comp _ _ (Qmult_comp _ _ (clamp01_below x (Qlt_le_weak _ _ Hneg)) _ _ (Qeq_refl b))).
    rewrite (Qfloor_comp (0 * b) 0 (Qmult_0_l b)).
    change (Qfloor 0) with 0%Z.
    assert (Hf : (Qfloor (x * b) <= 0)%Z).
    { apply Qfloor_nonpos.
      assert (Hm : x * b <= 0 * b) by (apply Qmult_le_compat_r; lra).
      rewrite Qmult_0_l in Hm. exact Hm. }
    lia.
  - destruct (Qlt_le_dec 1 x) as [Hbig|Hsmall].
    + rewrite (Qfloor_comp _ _ (Qmult_comp _ _ (clamp01_above x (Qlt_le_weak _ _ Hbig)) _ _ (Qeq_refl b))).
      rewrite (Qfloor_comp (1 * b) b (Qmult_1_l b)).
      unfold b at 1. rewrite Qfloor_Z.
      assert (Hf : (Z.of_nat B <= Qfloor (x * b))%Z).
      { apply Qfloor_ge. fold b.
        assert (Hm : 1 * b <= x * b) by (apply Qmult_le_compat_r; lra).
        rewrite Qmult_1_l in Hm. exact Hm. }
      lia.
    + rewrite (Qfloor_comp _ _ (Qmult_comp _ _ (clamp01_inside x Hpos Hsmall) _ _ (Qeq_refl b))).
      reflexivity.
Qed.

(** *** The rounded product of [addToSamplingDistribution] *)

Lemma roundEven_ge (q : Q) (z : Z) : inject_Z z <= q -> (z <= roundEven q)%Z.
Proof.
  intros Hz. pose proof (Qfloor_ge q z Hz) as Hf. unfold roundEven.
  destruct (q - inject_Z (Qfloor q) ?= 1 # 2); [destruct (Z.even (Qfloor q))| |]; lia.
Qed.

Lemma roundEven_le (q : Q) (z : Z) : q <= inject_Z z -> (roundEven q <= z)%Z.
Proof.
  intros Hz. pose proof (Qfloor_le q) as Hf.
  assert (Hfz : (Qfloor q <= z)%Z) by (rewrite Zle_Qle; lra).
  assert (Hup : 0 < q - inject_Z (Qfloor q) -> (Qfloor q + 1 <= z)%Z).
  { intros Hr. assert (Hlt : inject_Z (Qfloor q) < inject_Z z) by lra.
    rewrite <- Zlt_Qlt in Hlt. lia. }
  unfold roundEven.
  destruct (q - inject_Z (Qfloor q) ?= 1 # 2) eqn:E.
  - apply Qeq_alt in E. destruct (Z.even (Qfloor q)); [exact Hfz|]. apply Hup. lra.
  - exact Hfz.
  - apply Qgt_alt in E. apply Hup. lra.
Qed.

Lemma ilog2_le_52 (y : Q) : 0 < y -> y < inject_Z (2 ^ 53) -> (ilog2 y <= 52)%Z.
Proof.
  intros Hpos Hlt. destruct y as [n d]. unfold ilog2. cbn [Qnum Qden].
  assert (Hn : (0 < n)%Z) by (unfold Qlt in Hpos; cbn in Hpos; lia).
  rewrite (Z.abs_eq n) by lia.
  assert (Hnd : (n < 2 ^ 53 * Zpos d)%Z) by (unfold Qlt in Hlt; cbn in Hlt; lia).
  assert (He0 : (Z.log2 n - Z.log2 (Zpos d) <= 53)%Z).
  { assert (Hl : (Z.log2 n <= Z.log2 (Zpos d * 2 ^ 53))%Z) by (apply Z.log2_le_mono; lia).
    rewrite Z.log2_mul_pow2 in Hl by lia. lia. }
  destruct (Qle_bool (2 ^ (Z.log2 n - Z.log2 (Zpos d))) (n # d)) eqn:E; [|lia].
  destruct (Z.eq_dec (Z.log2 n - Z.log2 (Zpos d))%Z 53%Z) as [E53|]; [|lia].
  exfalso. rewrite E53 in E. apply Qle_bool_iff in E.
  change (2 ^ 53)%Q with (inject_Z (2 ^ 53)) in E. lra.
Qed.

(** Below [2^53] rounding to a double never crosses a whole number. *)
Lemma fl64_between_integers (y : Q) :
  0 <= y -> y < inject_Z (2 ^ 53) ->
  inject_Z (Qfloor y) <= fl64 y /\ fl64 y <= inject_Z (Qfloor y) + 1.
Proof.
  intros H0 Hlt. unfold fl64.
  destruct (Qeq_bool y 0) eqn:Ez.
  - apply Qeq_bool_iff in Ez. rewrite (Qfloor_comp y 0 Ez).
    change (Qfloor 0) with 0%Z. change (inject_Z 0) with 0. split; lra.
  - assert (Hy : 0 < y).
    { apply Qeq_bool_neq in Ez. destruct (Qlt_le_dec 0 y); [assumption|]. exfalso. apply Ez. lra. }
    cbv zeta. set (e := Z.max (ilog2 y) (-1022)).
    assert (He : (e <= 52)%Z) by (pose proof (ilog2_le_52 y Hy Hlt); unfold e; lia).
    set (M := (2 ^ (52 - e))%Z).
    assert (HM : (0 < M)%Z) by (unfold M; apply Z.pow_pos_nonneg; lia).
    assert (Eu : (2 ^ (e - 52))%Q == / inject_Z M).
    { replace (e - 52)%Z with (- (52 - e))%Z by lia. rewrite Qpower_opp.
      unfold M. rewrite Zpower_Qpower by lia. reflexivity. }
    assert (HMq : 0 < inject_Z M) by (change 0 with (inject_Z 0); rewrite <- Zlt_Qlt; lia).
    set (u := (2 ^ (e - 52))%Q) in *.
    assert (Hu : 0 < u) by (rewrite Eu; apply Qinv_lt_0_compat; exact HMq).
    assert (EuM : u * inject_Z M == 1) by (rewrite Eu; field; lra).
    pose proof (Qfloor_le y) as Hf1. pose proof (Qlt_floor y) as Hf2.
    set (n := Qfloor y) in *.
    assert (Hdiv : y / u == y * inject_Z M) by (rewrite Eu; field; lra).
    assert (Hlo : inject_Z (n * M) <= y / u).
    { rewrite Hdiv, inject_Z_mult. apply Qmult_le_compat_r; lra. }
    assert (Hhi : y / u <= inject_Z ((n + 1) * M)).
    { rewrite Hdiv, inject_Z_mult, inject_Z_plus. apply Qmult_le_compat_r; [|lra].
      rewrite inject_Z_plus in Hf2. lra. }
    apply roundEven_ge in Hlo. apply roundEven_le in Hhi.
    set (r := roundEven (y / u)) in *.
    rewrite Zle_Qle, inject_Z_mult in Hlo. rewrite Zle_Qle, inject_Z_mult, inject_Z_plus in Hhi.
    change (inject_Z 1) with 1 in Hhi.
    assert (A : inject_Z n * inject_Z M * u <= inject_Z r * u)
      by (apply Qmult_le_compat_r; lra).
    assert (B : inject_Z r * u <= (inject_Z n + 1) * inject_Z M * u)
      by (apply Qmult_le_compat_r; lra).
    assert (E1 : inject_Z n * inject_Z M * u == inject_Z n)
      by (rewrite <- Qmult_assoc, (Qmult_comm (inject_Z M)), EuM; ring).
    assert (E2 : (inject_Z n + 1) * inject_Z M * u == inject_Z n + 1)
      by (rewrite <- Qmult_assoc, (Qmult_comm (inject_Z M)), EuM; ring).
    rewrite E1 in A. rewrite E2 in B. split; assumption.
Qed.

Lemma Qfloor_between (x : Q) (n : Z) :
  inject_Z n <= x -> x <= inject_Z n + 1 -> (n <= Qfloor x <= n + 1)%Z.
Proof.
  intros Hlo Hhi. split; [apply Qfloor_ge; exact Hlo|].
  rewrite <- (Qfloor_Z (n + 1)). apply Qfloor_resp_le. rewrite inject_Z_plus. exact Hhi.
Qed.

Lemma spec_bin_range (B : nat) (dom : Q * Q) (v : Q) :
  (0 < B)%nat -> (0 <= Bins.spec_bin B dom v <= Z.of_nat B - 1)%Z.
Proof. intros HB. unfold Bins.spec_bin, clampZ. destruct dom. lia. Qed.

Lemma clamp01_range (x : Q) : 0 <= clamp x 0 1 /\ clamp x 0 1 <= 1.
Proof.
  destruct (Qlt_le_dec x 0) as [Hneg|Hpos].
  - rewrite (clamp01_below x (Qlt_le_weak _ _ Hneg)). lra.
  - destruct (Qlt_le_dec 1 x) as [Hbig|Hsmall].
    + rewrite (clamp01_above x (Qlt_le_weak _ _ Hbig)). lra.
    + rewrite (clamp01_inside x Hpos Hsmall). lra.
Qed.

Lemma Qfloor_within_one (p q : Q) :
  p <= q -> q <= p + 1 -> (Qfloor p <= Qfloor q <= Qfloor p + 1)%Z.
Proof.
  intros H1 H2. split; [apply Qfloor_resp_le; exact H1|].
  pose proof (Qfloor_le q) as Hq. pose proof (Qlt_floor p) as Hp.
  assert (Hlt : inject_Z (Qfloor q) < inject_Z (Qfloor p + 1 + 1)).
  { rewrite (inject_Z_plus (Qfloor p + 1) 1). change (inject_Z 1) with 1. lra. }
  rewrite <- Zlt_Qlt in Hlt. lia.
Qed.

(** With the extra [1e-9] in the denominator the scaled position is at
    most one bin width below the exact one, as long as [B * 1e-9] does
    not exceed the width of the domain. *)
Lemma eps_position_close (B : nat) (r v : Q) :
  0 < r -> inject_Z (Z.of_nat B) * Bins.eps9 <= r ->
  let b := inject_Z (Z.of_nat B) in
  clamp (v / (r + Bins.eps9)) 0 1 * b <= clamp (v / r) 0 1 * b /\
  clamp (v / r) 0 1 * b <= clamp (v / (r + Bins.eps9)) 0 1 * b + 1.
Proof.
  intros Hr HB b. fold b in HB.
  assert (Hb : 0 <= b) by (unfold b; change 0 with (inject_Z 0); rewrite <- Zle_Qle; lia).
  assert (He : 0 < Bins.eps9) by reflexivity.
  set (eps := Bins.eps9) in *.
  assert (Hd : 0 < r + eps) by lra.
  set (x := v / r). set (xe := v / (r + eps)).
  assert (Ex : x * r == v) by (unfold x; field; lra).
  assert (Exe : xe * (r + eps) == v) by (unfold xe; field; lra).
  destruct (Qlt_le_dec 0 v) as [Hv|Hv].
  - assert (Hxe0 : 0 < xe) by (unfold xe; apply Qlt_shift_div_l; lra).
    assert (Hx0 : 0 < x) by (unfold x; apply Qlt_shift_div_l; lra).
    assert (Hle : xe <= x).
    { unfold xe, x. apply Qle_shift_div_r; [exact Hd|].
      assert (E : v / r * (r + eps) == v + v * eps / r) by (field; lra).
      rewrite E. assert (0 <= v * eps / r).
      { apply Qle_shift_div_l; [exact Hr|]. rewrite Qmult_0_l.
        apply Qmult_le_0_compat; lra. }
      lra. }
    destruct (Qlt_le_dec xe 1) as [Hlt1|Hge1].
    + rewrite (clamp01_inside xe (Qlt_le_weak _ _ Hxe0) (Qlt_le_weak _ _ Hlt1)).
      assert (Hcx : xe <= clamp x 0 1 /\ clamp x 0 1 <= x).
      { destruct (Qlt_le_dec 1 x) as [Hbig|Hsmall].
        - rewrite (clamp01_above x (Qlt_le_weak _ _ Hbig)). lra.
        - rewrite (clamp01_inside x (Qlt_le_weak _ _ Hx0) Hsmall). lra. }
      destruct Hcx as [Hc1 Hc2]. split.
      * apply Qmult_le_compat_r; assumption.
      * assert (Hxb : clamp x 0 1 * b <= x * b) by (apply Qmult_le_compat_r; assumption).
        assert (Hgap : (x - xe) * b <= xe).
        { assert (E1 : (x - xe) * r == xe * eps).
          { assert (E2 : x * r == xe * (r + eps)) by (rewrite Ex, Exe; reflexivity).
            lra. }
          assert (E3 : (x - xe) * b == xe * (b * eps) / r).
          { assert (E4 : (x - xe) == xe * eps / r).
            { rewrite <- E1. field. lra. }
            rewrite E4. field. lra. }
          rewrite E3. apply Qle_shift_div_r; [exact Hr|].
          apply Qmult_le_l; [exact Hxe0|]. exact HB. }
        lra.
    + assert (Hx1 : 1 <= x) by lra.
      rewrite (clamp01_above xe Hge1), (clamp01_above x Hx1). lra.
  - assert (Hxe0 : xe <= 0).
    { unfold xe. apply Qle_shift_div_r; [exact Hd|]. lra. }
    assert (Hx0 : x <= 0).
    { unfold x. apply Qle_shift_div_r; [exact Hr|]. lra. }
    rewrite (clamp01_below xe Hxe0), (clamp01_below x Hx0). lra.
Qed.

(** The bin the gather and turbo paths resolve is the bin of the
    formula or the one below it. *)
Lemma binOf_eps_close (B : nat) (st : Statistic) (v : Q) :
  (Z.of_nat B <= 500000000)%Z ->
  exists b, Bins.binOf B Bins.eps9 (Stats.statDomain st) (Num v) = Some b /\
    (Bins.spec_bin B (Stats.statDomain st) v - 1 <= Z.of_nat b
     <= Bins.spec_bin B (Stats.statDomain st) v)%Z.
Proof.
  intros HB.
  assert (Hdom : exists r, Stats.statDomain st = (0, r) /\ 0 < r
                           /\ inject_Z (Z.of_nat B) * Bins.eps9 <= r).
  { assert (Hq : inject_Z (Z.of_nat B) * Bins.eps9 <= 1 # 2).
    { unfold Bins.eps9, Qle, Qmult, inject_Z; cbn [Qnum Qden]. lia. }
    destruct st; cbn [Stats.statDomain];
      eexists; (split; [reflexivity|]); split; try reflexivity; lra. }
  destruct Hdom as (r & -> & Hr & HBr).
  eexists. split; [reflexivity|]. cbv zeta.
  assert (E : Bins.spec_bin B (0, r) v
              = clampZ (Qfloor (clamp (v / r) 0 1 * inject_Z (Z.of_nat B))) 0 (Z.of_nat B - 1)).
  { unfold Bins.spec_bin. rewrite clamp_then_floor. f_equal.
    apply Qfloor_comp. assert (E' : (v - 0) / (r - 0) == v / r) by (field; lra).
    rewrite E'. reflexivity. }
  rewrite E.
  assert (E2 : Qfloor (clamp ((v - 0) / (r - 0 + Bins.eps9)) 0 1 * inject_Z (Z.of_nat B))
               = Qfloor (clamp (v / (r + Bins.eps9)) 0 1 * inject_Z (Z.of_nat B))).
  { apply Qfloor_comp.
    assert (E' : (v - 0) / (r - 0 + Bins.eps9) == v / (r + Bins.eps9)).
    { assert (0 < Bins.eps9) by reflexivity. field. lra. }
    unfold clamp. rewrite E'. reflexivity. }
  rewrite E2.
  destruct (eps_position_close B r v Hr HBr) as [H1 H2].
  pose proof (Qfloor_within_one _ _ H1 H2) as Hf.
  assert (H0 : (0 <= Qfloor (clamp (v / (r + Bins.eps9)) 0 1 * inject_Z (Z.of_nat B)))%Z).
  { apply Qfloor_ge. apply Qmult_le_0_compat; [apply clamp01_range|].
    change 0 with (inject_Z 0). rewrite <- Zle_Qle. lia. }
  unfold clampZ in *. lia.
Qed.

Lemma calculateWithGather_occupied `{HostMath} (now : Q) (e : Engine.t) :
  App.trayOccupied e = true ->
  let lgs := if negb (length (Engine.lastSample e) =? 0)%nat then Engine.lastSample e
             else Engine.expandTray (Engine.COLS e) (Engine.midCounts e) in
  let bin := Bins.binOf (Engine.STAT_BINS e) Bins.eps9 (Engine.statDomain e)
                        (Engine.computeStat e lgs) in
  let e' := Engine.calculateWithGather now e in
  Engine.midCounts e' = zeros (Engine.COLS e) /\
  Engine.gatherParticles e' = Engine.snapshotTray e /\
  Engine.gathering e' = true /\
  Engine.gatherStart e' = now /\
  Engine.lastSample e' = [] /\
  Engine.lastGatheringSample e' = Some lgs /\
  (exists tgt, Engine.gatherTarget e' = Some tgt /\ Engine.gt_bin tgt = bin) /\
  Engine.emissionPlan e' = Engine.emissionPlan e /\
  Engine.sampleParticles e' = Engine.sampleParticles e /\
  Engine.statParticles e' = Engine.statParticles e /\
  Engine.botCounts e' = Engine.botCounts e /\
  Engine.gatherDur e' = Engine.gatherDur e.
Proof.
  intros Hocc. unfold App.trayOccupied in Hocc. cbv zeta.
  unfold Engine.calculateWithGather.
  destruct ((length (Engine.lastSample e) =? 0)%nat) eqn:El;
    destruct (Engine.hasSampleInMid e) eqn:Em; cbn [negb andb orb] in *;
    try discriminate; cbn;
    repeat (split; [reflexivity|]); try reflexivity;
    (split; [eexists; split; reflexivity|]); repeat (split; [reflexivity|]); reflexivity.
Qed.

(** The bin of [addToSamplingDistribution] is the bin of the formula
    or the next one; it is always inside the table. *)
Lemma binFor_close (e : StatEngine.t) (v : Q) :
  (Z.of_nat (StatEngine.statBins e) <= 500000000)%Z ->
  exists b, StatEngine.binFor e (Num v) = Some b /\
    (Bins.spec_bin (StatEngine.statBins e) (StatEngine.getStatisticDomain e) v <= Z.of_nat b
     <= Bins.spec_bin (StatEngine.statBins e) (StatEngine.getStatisticDomain e) v + 1)%Z.
Proof.
  intros HB. unfold StatEngine.binFor, Bins.spec_bin.
  destruct (StatEngine.getStatisticDomain e) as [mn mx].
  eexists. split; [reflexivity|].
  rewrite <- clamp_then_floor.
  set (B := StatEngine.statBins e) in *.
  set (x := clamp ((v - mn) / (mx - mn)) 0 1).
  destruct (clamp01_range ((v - mn) / (mx - mn))) as [X0 X1]. fold x in X0, X1.
  assert (Hb : 0 <= inject_Z (Z.of_nat B))
    by (change 0 with (inject_Z 0); rewrite <- Zle_Qle; lia).
  assert (Hy0 : 0 <= x * inject_Z (Z.of_nat B)) by (apply Qmult_le_0_compat; assumption).
  assert (Hy1 : x * inject_Z (Z.of_nat B) <= inject_Z (Z.of_nat B)).
  { rewrite <- (Qmult_1_l (inject_Z (Z.of_nat B))) at 2. apply Qmult_le_compat_r; assumption. }
  assert (Hy2 : x * inject_Z (Z.of_nat B) < inject_Z (2 ^ 53)).
  { eapply Qle_lt_trans; [exact Hy1|]. rewrite <- Zlt_Qlt. lia. }
  destruct (fl64_between_integers _ Hy0 Hy2) as [F1 F2].
  pose proof (Qfloor_between _ _ F1 F2) as Hf.
  unfold clampZ in *. lia.
Qed.

Lemma binFor_lt (e : StatEngine.t) (v : Q) :
  (0 < StatEngine.statBins e)%nat ->
  exists b, StatEngine.binFor e (Num v) = Some b /\ (b < StatEngine.statBins e)%nat.
Proof.
  intros HB. unfold StatEngine.binFor.
  destruct (StatEngine.getStatisticDomain e) as [mn mx].
  eexists. split; [reflexivity|]. unfold clampZ. lia.
Qed.

(** C4 (as the code has it): [addToSamplingDistribution] increments the
    bin [clamp(floor(x * B), 0, B - 1)] for
    [x = clamp((v - min) / (max - min), 0, 1)], the product being
    rounded to a double: that is the bin of the formula or, when the
    product rounds up to a whole number, the next one; the gather path
    and turbo mode divide by [max - min + 1e-9] instead, and the bin
    they resolve is the bin of the formula or the one below it. *)
Theorem bin_mapping `{HostMath} :
  (forall (e : StatEngine.t) (v : Q),
      let B := StatEngine.statBins e in
      let dom := StatEngine.getStatisticDomain e in
      let x := clamp ((v - fst dom) / (snd dom - fst dom)) 0 1 in
      let b := Z.to_nat (clampZ (Qfloor (fl64 (x * inject_Z (Z.of_nat B)))) 0 (Z.of_nat B - 1)) in
      StatEngine.binFor e (Num v) = Some b /\
      StatEngine.samplingDistData (StatEngine.addToSamplingDistribution (Num v) e)
      = inc32 (StatEngine.samplingDistData e) b /\
      ((Z.of_nat B <= 500000000)%Z ->
       (Bins.spec_bin B dom v <= Z.of_nat b <= Bins.spec_bin B dom v + 1)%Z)) /\
  (forall (e : Engine.t) (now : Q),
      App.trayOccupied e = true ->
      exists lgs tgt,
        Engine.lastGatheringSample (Engine.calculateWithGather now e) = Some lgs /\
        Engine.gatherTarget (Engine.calculateWithGather now e) = Some tgt /\
        Engine.gt_bin tgt
        = Bins.binOf (Engine.STAT_BINS e) Bins.eps9 (Engine.statDomain e)
                     (Engine.computeStat e lgs)) /\
  (forall (e : Engine.t) (n : nat),
      Engine.botCounts (Engine.turboStep n e)
      = Bins.inc32_at (Engine.botCounts e)
          (Bins.binOf (Engine.STAT_BINS e) Bins.eps9 (Engine.statDomain e)
                      (Engine.computeStat e (fst (fst (Engine.sampleN e n)))))) /\
  (forall (B : nat) (st : Statistic) (v : Q),
      (Z.of_nat B <= 500000000)%Z ->
      exists b, Bins.binOf B Bins.eps9 (Stats.statDomain st) (Num v) = Some b /\
        (Bins.spec_bin B (Stats.statDomain st) v - 1 <= Z.of_nat b
         <= Bins.spec_bin B (Stats.statDomain st) v)%Z).
Proof.
  split; [|split; [|split]].
  - intros e v B dom x b.
    assert (E : StatEngine.binFor e (Num v) = Some b).
    { unfold StatEngine.binFor, b, x, dom, B.
      destruct (StatEngine.getStatisticDomain e) as [mn mx]. reflexivity. }
    split; [exact E|]. split.
    + cbn [StatEngine.addToSamplingDistribution StatEngine.samplingDistData].
      rewrite E. reflexivity.
    + intros HB. destruct (binFor_close e v HB) as (b' & E' & Hb').
      rewrite E in E'. injection E' as <-. exact Hb'.
  - intros e now Hocc.
    destruct (calculateWithGather_occupied now e Hocc)
      as (_ & _ & _ & _ & _ & Hl & (tgt & Ht & Hb) & _).
    eexists. exists tgt. split; [exact Hl|]. split; [exact Ht|]. exact Hb.
  - intros e n. unfold Engine.turboStep, Engine.turboBin.
    destruct (Engine.sampleN e n) as [[xs cs] r]. reflexivity.
  - intros B st v HB. apply binOf_eps_close. exact HB.
Qed.

Lemma bin_mapping_witness :
  (let e := StatEngine.create (Some 60%nat) (Some 60%nat) (Some 1234%Z) in
   let v := 6004799503160661 # 18014398509481984 in
   StatEngine.binFor e (Num v) = Some 20%nat /\
   StatEngine.samplingDistData (StatEngine.addToSamplingDistribution (Num v) e)
   = inc32 (StatEngine.samplingDistData e) 20 /\
   Bins.spec_bin 60 (StatEngine.getStatisticDomain e) v = 19%Z /\
   (Bins.spec_bin 60 (StatEngine.getStatisticDomain e) v <= 20
    <= Bins.spec_bin 60 (StatEngine.getStatisticDomain e) v + 1)%Z) /\
  (exists lgs tgt,
      Engine.lastGatheringSample (Engine.calculateWithGather 2000 Scenario.twoBinsDrawn)
      = Some lgs /\
      Engine.gatherTarget (Engine.calculateWithGather 2000 Scenario.twoBinsDrawn) = Some tgt /\
      Engine.gt_bin tgt
      = Bins.binOf (Engine.STAT_BINS Scenario.twoBinsDrawn) Bins.eps9
                   (Engine.statDomain Scenario.twoBinsDrawn)
                   (Engine.computeStat Scenario.twoBinsDrawn lgs)) /\
  (exists b, Bins.binOf 60 Bins.eps9 (Stats.statDomain StProportion) (Num (1 # 2)) = Some b /\
     (Bins.spec_bin 60 (Stats.statDomain StProportion) (1 # 2) - 1 <= Z.of_nat b
      <= Bins.spec_bin 60 (Stats.statDomain StProportion) (1 # 2))%Z).
Proof.
  destruct (@bin_mapping host_digits) as (Ha & Hg & _ & Hc). split; [|split].
  - intros e v. destruct (Ha e v) as (E & D & C).
    assert (Eb : Z.to_nat (clampZ (Qfloor (fl64 (clamp ((v - fst (StatEngine.getStatisticDomain e))
                     / (snd (StatEngine.getStatisticDomain e)
                        - fst (StatEngine.getStatisticDomain e))) 0 1
                   * inject_Z (Z.of_nat (StatEngine.statBins e))))) 0
                   (Z.of_nat (StatEngine.statBins e) - 1)) = 20%nat)
      by (vm_compute; reflexivity).
    rewrite Eb in E, D, C.
    split; [exact E|]. split; [exact D|]. split; [vm_compute; reflexivity|].
    apply C. vm_compute. discriminate.
  - apply (Hg Scenario.twoBinsDrawn 2000). vm_compute. reflexivity.
  - apply (Hc 60%nat StProportion (1 # 2)). vm_compute. discriminate.
Defined.

(** The claim as stated fails on the gather path and in turbo mode: for
    the sample [{0.5/60, 59.5/60}] and the threshold 0.5 the proportion
    is exactly 1/2; the formula gives bin 30 while both paths resolve
    (and turbo mode increments) bin 29. *)
Lemma gather_and_turbo_bin_below_formula :
  exists v,
    Engine.computeStat Scenario.twoBinsDrawn (Engine.lastSample Scenario.twoBinsDrawn)
    = Num v /\
    v == 1 # 2 /\
    Bins.spec_bin 60 (Engine.statDomain Scenario.twoBinsDrawn) v = 30%Z /\
    option_map Engine.gt_bin
      (Engine.gatherTarget (Engine.calculateWithGather 2000 Scenario.twoBinsDrawn))
    = Some (Some 29%nat) /\
    fst (fst (Engine.sampleN Scenario.twoBins 2)) = Engine.lastSample Scenario.twoBinsDrawn /\
    Engine.botCounts (Engine.turboStep 2 Scenario.twoBins) !! 29%nat = Some 1%Z /\
    Engine.botCounts (Engine.turboStep 2 Scenario.twoBins) !! 30%nat = Some 0%Z.
Proof.
  eexists. split; [vm_compute; reflexivity|].
  vm_compute. repeat split; reflexivity.
Qed.

(** ** What a tick does to each field *)

Section TickFields.
Context (dt now : Q) (e : Engine.t).

Let g := Engine.gravity (Engine.speed e).

Lemma tick_sample :
  (Engine.sampleParticles (Engine.tick dt now e), Engine.midCounts (Engine.tick dt now e))
  = Engine.samplePhysics g dt (snd (Engine.emission e now)) (Engine.midCounts e).
Proof.
  unfold Engine.tick. fold g. destruct (Engine.emission e now) as [[plan fl] parts].
  cbn [snd]. destruct (Engine.samplePhysics g dt parts (Engine.midCounts e)).
  destruct (Engine.statPhysics g dt _ _). reflexivity.
Qed.

Lemma tick_plan :
  Engine.emissionPlan (Engine.tick dt now e) = fst (fst (Engine.emission e now)).
Proof.
  unfold Engine.tick. fold g. destruct (Engine.emission e now) as [[plan fl] parts].
  destruct (Engine.samplePhysics g dt parts (Engine.midCounts e)).
  destruct (Engine.statPhysics g dt _ _). reflexivity.
Qed.

Lemma tick_stat :
  (Engine.statParticles (Engine.tick dt now e), Engine.botCounts (Engine.tick dt now e))
  = Engine.statPhysics g dt (Engine.go_statParticles (Engine.gatherStep e now))
                       (Engine.botCounts e).
Proof.
  unfold Engine.tick. fold g. destruct (Engine.emission e now) as [[plan fl] parts].
  destruct (Engine.samplePhysics g dt parts (Engine.midCounts e)).
  destruct (Engine.statPhysics g dt _ _). reflexivity.
Qed.

Lemma tick_gather :
  Engine.gathering (Engine.tick dt now e) = Engine.go_gathering (Engine.gatherStep e now) /\
  Engine.gatherTarget (Engine.tick dt now e)
  = Engine.go_gatherTarget (Engine.gatherStep e now) /\
  Engine.gatherParticles (Engine.tick dt now e)
  = Engine.go_gatherParticles (Engine.gatherStep e now) /\
  Engine.lastGatheringSample (Engine.tick dt now e)
  = Engine.go_lastGatheringSample (Engine.gatherStep e now).
Proof.
  unfold Engine.tick. fold g. destruct (Engine.emission e now) as [[plan fl] parts].
  destruct (Engine.samplePhysics g dt parts (Engine.midCounts e)).
  destruct (Engine.statPhysics g dt _ _). repeat split; reflexivity.
Qed.

Lemma tick_static :
  Engine.COLS (Engine.tick dt now e) = Engine.COLS e /\
  Engine.STAT_BINS (Engine.tick dt now e) = Engine.STAT_BINS e /\
  Engine.popCounts (Engine.tick dt now e) = Engine.popCounts e /\
  Engine.gatherStart (Engine.tick dt now e) = Engine.gatherStart e /\
  Engine.gatherDur (Engine.tick dt now e) = Engine.gatherDur e /\
  Engine.lastSample (Engine.tick dt now e) = Engine.lastSample e /\
  Engine.rng (Engine.tick dt now e) = Engine.rng e.
Proof.
  unfold Engine.tick. fold g. destruct (Engine.emission e now) as [[plan fl] parts].
  destruct (Engine.samplePhysics g dt parts (Engine.midCounts e)).
  destruct (Engine.statPhysics g dt _ _). repeat split; reflexivity.
Qed.

End TickFields.


(** ** Runs *)




(** ** The gather block of a tick *)



Lemma gatherStep_before (e : Engine.t) (now : Q) (tgt : Engine.GatherTarget) :
  Engine.gathering e = true -> Engine.gatherTarget e = Some tgt ->
  Engine.reached1 (Engine.gatherT e now) = false ->
  Engine.gatherStep e now =
  {| Engine.go_gatherParticles :=
       map (Engine.moveGather tgt (Engine.gatherT e now)) (Engine.gatherParticles e);
     Engine.go_statParticles := Engine.statParticles e;
     Engine.go_gathering := true; Engine.go_gatherTarget := Some tgt;
     Engine.go_lastGatheringSample := Engine.lastGatheringSample e |}.
Proof. intros Hg Ht Hr. unfold Engine.gatherStep. rewrite Hg, Ht, Hr. reflexivity. Qed.

Lemma gatherStep_done (e : Engine.t) (now : Q) (tgt : Engine.GatherTarget) :
  Engine.gathering e = true -> Engine.gatherTarget e = Some tgt ->
  Engine.reached1 (Engine.gatherT e now) = true ->
  Engine.gatherStep e now =
  {| Engine.go_gatherParticles := [];
     Engine.go_statParticles :=
       Engine.statParticles e ++ [Engine.spawnStat e (Engine.statParticles e) tgt];
     Engine.go_gathering := false; Engine.go_gatherTarget := None;
     Engine.go_lastGatheringSample := None |}.
Proof. intros Hg Ht Hr. unfold Engine.gatherStep. rewrite Hg, Ht, Hr. reflexivity. Qed.

Lemma gatherStep_idle (e : Engine.t) (now : Q) :
  Engine.gathering e = false ->
  Engine.gatherStep e now =
  {| Engine.go_gatherParticles := Engine.gatherParticles e;
     Engine.go_statParticles := Engine.statParticles e;
     Engine.go_gathering := false; Engine.go_gatherTarget := Engine.gatherTarget e;
     Engine.go_lastGatheringSample := Engine.lastGatheringSample e |}.
Proof. intros Hg. unfold Engine.gatherStep. rewrite Hg. reflexivity. Qed.

Lemma emission_none (e : Engine.t) (now : Q) :
  Engine.emissionPlan e = None ->
  Engine.emission e now = (None, Engine.popFlashes e, Engine.sampleParticles e).
Proof. intros Hp. unfold Engine.emission. rewrite Hp. reflexivity. Qed.


Lemma samplePhysics_increments (g dt : Q) (ps : list Engine.Particle) (mid : list Z) :
  exists landed : list nat,
    snd (Engine.samplePhysics g dt ps mid) = fold_left inc16 landed mid /\
    (length landed + length (fst (Engine.samplePhysics g dt ps mid)))%nat = length ps.
Proof.
  revert mid; induction ps as [|s ps IH]; intros mid; cbn [Engine.samplePhysics].
  - exists []. split; reflexivity.
  - cbv zeta. destruct (Engine.inFlight _ _).
    + destruct (IH mid) as (landed & Hm & Hl).
      destruct (Engine.samplePhysics g dt ps mid) as [sv mid']. cbn [fst snd] in *.
      exists landed. split; [exact Hm|]. cbn [length]. lia.
    + destruct (IH (inc16 mid (Engine.p_col (Engine.fall g dt s)))) as (landed & Hm & Hl).
      exists (Engine.p_col (Engine.fall g dt s) :: landed).
      split; [exact Hm|]. cbn [length]. lia.
Qed.

(** ** C2: the life cycle of a gather *)

(** C2 (as the code has it): a gather clears the sample-tray histogram
    at the moment it starts, after copying its boxes into the gather
    particles; while the interpolation has not reached 1 a tick spawns
    no statistic particle; at the tick where it reaches 1 the gather
    particles are dropped and exactly one new particle is spawned toward
    the resolved bin.  No tick clears the tray, the completing one
    included: in any state a tick changes the tray only by one
    increment per sample particle that lands in it, and not at all when
    no emission plan and no sample particle is left. *)
Theorem gather_lifecycle `{HostMath} (e : Engine.t) (t0 : Q) :
  App.trayOccupied e = true ->
  let e1 := Engine.calculateWithGather t0 e in
  (Engine.midCounts e1 = zeros (Engine.COLS e) /\
   Engine.gatherParticles e1 = Engine.snapshotTray e /\
   Engine.gathering e1 = true /\
   Engine.statParticles e1 = Engine.statParticles e /\
   Engine.botCounts e1 = Engine.botCounts e) /\
  (forall (e2 : Engine.t) (tgt : Engine.GatherTarget) (dt now : Q),
      Engine.gathering e2 = true -> Engine.gatherTarget e2 = Some tgt ->
      let g := Engine.gravity (Engine.speed e2) in
      let e3 := Engine.tick dt now e2 in
      (Engine.reached1 (Engine.gatherT e2 now) = false ->
       Engine.gathering e3 = true /\ Engine.gatherTarget e3 = Some tgt /\
       length (Engine.gatherParticles e3) = length (Engine.gatherParticles e2) /\
       (Engine.statParticles e3, Engine.botCounts e3)
       = Engine.statPhysics g dt (Engine.statParticles e2) (Engine.botCounts e2)) /\
      (Engine.reached1 (Engine.gatherT e2 now) = true ->
       Engine.gathering e3 = false /\ Engine.gatherTarget e3 = None /\
       Engine.gatherParticles e3 = [] /\
       (Engine.statParticles e3, Engine.botCounts e3)
       = Engine.statPhysics g dt
           (Engine.statParticles e2 ++ [Engine.spawnStat e2 (Engine.statParticles e2) tgt])
           (Engine.botCounts e2) /\
       Engine.q_bin (Engine.spawnStat e2 (Engine.statParticles e2) tgt)
       = Engine.gt_bin tgt)) /\
  (forall (e2 : Engine.t) (dt now : Q),
      exists landed : list nat,
        Engine.midCounts (Engine.tick dt now e2)
        = fold_left inc16 landed (Engine.midCounts e2) /\
        (length landed + length (Engine.sampleParticles (Engine.tick dt now e2)))%nat
        = length (snd (Engine.emission e2 now)) /\
        (Engine.emissionPlan e2 = None -> Engine.sampleParticles e2 = [] -> landed = [])).
Proof.
  intros Hocc e1. split; [|split].
  - destruct (calculateWithGather_occupied t0 e Hocc)
      as (H1 & H2 & H3 & _ & _ & _ & _ & _ & _ & H4 & H5 & _).
    repeat split; assumption.
  - intros e2 tgt dt now Hg Ht g e3.
    destruct (tick_gather dt now e2) as (G1 & G2 & G3 & _).
    pose proof (tick_stat dt now e2) as S. fold g in S. fold e3 in G1, G2, G3, S.
    split; intros Hr.
    + rewrite (gatherStep_before e2 now tgt Hg Ht Hr) in G1, G2, G3, S.
      cbn in G1, G2, G3, S. rewrite G3, length_map. auto.
    + rewrite (gatherStep_done e2 now tgt Hg Ht Hr) in G1, G2, G3, S.
      cbn in G1, G2, G3, S. auto.
  - intros e2 dt now. pose proof (tick_sample dt now e2) as E.
    destruct (samplePhysics_increments (Engine.gravity (Engine.speed e2)) dt
                (snd (Engine.emission e2 now)) (Engine.midCounts e2)) as (landed & Hm & Hl).
    rewrite <- E in Hm, Hl. cbn [fst snd] in Hm, Hl.
    exists landed. split; [exact Hm|]. split; [exact Hl|].
    intros Hp Hs. rewrite (emission_none e2 now Hp), Hs in Hl. cbn [snd length] in Hl.
    destruct landed; [reflexivity|cbn [length] in Hl; lia].
Qed.

Lemma gather_lifecycle_witness :
  let e := Scenario.settled in
  let e1 := Engine.calculateWithGather 2000 e in
  Engine.midCounts e1 = zeros (Engine.COLS e) /\
  Engine.gathering e1 = true /\
  Engine.gathering (Engine.tick (6 # 100) 2060 e1) = true /\
  Engine.gathering (Engine.tick (6 # 100) 2280 e1) = false /\
  Engine.gatherParticles (Engine.tick (6 # 100) 2280 e1) = [] /\
  Engine.midCounts (Engine.tick (6 # 100) 2280 e1) = Engine.midCounts e1.
Proof.
  intros e e1.
  assert (Hocc : App.trayOccupied e = true) by (vm_compute; reflexivity).
  pose proof (@gather_lifecycle host_digits e 2000 Hocc) as Hl.
  cbv zeta in Hl. fold e1 in Hl.
  destruct Hl as ((M & _ & G & _) & Htick & Hidle).
  pose (tgt := default {| Engine.gt_x := NaN; Engine.gt_y := 0; Engine.gt_bin := None |}
                       (Engine.gatherTarget e1)).
  assert (Ht : Engine.gatherTarget e1 = Some tgt) by (vm_compute; reflexivity).
  assert (R1 : Engine.reached1 (Engine.gatherT e1 2060) = false) by (vm_compute; reflexivity).
  assert (R2 : Engine.reached1 (Engine.gatherT e1 2280) = true) by (vm_compute; reflexivity).
  assert (P : Engine.emissionPlan e1 = None) by (vm_compute; reflexivity).
  assert (S : Engine.sampleParticles e1 = []) by (vm_compute; reflexivity).
  destruct (Htick e1 tgt (6 # 100) 2060 G Ht) as [Hb _].
  destruct (Htick e1 tgt (6 # 100) 2280 G Ht) as [_ Hd].
  destruct (Hb R1) as (A & _). destruct (Hd R2) as (B & _ & C & _).
  destruct (Hidle e1 (6 # 100) 2280) as (landed & D & _ & Hnone).
  rewrite (Hnone P S) in D. cbn [fold_left] in D.
  repeat split; assumption.
Defined.

(** The claim as stated fails: the tray histogram is already empty when
    the gather starts, long before the interpolation reaches 1. *)
Lemma tray_empty_during_gather :
  let e := Scenario.settled in
  let e1 := Engine.calculateWithGather 2000 e in
  sumZ (Engine.midCounts e) = 2%Z /\
  Engine.gathering e1 = true /\
  Engine.reached1 (Engine.gatherT e1 2000) = false /\
  sumZ (Engine.midCounts e1) = 0%Z /\
  Engine.reached1 (Engine.gatherT e1 2060) = false /\
  sumZ (Engine.midCounts (Engine.tick (6 # 100) 2060 e1)) = 0%Z.
Proof. vm_compute. repeat split; reflexivity. Qed.

(** ** [startSample] *)

Lemma startSample_plan (n : nat) (dropMs now : Q) (e : Engine.t) :
  exists xs cols,
    Engine.emissionPlan (Engine.startSample n dropMs now e)
    = Some {| Engine.e_start := now; Engine.e_end := now + dropMs;
              Engine.e_total := n; Engine.e_emitted := 0;
              Engine.e_cols := cols; Engine.e_xs := xs |} /\
    length cols = n /\ length xs = n /\
    Engine.lastSample (Engine.startSample n dropMs now e) = xs /\
    ((0 < Engine.COLS e)%nat -> Forall (fun c => (c < Engine.COLS e)%nat) cols).
Proof.
  unfold Engine.startSample.
  pose proof (sampleN_columns_lt (Engine.COLS e) (Engine.popCounts e) n (Engine.rng e))
    as Hb.
  unfold Engine.sampleN in *. unfold Sampler.sampleN in *. rewrite loop_spec in *.
  cbn [fst snd] in Hb.
  eexists. eexists. split; [cbn; rewrite length_map, draws_length; reflexivity|].
  split; [rewrite length_map; apply draws_length|].
  split; [rewrite !length_map; apply draws_length|].
  split; [reflexivity|].
  intros Hc. apply Hb. exact Hc.
Qed.

Lemma startSample_keeps (n : nat) (dropMs now : Q) (e : Engine.t) :
  let e' := Engine.startSample n dropMs now e in
  Engine.COLS e' = Engine.COLS e /\
  Engine.midCounts e' = Engine.midCounts e /\
  Engine.botCounts e' = Engine.botCounts e /\
  Engine.sampleParticles e' = Engine.sampleParticles e /\
  Engine.statParticles e' = Engine.statParticles e /\
  Engine.gathering e' = Engine.gathering e /\
  Engine.gatherTarget e' = Engine.gatherTarget e /\
  Engine.gatherStart e' = Engine.gatherStart e /\
  Engine.gatherDur e' = Engine.gatherDur e.
Proof.
  cbv zeta. unfold Engine.startSample. destruct (Engine.sampleN e n) as [[xs cs] r].
  cbn. repeat split; reflexivity.
Qed.

(** ** C3: a draw requested over an occupied tray *)





(** ** C8: clearing and resetting *)








(** ** Typed-array increments *)

Lemma rd_cons_S (x : Z) (l : list Z) (i : nat) : rd (x :: l) (S i) = rd l i.
Proof. reflexivity. Qed.

Lemma sumZ_insert (l : list Z) (i : nat) (x : Z) :
  (i < length l)%nat -> sumZ (<[ i := x ]> l) = (sumZ l - rd l i + x)%Z.
Proof.
  revert i; induction l as [|y l IH]; intros i Hi; [cbn in Hi; lia|].
  destruct i as [|i].
  - cbn. lia.
  - cbn [length] in Hi. change (<[S i:=x]> (y :: l)) with (y :: <[i:=x]> l).
    rewrite !sumZ_cons, rd_cons_S, IH by lia. lia.
Qed.

Lemma rd_le_sum (l : list Z) (i : nat) :
  Forall (fun z => 0 <= z)%Z l -> (0 <= rd l i <= sumZ l)%Z.
Proof.
  intros Hall; revert i; induction Hall as [|y l Hy Hall IH]; intros i.
  - unfold rd. rewrite lookup_nil. cbn. lia.
  - rewrite sumZ_cons. destruct i as [|i].
    + assert (0 <= sumZ l)%Z by (specialize (IH 0%nat); lia). cbn. lia.
    + rewrite rd_cons_S. specialize (IH i). lia.
Qed.

Lemma wrap16_nonneg (z : Z) : (0 <= wrap16 z)%Z.
Proof. unfold wrap16, two16. apply Z.mod_pos_bound. lia. Qed.

Lemma inc16_length (l : list Z) (i : nat) : length (inc16 l i) = length l.
Proof. unfold inc16. apply length_insert. Qed.

Lemma insert_nonneg (l : list Z) (i : nat) (x : Z) :
  (0 <= x)%Z -> Forall (fun z => 0 <= z)%Z l -> Forall (fun z => 0 <= z)%Z (<[ i := x ]> l).
Proof.
  intros Hx Hall; revert i; induction Hall as [|y l Hy Hall IH]; intros i.
  - constructor.
  - destruct i as [|i]; cbn; constructor; auto.
Qed.

Lemma inc16_nonneg (l : list Z) (i : nat) :
  Forall (fun z => 0 <= z)%Z l -> Forall (fun z => 0 <= z)%Z (inc16 l i).
Proof. intros Hall. unfold inc16. apply insert_nonneg; [apply wrap16_nonneg|exact Hall]. Qed.

Lemma inc16_sum (l : list Z) (i : nat) :
  (i < length l)%nat -> Forall (fun z => 0 <= z)%Z l -> (sumZ l < 65535)%Z ->
  sumZ (inc16 l i) = (sumZ l + 1)%Z.
Proof.
  intros Hi Hall Hs. unfold inc16. rewrite sumZ_insert by exact Hi.
  pose proof (rd_le_sum l i Hall) as Hr.
  unfold wrap16, two16. rewrite Z.mod_small by lia. lia.
Qed.

(** ** Conservation through the particle physics *)

Lemma fall_col (g dt : Q) (s : Engine.Particle) :
  Engine.p_col (Engine.fall g dt s) = Engine.p_col s.
Proof. reflexivity. Qed.


(** ** Conservation through the emission *)

Lemma emitLoop_count (e : Engine.t) (now : Q) (p : Engine.EmissionPlan) (fuel emitted : nat)
    (inflight : list Z) :
  let r := Engine.emitLoop e now p fuel emitted inflight in
  (emitted <= snd r)%nat /\
  ((emitted <= Engine.e_total p)%nat -> (snd r <= Engine.e_total p)%nat) /\
  length (snd (fst r)) = (snd r - emitted)%nat /\
  (snd r <= emitted + fuel)%nat /\
  ((fuel <= Engine.e_total p - emitted)%nat -> snd r = (emitted + fuel)%nat) /\
  ((Engine.e_total p <= length (Engine.e_cols p))%nat ->
   forall c, Forall (fun k => (k < c)%nat) (Engine.e_cols p) ->
             Forall (fun s => (Engine.p_col s < c)%nat) (snd (fst r))).
Proof.
  revert emitted inflight; induction fuel as [|fuel IH]; intros emitted inflight;
    cbn [Engine.emitLoop]; cbv zeta.
  - cbn. repeat split; try lia. intros _ c _. constructor.
  - destruct (Nat.ltb_spec emitted (Engine.e_total p)) as [Hlt|Hge].
    + specialize (IH (S emitted)
                     (inc16 inflight (nth emitted (Engine.e_cols p) 0%nat))).
      cbv zeta in IH.
      destruct (Engine.emitLoop e now p fuel (S emitted) _) as [[fs ps] em].
      cbn [fst snd] in *. destruct IH as (I1 & I2 & I3 & I4 & I5 & I6).
      split; [lia|]. split; [intros _; apply I2; lia|].
      split; [cbn [length]; lia|]. split; [lia|]. split; [intros Hf; rewrite I5; lia|].
      intros Hlen c Hall. constructor; [|apply I6; assumption].
      cbn [Engine.p_col]. rewrite Forall_forall in Hall. apply Hall.
      apply list_elem_of_In. apply nth_In. lia.
    + cbn. repeat split; try lia. intros _ c _. constructor.
Qed.

Lemma toEmit_le (p : Engine.EmissionPlan) (now : Q) :
  (Engine.e_emitted p <= Engine.e_total p)%nat ->
  (Engine.toEmit p now <= Z.of_nat (Engine.e_total p) - Z.of_nat (Engine.e_emitted p))%Z.
Proof.
  intros Hle. unfold Engine.toEmit.
  destruct (js_div_clamp01 _ _) as [|f] eqn:Ef; [lia|]. cbv zeta.
  destruct ((_ <=? 0)%Z && Qle_bool 1 f); [lia|].
  assert (Hf : f <= 1).
  { unfold js_div_clamp01 in Ef.
    destruct (Qeq_bool _ 0).
    - destruct (Qlt_le_dec 0 _); [injection Ef as <-; lra|].
      destruct (Qlt_le_dec _ 0); [injection Ef as <-; lra|discriminate].
    - injection Ef as <-. apply clamp01_range. }
  assert (Hb : (Qfloor (f * inject_Z (Z.of_nat (Engine.e_total p)))
                <= Z.of_nat (Engine.e_total p))%Z).
  { rewrite <- (Qfloor_Z (Z.of_nat (Engine.e_total p))) at 2. apply Qfloor_resp_le.
    rewrite <- (Qmult_1_l (inject_Z (Z.of_nat (Engine.e_total p)))) at 2.
    apply Qmult_le_compat_r; [exact Hf|].
    change 0 with (inject_Z 0). rewrite <- Zle_Qle. lia. }
  lia.
Qed.


(** ** C7: conservation of a draw *)



Lemma zeros_length (c : nat) : length (zeros c) = c.
Proof. apply length_replicate. Qed.

Lemma zeros_nonneg (c : nat) : Forall (fun z => 0 <= z)%Z (zeros c).
Proof. unfold zeros. apply Forall_replicate. lia. Qed.

Lemma zeros_sum (c : nat) : sumZ (zeros c) = 0%Z.
Proof. induction c as [|c IH]; [reflexivity|]. cbn [zeros replicate]. fold (zeros c). rewrite sumZ_cons, IH. reflexivity. Qed.

Lemma rd_zeros (c i : nat) : rd (zeros c) i = 0%Z.
Proof.
  unfold rd, zeros. destruct (replicate c 0%Z !! i) as [z|] eqn:E; [|reflexivity].
  apply lookup_replicate in E. cbn. tauto.
Qed.





(** ** Settling: a late and long enough tick lands everything *)

Lemma fall_lands (g dt : Q) (s : Engine.Particle) :
  0 < g -> 1 <= dt -> 0 <= Engine.p_vy s ->
  Engine.p_targetY s - Engine.p_y s <= g * dt ->
  lands g dt s.
Proof.
  intros Hg Hdt Hvy Hgap. unfold lands, Engine.inFlight, Engine.fall.
  cbn [Engine.p_y Engine.p_targetY].
  apply negb_false_iff. apply Qle_bool_iff.
  set (k := Engine.p_vy s + g * dt).
  assert (Hgd : 0 <= g * dt) by (apply Qmult_le_0_compat; lra).
  assert (Hk : 0 <= k) by (unfold k; lra).
  assert (Hkd : k <= k * dt).
  { assert (H1 : 1 * k <= dt * k) by (apply Qmult_le_compat_r; assumption).
    rewrite Qmult_1_l in H1. rewrite (Qmult_comm k dt). exact H1. }
  apply Q.min_glb; unfold k in *; lra.
Qed.

Lemma samplePhysics_all_land (g dt : Q) (ps : list Engine.Particle) (mid : list Z) :
  Forall (lands g dt) ps ->
  Engine.samplePhysics g dt ps mid
  = ([], fold_left inc16 (map Engine.p_col ps) mid).
Proof.
  intros Hall; revert mid; induction Hall as [|s ps Hs Hall IH]; intros mid;
    cbn [Engine.samplePhysics map fold_left]; [reflexivity|].
  unfold lands in Hs. rewrite Hs, fall_col. apply IH.
Qed.

Lemma skipn_cons_nth (l : list nat) (i : nat) :
  (i < length l)%nat -> skipn i l = nth i l 0%nat :: skipn (S i) l.
Proof.
  revert i; induction l as [|x l IH]; intros i Hi; [cbn in Hi; lia|].
  destruct i as [|i]; [reflexivity|]. cbn [length] in Hi.
  cbn [skipn nth]. rewrite IH by lia. reflexivity.
Qed.

Lemma sampleTargetY_le (e : Engine.t) (level : Z) :
  0 <= Engine.BOX_MID_Y (Engine.geom e) -> (0 <= level)%Z ->
  Engine.sampleTargetY e level <= Engine.sampleTargetY e 0.
Proof.
  intros Hb Hl. unfold Engine.sampleTargetY. cbv zeta.
  assert (0 <= inject_Z level * Engine.BOX_MID_Y (Engine.geom e)).
  { apply Qmult_le_0_compat; [|exact Hb]. change 0 with (inject_Z 0).
    rewrite <- Zle_Qle. exact Hl. }
  change (inject_Z 0) with 0. lra.
Qed.

Lemma emitLoop_shape (e : Engine.t) (now : Q) (p : Engine.EmissionPlan) (fuel emitted : nat)
    (inflight : list Z) :
  (Engine.e_total p <= length (Engine.e_cols p))%nat ->
  let r := Engine.emitLoop e now p fuel emitted inflight in
  map Engine.p_col (snd (fst r))
  = firstn (snd r - emitted) (skipn emitted (Engine.e_cols p)) /\
  Forall (fun s => Engine.p_vy s = 0 /\ Engine.p_y s = Engine.yStart e (Engine.p_col s))
         (snd (fst r)) /\
  (0 <= Engine.BOX_MID_Y (Engine.geom e) ->
   Forall (fun z => 0 <= z)%Z (Engine.midCounts e) ->
   Forall (fun z => 0 <= z)%Z inflight ->
   Forall (fun s => Engine.p_targetY s <= Engine.sampleTargetY e 0) (snd (fst r))).
Proof.
  intros Hlen. revert emitted inflight; induction fuel as [|fuel IH]; intros emitted inflight;
    cbn [Engine.emitLoop]; cbv zeta.
  - cbn [fst snd map]. rewrite Nat.sub_diag. cbn. auto.
  - destruct (Nat.ltb_spec emitted (Engine.e_total p)) as [Hlt|Hge].
    + pose proof (emitLoop_count e now p fuel (S emitted)
                    (inc16 inflight (nth emitted (Engine.e_cols p) 0%nat))) as Hc.
      specialize (IH (S emitted) (inc16 inflight (nth emitted (Engine.e_cols p) 0%nat))).
      cbv zeta in IH, Hc.
      destruct (Engine.emitLoop e now p fuel (S emitted) _) as [[fs ps] em].
      cbn [fst snd] in *. destruct IH as (I1 & I2 & I3). destruct Hc as (C1 & _).
      split; [|split].
      * cbn [map Engine.p_col]. rewrite I1.
        rewrite (skipn_cons_nth (Engine.e_cols p) emitted) by lia.
        replace (em - emitted)%nat with (S (em - S emitted)) by lia. reflexivity.
      * constructor; [cbn; split; reflexivity|exact I2].
      * intros Hb Hm Hi. constructor.
        -- cbn [Engine.p_targetY]. apply sampleTargetY_le; [exact Hb|].
           pose proof (rd_le_sum _ (nth emitted (Engine.e_cols p) 0%nat) Hm).
           pose proof (rd_le_sum _ (nth emitted (Engine.e_cols p) 0%nat) Hi). lia.
        -- apply I3; [exact Hb|exact Hm|apply inc16_nonneg; exact Hi].
    + cbn [fst snd map]. rewrite Nat.sub_diag. cbn. auto.
Qed.


(** The elapsed fraction is 1 once the drop duration has passed. *)
Lemma fraction_at_end (start d now : Q) :
  0 <= d -> start + d < now ->
  exists f, js_div_clamp01 (now - start) (start + d - start) = Num f /\ f == 1.
Proof.
  intros Hd Hnow. unfold js_div_clamp01.
  destruct (Qeq_bool (start + d - start) 0) eqn:E.
  - destruct (Qlt_le_dec 0 (now - start)) as [_|Hle]; [exists 1; split; reflexivity|].
    exfalso. lra.
  - exists (clamp ((now - start) / (start + d - start)) 0 1). split; [reflexivity|].
    apply clamp01_above.
    assert (Hne : ~ start + d - start == 0).
    { intros Heq. apply Qeq_bool_iff in Heq. congruence. }
    assert (Hpos : 0 < start + d - start) by lra.
    apply Qle_shift_div_l; [exact Hpos|]. lra.
Qed.

Lemma toEmit_all (p : Engine.EmissionPlan) (now f : Q) :
  js_div_clamp01 (now - Engine.e_start p) (Engine.e_end p - Engine.e_start p) = Num f ->
  f == 1 ->
  Engine.toEmit p now = (Z.of_nat (Engine.e_total p) - Z.of_nat (Engine.e_emitted p))%Z.
Proof.
  intros Ef Hf. unfold Engine.toEmit. rewrite Ef. cbv zeta.
  assert (Hfl : Qfloor (f * inject_Z (Z.of_nat (Engine.e_total p)))
                = Z.of_nat (Engine.e_total p)).
  { rewrite <- (Qfloor_Z (Z.of_nat (Engine.e_total p))) at 2. apply Qfloor_comp.
    rewrite Hf. apply Qmult_1_l. }
  rewrite Hfl. destruct (_ && _); reflexivity.
Qed.

(** A tick after the end of the plan, long enough for the particles it
    releases to reach their targets, leaves no plan and no particle in
    flight, and every released particle has incremented its bin. *)
Lemma tick_settles (dt now : Q) (e : Engine.t) (p : Engine.EmissionPlan) :
  Engine.emissionPlan e = Some p -> Engine.sampleParticles e = [] ->
  Engine.e_emitted p = 0%nat -> Engine.e_total p = length (Engine.e_cols p) ->
  0 <= Engine.e_end p - Engine.e_start p -> Engine.e_end p < now ->
  1 <= dt ->
  (forall s, In s (snd (fst (Engine.emitLoop e now p (Engine.e_total p) 0
                               (Engine.inflightOf (Engine.COLS e) []))))
             -> Engine.p_targetY s - Engine.p_y s
                <= Engine.gravity (Engine.speed e) * dt) ->
  Engine.emissionPlan (Engine.tick dt now e) = None /\
  Engine.sampleParticles (Engine.tick dt now e) = [] /\
  Engine.midCounts (Engine.tick dt now e)
  = fold_left inc16 (Engine.e_cols p) (Engine.midCounts e).
Proof.
  intros Hp Hs Hem Htot Hd Hnow Hdt Hgap.
  assert (Hfrac : exists f, js_div_clamp01 (now - Engine.e_start p)
                              (Engine.e_end p - Engine.e_start p) = Num f /\ f == 1).
  { destruct (fraction_at_end (Engine.e_start p) (Engine.e_end p - Engine.e_start p) now)
      as (f & Ef & Hf); [exact Hd|lra|].
    unfold js_div_clamp01 in *.
    assert (Eb : Engine.e_start p + (Engine.e_end p - Engine.e_start p) - Engine.e_start p
                 == Engine.e_end p - Engine.e_start p) by ring.
    destruct (Qeq_bool (Engine.e_end p - Engine.e_start p) 0) eqn:E1.
    - apply Qeq_bool_iff in E1.
      destruct (Qlt_le_dec 0 (now - Engine.e_start p)); [exists 1; split; reflexivity|].
      exfalso. lra.
    - exists (clamp ((now - Engine.e_start p) / (Engine.e_end p - Engine.e_start p)) 0 1).
      split; [reflexivity|]. apply clamp01_above.
      assert (Hne : ~ Engine.e_end p - Engine.e_start p == 0).
      { intros Heq. apply Qeq_bool_iff in Heq. congruence. }
      apply Qle_shift_div_l; lra. }
  destruct Hfrac as (f & Ef & Hf).
  pose proof (toEmit_all p now f Ef Hf) as Hk. rewrite Hem in Hk.
  pose proof (tick_sample dt now e) as Ts. pose proof (tick_plan dt now e) as Tp.
  unfold Engine.emission in Ts, Tp. rewrite Hp in Ts, Tp. cbv zeta in Ts, Tp.
  rewrite Hk, Hem, Hs in Ts, Tp.
  replace (Z.to_nat (Z.of_nat (Engine.e_total p) - Z.of_nat 0)) with (Engine.e_total p)
    in Ts, Tp by lia.
  pose proof (emitLoop_count e now p (Engine.e_total p) 0
                (Engine.inflightOf (Engine.COLS e) [])) as Hc.
  pose proof (emitLoop_shape e now p (Engine.e_total p) 0
                (Engine.inflightOf (Engine.COLS e) []) ltac:(lia)) as Hsh.
  cbv zeta in Hc, Hsh.
  destruct (Z.ltb_spec 0 (Z.of_nat (Engine.e_total p) - Z.of_nat 0)) as [Hpos|Hzero].
  - destruct (Engine.emitLoop e now p (Engine.e_total p) 0 _) as [[fs ps] em].
    cbn [fst snd] in *.
    destruct Hc as (_ & _ & C3 & _ & C5 & _). specialize (C5 ltac:(lia)). subst em.
    destruct Hsh as (S1 & S2 & _).
    rewrite Nat.leb_refl in Tp. cbn [fst snd app] in Ts, Tp.
    rewrite Nat.add_0_l, Nat.sub_0_r in S1. cbn [skipn] in S1.
    rewrite Htot, firstn_all in S1.
    assert (Hland : Forall (lands (Engine.gravity (Engine.speed e)) dt) ps).
    { rewrite Forall_forall. intros s Hin. rewrite Forall_forall in S2.
      destruct (S2 s Hin) as [Hvy _]. apply fall_lands.
      - destruct (Engine.speed e); reflexivity.
      - exact Hdt.
      - rewrite Hvy. apply Qle_refl.
      - apply Hgap. apply list_elem_of_In. exact Hin. }
    rewrite (samplePhysics_all_land _ _ _ _ Hland), S1 in Ts.
    injection Ts as T1 T2. auto.
  - assert (Hz : Engine.e_total p = 0%nat) by lia.
    assert (Hcols : Engine.e_cols p = []).
    { destruct (Engine.e_cols p); [reflexivity|]. rewrite Hz in Htot. discriminate. }
    rewrite Hz in Ts, Tp. cbn [fst snd app Nat.leb Engine.samplePhysics] in Ts, Tp.
    injection Ts as T1 T2. rewrite Hcols. cbn [fold_left]. auto.
Qed.

Lemma gap_bound (ps : list Engine.Particle) :
  exists D, 0 <= D /\ forall s, In s ps -> Engine.p_targetY s - Engine.p_y s <= D.
Proof.
  induction ps as [|s ps (D & HD & Hall)].
  - exists 0. split; [apply Qle_refl|]. intros s [].
  - exists (Qmax D (Engine.p_targetY s - Engine.p_y s)). split.
    + eapply Qle_trans; [exact HD|apply Q.le_max_l].
    + intros s' [<-|Hin]; [apply Q.le_max_r|].
      eapply Qle_trans; [apply Hall; exact Hin|apply Q.le_max_l].
Qed.

(** Every draw over a tray without particles in flight can be settled:
    there is a later frame after which the plan is gone and nothing is
    in flight. *)
Theorem draw_settles (n : nat) (dropMs now : Q) (e : Engine.t) :
  0 <= dropMs -> Engine.sampleParticles e = [] ->
  exists now' dt,
    now < now' /\ 0 < dt /\
    Engine.emissionPlan (Engine.tick dt now' (Engine.startSample n dropMs now e)) = None /\
    Engine.sampleParticles (Engine.tick dt now' (Engine.startSample n dropMs now e)) = [].
Proof.
  intros Hd Hs.
  destruct (startSample_plan n dropMs now e) as (xs & cols & Hp & Hlc & _).
  destruct (startSample_keeps n dropMs now e) as (_ & _ & _ & K & _).
  set (e1 := Engine.startSample n dropMs now e) in *.
  set (p := {| Engine.e_start := now; Engine.e_end := now + dropMs; Engine.e_total := n;
               Engine.e_emitted := 0; Engine.e_cols := cols; Engine.e_xs := xs |}) in *.
  set (now' := now + dropMs + 1).
  destruct (gap_bound (snd (fst (Engine.emitLoop e1 now' p (Engine.e_total p) 0
                                   (Engine.inflightOf (Engine.COLS e1) [])))))
    as (D & HD & Hgap).
  set (g := Engine.gravity (Engine.speed e1)).
  assert (Hg : 0 < g) by (unfold g; destruct (Engine.speed e1); reflexivity).
  set (dt := Qmax 1 (D / g)).
  assert (Hdt : 1 <= dt) by apply Q.le_max_l.
  exists now', dt. split; [unfold now'; lra|]. split; [lra|].
  destruct (tick_settles dt now' e1 p) as (T1 & T2 & _); auto.
  - rewrite K. exact Hs.
  - cbn. lra.
  - cbn. unfold now'. lra.
  - intros s Hin. eapply Qle_trans; [apply Hgap; exact Hin|]. fold g.
    assert (Hq : D / g <= dt) by apply Q.le_max_r.
    assert (E : D == D / g * g) by (field; lra).
    rewrite E, (Qmult_comm g dt). apply Qmult_le_compat_r; lra.
Qed.


(* ================================================================== *)
(** * Part III: further properties of the code                         *)
(* ================================================================== *)

(** ** The sorted copy and the median *)

Lemma insert_sorted_perm (x : Q) (l : list Q) :
  Permutation (Stats.insert_sorted x l) (x :: l).
Proof.
  induction l as [|y l IH]; simpl; [reflexivity|].
  destruct (Qlt_le_dec x y); [reflexivity|].
  rewrite IH. apply perm_swap.
Qed.

Lemma sort_from_perm (a acc : list Q) :
  Permutation (fold_left (fun acc x => Stats.insert_sorted x acc) a acc) (a ++ acc).
Proof.
  revert acc. induction a as [|x a IH]; intros acc; simpl; [reflexivity|].
  rewrite IH, insert_sorted_perm. symmetry. apply Permutation_middle.
Qed.

Lemma sort_perm (a : list Q) : Permutation (Stats.sort a) a.
Proof.
  unfold Stats.sort. rewrite sort_from_perm, app_nil_r. reflexivity.
Qed.

Lemma sort_length (a : list Q) : length (Stats.sort a) = length a.
Proof. apply Permutation_length, sort_perm. Qed.

Lemma insert_sorted_sorted (x : Q) (l : list Q) :
  StronglySorted Qle l -> StronglySorted Qle (Stats.insert_sorted x l).
Proof.
  induction l as [|y l IH]; intros Hs; simpl.
  - constructor; constructor.
  - inversion Hs as [|? ? Hl Hy]; subst.
    destruct (Qlt_le_dec x y) as [Hlt|Hle].
    + constructor; [exact Hs|].
      constructor; [apply Qlt_le_weak, Hlt|].
      eapply Forall_impl; [exact Hy|].
      intros z Hz. simpl in Hz. apply Qle_trans with y; [apply Qlt_le_weak, Hlt|exact Hz].
    + constructor; [apply IH, Hl|].
      eapply Permutation_Forall; [symmetry; apply insert_sorted_perm|].
      constructor; assumption.
Qed.

Lemma sort_from_sorted (a acc : list Q) :
  StronglySorted Qle acc ->
  StronglySorted Qle (fold_left (fun acc x => Stats.insert_sorted x acc) a acc).
Proof.
  revert acc. induction a as [|x a IH]; intros acc Hs; simpl; [exact Hs|].
  apply IH, insert_sorted_sorted, Hs.
Qed.

Lemma sort_sorted (a : list Q) : StronglySorted Qle (Stats.sort a).
Proof. apply sort_from_sorted. constructor. Qed.

Lemma sorted_nth_le (l : list Q) (i j : nat) :
  StronglySorted Qle l -> (i <= j)%nat -> (j < length l)%nat ->
  nth i l 0 <= nth j l 0.
Proof.
  intros Hs. revert i j. induction Hs as [|x l Hs IH Hx]; intros i j Hij Hj; simpl in Hj.
  - lia.
  - destruct i as [|i], j as [|j]; simpl; try lia.
    + apply Qle_refl.
    + rewrite List.Forall_forall in Hx. apply Hx, nth_In. lia.
    + apply IH; lia.
Qed.

(** Counting is invariant under rearrangement. *)
Lemma countIf_perm (p : Q -> bool) (a b : list Q) :
  Permutation a b -> countIf p a = countIf p b.
Proof.
  unfold countIf. induction 1 as [|x l l' _ IH|x y l|l l' l'' _ IH1 _ IH2]; simpl.
  - reflexivity.
  - destruct (p x); simpl; congruence.
  - destruct (p x), (p y); reflexivity.
  - congruence.
Qed.

Lemma countIf_prefix (p : Q -> bool) (l : list Q) (k : nat) :
  (k <= length l)%nat -> Forall (fun x => p x = true) (firstn k l) ->
  (k <= countIf p l)%nat.
Proof.
  unfold countIf. revert k. induction l as [|x l IH]; intros k Hk Hf; simpl in *.
  - lia.
  - destruct k as [|k]; [lia|]. simpl in Hf. inversion Hf as [|? ? Hx Hr]; subst.
    rewrite Hx. simpl. apply le_n_S, IH; [lia|exact Hr].
Qed.

Lemma countIf_suffix (p : Q -> bool) (l : list Q) (k : nat) :
  Forall (fun x => p x = true) (skipn k l) ->
  (length l - k <= countIf p l)%nat.
Proof.
  unfold countIf. revert k. induction l as [|x l IH]; intros k Hf; simpl in *.
  - lia.
  - destruct k as [|k].
    + simpl in Hf. inversion Hf as [|? ? Hx Hr]; subst. rewrite Hx. simpl.
      specialize (IH 0%nat). simpl in IH. rewrite Nat.sub_0_r in IH.
      apply le_n_S, IH. destruct l; exact Hr.
    + simpl in Hf. specialize (IH k Hf). destruct (p x); simpl; lia.
Qed.

Lemma firstn_nth_all (P : Q -> Prop) (l : list Q) (k : nat) :
  (k <= length l)%nat -> (forall i, (i < k)%nat -> P (nth i l 0)) ->
  Forall P (firstn k l).
Proof.
  revert k. induction l as [|x l IH]; intros k Hk H; destruct k as [|k]; simpl in *;
    try constructor; try lia.
  - apply (H 0%nat). lia.
  - apply IH; [lia|]. intros i Hi. apply (H (S i)). lia.
Qed.

Lemma skipn_nth_all (P : Q -> Prop) (l : list Q) (k : nat) :
  (forall i, (k <= i < length l)%nat -> P (nth i l 0)) ->
  Forall P (skipn k l).
Proof.
  revert k. induction l as [|x l IH]; intros k H; destruct k as [|k]; simpl in *;
    try constructor.
  - apply (H 0%nat). lia.
  - apply (IH 0%nat). intros i Hi. apply (H (S i)). lia.
  - apply IH. intros i Hi. apply (H (S i)). lia.
Qed.

Lemma div2_odd (n : nat) : Nat.odd n = true -> n = S (2 * Nat.div2 n).
Proof.
  intros H. pose proof (Nat.div2_odd n) as E. rewrite H in E. simpl in E. lia.
Qed.

Lemma div2_even (n : nat) : Nat.odd n = false -> n = (2 * Nat.div2 n)%nat.
Proof.
  intros H. pose proof (Nat.div2_odd n) as E. rewrite H in E. simpl in E. lia.
Qed.

Lemma Qle_bool_true (x y : Q) : x <= y -> Qle_bool x y = true.
Proof. intros H. apply Qle_bool_iff, H. Qed.

(** The value [med] returns, read on the sorted copy [b]. *)
Lemma med_value (a : list Q) :
  a <> [] ->
  let b := Stats.sort a in
  let m := Nat.div2 (length b) in
  Stats.med a
  = Num (if Nat.odd (length b) then nth m b 0
         else (1 # 2) * (nth (m - 1) b 0 + nth m b 0)).
Proof.
  intros Ha. destruct a as [|x a]; [congruence|].
  unfold Stats.med. cbv zeta. destruct (Nat.odd _); reflexivity.
Qed.

(** X1.  The value [med] / [MathUtils.median] returns for a non-empty
    sample is a median of it: at least half of the values are less
    than or equal to it and at least half are greater than or equal
    to it. *)
Theorem med_splits_sample (a : list Q) (v : Q) :
  Stats.med a = Num v ->
  (length a <= 2 * countIf (fun x => Qle_bool x v) a)%nat /\
  (length a <= 2 * countIf (fun x => Qle_bool v x) a)%nat.
Proof.
  intros Hm.
  assert (Ha : a <> []) by (intros ->; discriminate).
  rewrite (med_value a Ha) in Hm. cbv zeta in Hm.
  rewrite !(countIf_perm _ a (Stats.sort a)) by (symmetry; apply sort_perm).
  rewrite <- (sort_length a).
  pose proof (sort_sorted a) as Hs.
  set (b := Stats.sort a) in *.
  assert (Hb : (0 < length b)%nat).
  { unfold b. rewrite sort_length. destruct a; [congruence|simpl; lia]. }
  set (m := Nat.div2 (length b)) in *.
  destruct (Nat.odd (length b)) eqn:Hodd.
  - apply div2_odd in Hodd. fold m in Hodd.
    injection Hm as <-.
    split.
    + assert (S m <= countIf (fun x => Qle_bool x (nth m b 0%Q)) b)%nat; [|lia].
      apply countIf_prefix; [lia|].
      apply firstn_nth_all; [lia|]. intros i Hi.
      apply Qle_bool_true, sorted_nth_le; [exact Hs|lia|lia].
    + assert (length b - m <= countIf (fun x => Qle_bool (nth m b 0%Q) x) b)%nat; [|lia].
      apply countIf_suffix. apply skipn_nth_all. intros i Hi.
      apply Qle_bool_true, sorted_nth_le; [exact Hs|lia|lia].
  - apply div2_even in Hodd. fold m in Hodd.
    injection Hm as <-.
    assert (Hmid : nth (m - 1) b 0%Q <= nth m b 0%Q).
    { apply sorted_nth_le; [exact Hs|lia|lia]. }
    split.
    + assert (m <= countIf (fun x => Qle_bool x ((1 # 2) * (nth (m - 1) b 0%Q + nth m b 0%Q))) b)%nat;
        [|lia].
      apply countIf_prefix; [lia|].
      apply firstn_nth_all; [lia|]. intros i Hi.
      apply Qle_bool_true.
      apply Qle_trans with (nth (m - 1) b 0%Q); [apply sorted_nth_le; [exact Hs|lia|lia]|].
      lra.
    + assert (length b - m
              <= countIf (fun x => Qle_bool ((1 # 2) * (nth (m - 1) b 0%Q + nth m b 0%Q)) x) b)%nat;
        [|lia].
      apply countIf_suffix. apply skipn_nth_all. intros i Hi.
      apply Qle_bool_true.
      apply Qle_trans with (nth m b 0%Q); [lra|].
      apply sorted_nth_le; [exact Hs|lia|lia].
Qed.

Lemma med_splits_sample_witness :
  Stats.med [3 # 4; 1 # 4; 1 # 2] = Num (1 # 2) /\
  (length [3 # 4; 1 # 4; 1 # 2] <= 2 * countIf (fun x => Qle_bool x (1 # 2)) [3 # 4; 1 # 4; 1 # 2])%nat /\
  (length [3 # 4; 1 # 4; 1 # 2] <= 2 * countIf (fun x => Qle_bool (1 # 2) x) [3 # 4; 1 # 4; 1 # 2])%nat.
Proof.
  split; [reflexivity|].
  apply (med_splits_sample [3 # 4; 1 # 4; 1 # 2] (1 # 2)). reflexivity.
Defined.

Lemma countIf_pos_in (p : Q -> bool) (l : list Q) :
  (0 < countIf p l)%nat -> exists y, In y l /\ p y = true.
Proof.
  unfold countIf. induction l as [|x l IH]; simpl; [lia|].
  destruct (p x) eqn:Hx; simpl; intros H.
  - exists x. split; [left; reflexivity|exact Hx].
  - destruct (IH H) as [y [Hy Hp]]. exists y. split; [right; exact Hy|exact Hp].
Qed.

Lemma countIf_cons (p : Q -> bool) (x : Q) (l : list Q) :
  countIf p (x :: l) = ((if p x then 1 else 0) + countIf p l)%nat.
Proof. unfold countIf. simpl. destruct (p x); reflexivity. Qed.

Lemma Qeq_bool_refl' (x : Q) : Qeq_bool x x = true.
Proof. apply Qeq_bool_iff. reflexivity. Qed.

Lemma Qeq_bool_compat (x a b : Q) : a == b -> Qeq_bool x a = Qeq_bool x b.
Proof.
  intros E. destruct (Qeq_bool x a) eqn:H1, (Qeq_bool x b) eqn:H2; try reflexivity.
  - apply Qeq_bool_iff in H1. rewrite E in H1. apply Qeq_bool_iff in H1. congruence.
  - apply Qeq_bool_iff in H2. rewrite <- E in H2. apply Qeq_bool_iff in H2. congruence.
Qed.

Lemma sorted_head_le (x y : Q) (l : list Q) :
  StronglySorted Qle (x :: l) -> In y (x :: l) -> x <= y.
Proof.
  intros Hs Hy. inversion Hs as [|? ? _ Hx]; subst.
  destruct Hy as [<-|Hy]; [apply Qle_refl|].
  rewrite List.Forall_forall in Hx. apply Hx, Hy.
Qed.

(** Two sorted lists with the same values, counted with
    multiplicity, agree position by position. *)
Lemma sorted_same_counts (l1 l2 : list Q) :
  StronglySorted Qle l1 -> StronglySorted Qle l2 ->
  (forall x, countIf (Qeq_bool x) l1 = countIf (Qeq_bool x) l2) ->
  Forall2 Qeq l1 l2.
Proof.
  revert l2. induction l1 as [|a l1 IH]; intros l2 H1 H2 Hc.
  - destruct l2 as [|b l2]; [constructor|].
    specialize (Hc b). rewrite countIf_cons, Qeq_bool_refl' in Hc.
    unfold countIf in Hc. simpl in Hc. lia.
  - destruct l2 as [|b l2].
    { specialize (Hc a). rewrite countIf_cons, Qeq_bool_refl' in Hc.
      unfold countIf in Hc. simpl in Hc. lia. }
    assert (Hab : a == b).
    { apply Qle_antisym.
      - destruct (countIf_pos_in (Qeq_bool b) (a :: l1)) as [y [Hy Hp]].
        { rewrite Hc, countIf_cons, Qeq_bool_refl'. lia. }
        apply Qeq_bool_iff in Hp. rewrite Hp.
        apply (sorted_head_le a y l1 H1 Hy).
      - destruct (countIf_pos_in (Qeq_bool a) (b :: l2)) as [y [Hy Hp]].
        { rewrite <- Hc, countIf_cons, Qeq_bool_refl'. lia. }
        apply Qeq_bool_iff in Hp. rewrite Hp.
        apply (sorted_head_le b y l2 H2 Hy). }
    constructor; [exact Hab|].
    apply IH.
    + inversion H1; assumption.
    + inversion H2; assumption.
    + intros x. specialize (Hc x). rewrite !countIf_cons in Hc.
      rewrite (Qeq_bool_compat x a b Hab) in Hc. lia.
Qed.

Lemma Forall2_Qeq_nth (l1 l2 : list Q) (i : nat) :
  Forall2 Qeq l1 l2 -> nth i l1 0 == nth i l2 0.
Proof.
  intros H. revert i. induction H as [|x y l1 l2 Hxy _ IH]; intros i.
  - destruct i; reflexivity.
  - destruct i as [|i]; simpl; [exact Hxy|apply IH].
Qed.

Lemma sort_of_perm (a b : list Q) :
  Permutation a b -> Forall2 Qeq (Stats.sort a) (Stats.sort b).
Proof.
  intros Hp. apply sorted_same_counts; try apply sort_sorted.
  intros x. apply countIf_perm.
  rewrite !sort_perm. exact Hp.
Qed.

Lemma med_perm (a b : list Q) :
  Permutation a b -> sameNumber (Stats.med a) (Stats.med b).
Proof.
  intros Hp.
  destruct a as [|x a].
  { apply Permutation_nil in Hp. subst. exact I. }
  assert (Hb : b <> []).
  { intros ->. symmetry in Hp. apply Permutation_nil in Hp. discriminate. }
  rewrite (med_value (x :: a)) by discriminate.
  rewrite (med_value b Hb). cbv zeta.
  pose proof (sort_of_perm _ _ Hp) as HF.
  assert (Hl : length (Stats.sort (x :: a)) = length (Stats.sort b)).
  { rewrite !sort_length. apply Permutation_length, Hp. }
  rewrite Hl. simpl.
  destruct (Nat.odd (length (Stats.sort b))).
  - apply Forall2_Qeq_nth, HF.
  - rewrite (Forall2_Qeq_nth _ _ (Nat.div2 (length (Stats.sort b)) - 1) HF).
    rewrite (Forall2_Qeq_nth _ _ (Nat.div2 (length (Stats.sort b))) HF).
    reflexivity.
Qed.

Lemma proportion_perm (thr : Q) (a b : list Q) :
  Permutation a b -> Stats.proportion thr a = Stats.proportion thr b.
Proof.
  intros Hp. unfold Stats.proportion.
  pose proof (countIf_perm (fun v => negb (Qle_bool v thr)) a b Hp) as Hc.
  unfold countIf in Hc. rewrite Hc, (Permutation_length Hp). reflexivity.
Qed.

Lemma computeStat_perm `{HostMath} (st : Statistic) (thr : Q) (a b : list Q) :
  st = StMedian \/ st = StProportion -> Permutation a b ->
  sameNumber (Stats.computeStat st thr a) (Stats.computeStat st thr b).
Proof.
  intros Hst Hp.
  destruct a as [|x a].
  { apply Permutation_nil in Hp. subst. exact I. }
  destruct b as [|y b].
  { symmetry in Hp. apply Permutation_nil in Hp. discriminate. }
  destruct Hst as [-> | ->]; cbn [Stats.computeStat].
  - apply med_perm, Hp.
  - rewrite (proportion_perm thr _ _ Hp). cbn [sameNumber]. reflexivity.
Qed.

(** X2.  The median and the proportion of a sample do not depend on
    the order in which the sample lists its values: any rearrangement
    gives the same number (the median sorts a copy, and ties do not
    matter; the proportion counts). *)
Theorem median_proportion_order_independent `{HostMath} (thr : Q) (a b : list Q) :
  Permutation a b ->
  sameNumber (Stats.med a) (Stats.med b) /\
  sameNumber (Stats.computeStat StMedian thr a) (Stats.computeStat StMedian thr b) /\
  sameNumber (Stats.computeStat StProportion thr a) (Stats.computeStat StProportion thr b).
Proof.
  intros Hp. split; [apply med_perm, Hp|].
  split; apply computeStat_perm; auto.
Qed.

Lemma median_proportion_order_independent_witness :
  sameNumber (Stats.med [3 # 4; 1 # 4; 1 # 2; 1 # 4]) (Stats.med [1 # 4; 3 # 4; 1 # 4; 1 # 2]) /\
  sameNumber (Stats.computeStat StMedian (1 # 2) [3 # 4; 1 # 4; 1 # 2; 1 # 4])
             (Stats.computeStat StMedian (1 # 2) [1 # 4; 3 # 4; 1 # 4; 1 # 2]) /\
  sameNumber (Stats.computeStat StProportion (1 # 2) [3 # 4; 1 # 4; 1 # 2; 1 # 4])
             (Stats.computeStat StProportion (1 # 2) [1 # 4; 3 # 4; 1 # 4; 1 # 2]).
Proof.
  apply (median_proportion_order_independent (1 # 2) [3 # 4; 1 # 4; 1 # 2; 1 # 4]
                                             [1 # 4; 3 # 4; 1 # 4; 1 # 2]).
  apply perm_trans with [1 # 4; 3 # 4; 1 # 2; 1 # 4].
  - apply perm_swap.
  - do 2 apply perm_skip. apply perm_swap.
Defined.

(** ** Ranges of the location statistics *)

Lemma sumQ_bounds (lo hi : Q) (a : list Q) :
  Forall (fun x => lo <= x /\ x <= hi) a ->
  inject_Z (Z.of_nat (length a)) * lo <= Spec.sumQ a /\
  Spec.sumQ a <= inject_Z (Z.of_nat (length a)) * hi.
Proof.
  induction 1 as [|x a [Hlo Hhi] _ [IH1 IH2]].
  - change (inject_Z (Z.of_nat (length (@nil Q)))) with 0.
    change (Spec.sumQ []) with 0. split; lra.
  - rewrite sumQ_cons. change (length (x :: a)) with (S (length a)).
    rewrite Nat2Z.inj_succ. unfold Z.succ. rewrite inject_Z_plus.
    change (inject_Z 1) with 1. rewrite !Qmult_plus_distr_l, !Qmult_1_l.
    split; lra.
Qed.

Lemma length_pos_Q {A : Type} (a : list A) :
  a <> [] -> 0 < inject_Z (Z.of_nat (length a)).
Proof.
  intros Ha. destruct a as [|x a]; [congruence|].
  change 0 with (inject_Z 0). rewrite <- Zlt_Qlt. simpl. lia.
Qed.

Lemma mean_bounds (lo hi : Q) (a : list Q) :
  a <> [] -> Forall (fun x => lo <= x /\ x <= hi) a ->
  exists m, Stats.mean a = Num m /\ lo <= m /\ m <= hi.
Proof.
  intros Ha Hf.
  pose proof (length_pos_Q a Ha) as Hn.
  destruct (sumQ_bounds lo hi a Hf) as [H1 H2].
  exists (Stats.sum a / inject_Z (Z.of_nat (length a))).
  split; [destruct a; [congruence|reflexivity]|].
  assert (Hs : Stats.sum a == Spec.sumQ a).
  { unfold Stats.sum. rewrite fold_left_Qplus. lra. }
  split.
  - apply Qle_shift_div_l; [exact Hn|]. rewrite Hs. lra.
  - apply Qle_shift_div_r; [exact Hn|]. rewrite Hs. lra.
Qed.

Lemma med_bounds (lo hi : Q) (a : list Q) :
  a <> [] -> Forall (fun x => lo <= x /\ x <= hi) a ->
  exists m, Stats.med a = Num m /\ lo <= m /\ m <= hi.
Proof.
  intros Ha Hf.
  rewrite (med_value a Ha). cbv zeta.
  assert (Hb : Forall (fun x => lo <= x /\ x <= hi) (Stats.sort a)).
  { eapply Permutation_Forall; [symmetry; apply sort_perm|exact Hf]. }
  assert (Hn : (0 < length (Stats.sort a))%nat).
  { rewrite sort_length. destruct a; [congruence|simpl; lia]. }
  rewrite List.Forall_forall in Hb.
  eexists. split; [reflexivity|].
  destruct (Nat.odd (length (Stats.sort a))) eqn:Hodd.
  - apply div2_odd in Hodd. apply Hb, nth_In. lia.
  - apply div2_even in Hodd.
    destruct (Hb (nth (Nat.div2 (length (Stats.sort a)) - 1) (Stats.sort a) 0)) as [A1 A2];
      [apply nth_In; lia|].
    destruct (Hb (nth (Nat.div2 (length (Stats.sort a))) (Stats.sort a) 0)) as [B1 B2];
      [apply nth_In; lia|].
    split; lra.
Qed.

Lemma filter_length_le {A : Type} (p : A -> bool) (l : list A) :
  (length (List.filter p l) <= length l)%nat.
Proof. induction l as [|x l IH]; simpl; [lia|]. destruct (p x); simpl; lia. Qed.

Lemma proportion_bounds (thr : Q) (xs : list Q) :
  xs <> [] -> 0 <= Stats.proportion thr xs /\ Stats.proportion thr xs <= 1.
Proof.
  intros Hx. pose proof (length_pos_Q xs Hx) as Hn.
  unfold Stats.proportion.
  pose proof (filter_length_le (fun v => negb (Qle_bool v thr)) xs) as Hl.
  split.
  - apply Qle_shift_div_l; [exact Hn|]. rewrite Qmult_0_l.
    change 0 with (inject_Z 0). rewrite <- Zle_Qle. lia.
  - apply Qle_shift_div_r; [exact Hn|]. rewrite Qmult_1_l.
    rewrite <- Zle_Qle. lia.
Qed.

(** X3.  For a non-empty sample whose values all lie in [lo, hi], the
    median statistic is a number in [lo, hi] and the proportion
    statistic is a number in [0, 1]: neither is NaN. *)
Theorem median_proportion_in_range `{HostMath} (thr lo hi : Q) (xs : list Q) :
  xs <> [] -> Forall (fun x => lo <= x /\ x <= hi) xs ->
  (exists v, Stats.computeStat StMedian thr xs = Num v /\ lo <= v /\ v <= hi) /\
  (exists v, Stats.computeStat StProportion thr xs = Num v /\ 0 <= v /\ v <= 1).
Proof.
  intros Hx Hf.
  destruct xs as [|x xs]; [congruence|].
  split.
  - apply (med_bounds lo hi (x :: xs)); assumption.
  - exists (Stats.proportion thr (x :: xs)). split; [reflexivity|].
    apply proportion_bounds. discriminate.
Qed.

Lemma median_proportion_in_range_witness :
  (exists v, Stats.computeStat StMedian (1 # 2) [1 # 4; 3 # 4] = Num v /\ 0 <= v /\ v <= 1) /\
  (exists v, Stats.computeStat StProportion (1 # 2) [1 # 4; 3 # 4] = Num v /\ 0 <= v /\ v <= 1).
Proof.
  apply (median_proportion_in_range (1 # 2) 0 1 [1 # 4; 3 # 4]).
  - discriminate.
  - repeat constructor; vm_compute; discriminate.
Defined.

(** ** The random generator *)

Lemma next_grid (s : Rng.stream) :
  exists z : Z, (0 <= z < two32)%Z /\ fst (Rng.next s) = (z # 4294967296).
Proof.
  unfold Rng.next; cbv zeta; cbn [fst].
  match goal with |- context [Rng.to_uint32 ?z # _] =>
    exists (Rng.to_uint32 z); split; [apply to_uint32_range|reflexivity] end.
Qed.

(** X4.  Every value the generator returns is a multiple of 2^-32 in
    [0, 1): it is never 1 and never closer to 1 than 2^-32. *)
Theorem rng_values_on_32_bit_grid (k : nat) (s : Rng.stream) :
  Forall (fun u => (exists z : Z, (0 <= z < two32)%Z /\ u = (z # 4294967296)) /\
                   0 <= u /\ u <= 1 - (1 # 4294967296))
         (fst (Rng.draws k s)).
Proof.
  revert s; induction k as [|k IH]; intros s; [constructor|].
  rewrite draws_S. cbn [fst]. constructor; [|apply IH].
  destruct (next_grid s) as [z [Hz ->]].
  split; [exists z; split; [exact Hz|reflexivity]|].
  unfold two32 in Hz. unfold Qle, Qminus, Qplus, Qopp; cbn [Qnum Qden]. split; lia.
Qed.

Lemma fl53_small (z : Z) : (z < 2 ^ 53)%Z -> Rng.fl53 z = z.
Proof.
  intros H. unfold Rng.fl53. destruct (Z.ltb_spec z (2 ^ 53)); [reflexivity|lia].
Qed.

Lemma next_counter (s : Rng.stream) :
  Rng.t (snd (Rng.next s)) = Rng.fl53 (Rng.t s + 0x6D2B79F5).
Proof. reflexivity. Qed.

Lemma draws_counter (k : nat) (s : Rng.stream) :
  (Rng.t s + Z.of_nat k * 0x6D2B79F5 < 2 ^ 53)%Z ->
  Rng.t (snd (Rng.draws k s)) = (Rng.t s + Z.of_nat k * 0x6D2B79F5)%Z.
Proof.
  revert s; induction k as [|k IH]; intros s Hk.
  - cbn [Rng.draws snd]. lia.
  - rewrite draws_S. cbn [snd].
    assert (E : Rng.t (snd (Rng.next s)) = (Rng.t s + 0x6D2B79F5)%Z).
    { rewrite next_counter. apply fl53_small. lia. }
    rewrite IH; rewrite E; lia.
Qed.

(** X5.  The counter of the generator is a JavaScript number that is
    never wrapped to 32 bits: after [k] calls it holds
    [(seed >>> 0) + k * 0x6D2B79F5] exactly, without any rounding, for
    the first 4.9 million calls. *)
Theorem rng_counter_exact (seed : Z) (k : nat) :
  (Z.of_nat k <= 4900000)%Z ->
  Rng.t (snd (Rng.draws k (Rng.create seed)))
  = (Rng.to_uint32 seed + Z.of_nat k * 0x6D2B79F5)%Z.
Proof.
  intros Hk.
  change (Rng.to_uint32 seed) with (Rng.t (Rng.create seed)).
  apply draws_counter.
  pose proof (to_uint32_range seed) as Hr. unfold two32 in Hr.
  change (Rng.t (Rng.create seed)) with (Rng.to_uint32 seed).
  assert (2 ^ 53 = 9007199254740992)%Z by reflexivity. lia.
Qed.

Lemma rng_counter_exact_witness :
  Rng.t (snd (Rng.draws 3 (Rng.create 1234)))
  = (Rng.to_uint32 1234 + Z.of_nat 3 * 0x6D2B79F5)%Z.
Proof.
  apply (rng_counter_exact 1234 3). vm_compute. discriminate.
Defined.

(** ** The sampler *)

(** X6.  With a non-zero total weight, every generator value [u > 0]
    selects a bin of positive weight; the value [u = 0] selects bin 0
    whatever its weight. *)
Theorem sampler_picks_weighted_bins (cols : nat) (weights : list Z) (u : Q) :
  (0 < cols)%nat ->
  Forall (fun w => 0 <= w)%Z weights ->
  Sampler.totalWeight cols weights <> 0%Z ->
  0 <= u -> u < 1 ->
  let c := Sampler.pick cols weights (Sampler.totalWeight cols weights) u in
  (0 < u -> (0 < rd weights c)%Z) /\
  (u == 0 -> c = 0%nat).
Proof.
  intros Hc Hw Ht Hu0 Hu1. cbv zeta.
  rewrite totalWeight_spec in *.
  destruct (pick_first_reaching cols weights u Hw Ht Hu0 Hu1) as [[Hr Hfirst] Hlt].
  remember (Sampler.pick cols weights (Spec.totalWeight cols weights) u) as c eqn:Ec.
  clear Ec.
  assert (Htot : (0 < Spec.totalWeight cols weights)%Z).
  { assert (0 <= Spec.totalWeight cols weights)%Z; [|lia].
    change (Spec.totalWeight cols weights) with (prefix weights cols).
    apply prefix_nonneg, Hw. }
  split.
  - intros Hpos.
    assert (Htp : 0 < u * inject_Z (Spec.totalWeight cols weights)).
    { apply Qmult_lt_0_compat; [exact Hpos|].
      change 0 with (inject_Z 0). rewrite <- Zlt_Qlt. exact Htot. }
    rewrite cumulative_prefix, prefix_S in Hr.
    destruct c as [|c'].
    + change (prefix weights 0) with 0%Z in Hr. rewrite Z.add_0_l in Hr.
      assert (0 < inject_Z (rd weights 0)) by lra.
      change 0 with (inject_Z 0) in H. rewrite <- Zlt_Qlt in H. exact H.
    + specialize (Hfirst c' (Nat.lt_succ_diag_r c')).
      rewrite cumulative_prefix in Hfirst.
      apply Qnot_le_lt in Hfirst.
      assert (inject_Z (prefix weights (S c'))
              < inject_Z (prefix weights (S c') + rd weights (S c'))) by lra.
      rewrite <- Zlt_Qlt in H. lia.
  - intros Hz.
    destruct c as [|c']; [reflexivity|exfalso].
    apply (Hfirst 0%nat (Nat.lt_0_succ c')).
    rewrite Hz, Qmult_0_l, cumulative_prefix.
    change 0 with (inject_Z 0). rewrite <- Zle_Qle. apply prefix_nonneg, Hw.
Qed.

Lemma sampler_picks_weighted_bins_witness :
  let c := Sampler.pick 4 [0; 3; 0; 1]%Z (Sampler.totalWeight 4 [0; 3; 0; 1]%Z) (1 # 2) in
  (0 < 1 # 2 -> (0 < rd [0; 3; 0; 1]%Z c)%Z) /\
  (1 # 2 == 0 -> c = 0%nat).
Proof.
  apply (sampler_picks_weighted_bins 4 [0; 3; 0; 1]%Z (1 # 2)).
  - lia.
  - repeat constructor; lia.
  - vm_compute. discriminate.
  - vm_compute. discriminate.
  - reflexivity.
Defined.

Lemma center_range (cols c : nat) :
  (c < cols)%nat -> 0 < Pop.center cols c /\ Pop.center cols c < 1.
Proof.
  intros Hc. unfold Pop.center.
  assert (Hn : 0 < inject_Z (Z.of_nat cols)).
  { change 0 with (inject_Z 0). rewrite <- Zlt_Qlt. lia. }
  assert (H0 : 0 <= inject_Z (Z.of_nat c)).
  { change 0 with (inject_Z 0). rewrite <- Zle_Qle. lia. }
  assert (H1 : inject_Z (Z.of_nat c) + 1 <= inject_Z (Z.of_nat cols)).
  { change 1 with (inject_Z 1). rewrite <- inject_Z_plus, <- Zle_Qle. lia. }
  split.
  - apply Qlt_shift_div_l; [exact Hn|]. lra.
  - apply Qlt_shift_div_r; [exact Hn|]. lra.
Qed.

Lemma sampleN_values (cols : nat) (weights : list Z) (n : nat) (rng : Rng.stream) :
  fst (fst (Sampler.sampleN cols weights n rng))
  = map (Pop.center cols) (snd (fst (Sampler.sampleN cols weights n rng))) /\
  length (fst (fst (Sampler.sampleN cols weights n rng))) = n.
Proof.
  unfold Sampler.sampleN. rewrite loop_spec. cbn [fst snd].
  split; [reflexivity|]. rewrite !length_map. apply draws_length.
Qed.

Lemma sampleN_values_range (cols : nat) (weights : list Z) (n : nat) (rng : Rng.stream) :
  (0 < cols)%nat ->
  Forall (fun x => 0 < x /\ x < 1) (fst (fst (Sampler.sampleN cols weights n rng))).
Proof.
  intros Hc. destruct (sampleN_values cols weights n rng) as [-> _].
  apply Forall_map. eapply Forall_impl; [apply sampleN_columns_lt, Hc|].
  intros c Hlt. apply center_range, Hlt.
Qed.

(** X7.  Every value of a drawn sample is the centre of a bin, strictly
    between 0 and 1; hence the mean, the median and the proportion of
    a drawn sample of at least one value are numbers in [0, 1], the
    domain their sampling distribution is binned over. *)
Theorem drawn_sample_statistic_in_domain `{HostMath} (thr : Q) (cols : nat)
    (weights : list Z) (n : nat) (rng : Rng.stream) :
  (0 < cols)%nat -> (0 < n)%nat ->
  let xs := fst (fst (Sampler.sampleN cols weights n rng)) in
  Forall (fun x => 0 < x /\ x < 1) xs /\
  (exists v, Stats.computeStat StMean thr xs = Num v /\ 0 <= v /\ v <= 1) /\
  (exists v, Stats.computeStat StMedian thr xs = Num v /\ 0 <= v /\ v <= 1) /\
  (exists v, Stats.computeStat StProportion thr xs = Num v /\ 0 <= v /\ v <= 1).
Proof.
  intros Hc Hn xs.
  pose proof (sampleN_values_range cols weights n rng Hc) as Hr. fold xs in Hr.
  split; [exact Hr|].
  assert (Hne : xs <> []).
  { destruct (sampleN_values cols weights n rng) as [_ Hl]. fold xs in Hl.
    intros E. rewrite E in Hl. simpl in Hl. lia. }
  assert (Hle : Forall (fun x => 0 <= x /\ x <= 1) xs).
  { eapply Forall_impl; [exact Hr|].
    intros x [H0 H1]. split; apply Qlt_le_weak; assumption. }
  clearbody xs. destruct xs as [|x xs]; [congruence|].
  split; [|split].
  - apply (mean_bounds 0 1 (x :: xs)); assumption.
  - apply (med_bounds 0 1 (x :: xs)); assumption.
  - exists (Stats.proportion thr (x :: xs)). split; [reflexivity|].
    apply proportion_bounds. discriminate.
Qed.

Lemma drawn_sample_statistic_in_domain_witness :
  let xs := fst (fst (Sampler.sampleN 4 [0; 3; 0; 1]%Z 3 (Rng.create 1234))) in
  Forall (fun x => 0 < x /\ x < 1) xs /\
  (exists v, Stats.computeStat StMean (1 # 2) xs = Num v /\ 0 <= v /\ v <= 1) /\
  (exists v, Stats.computeStat StMedian (1 # 2) xs = Num v /\ 0 <= v /\ v <= 1) /\
  (exists v, Stats.computeStat StProportion (1 # 2) xs = Num v /\ 0 <= v /\ v <= 1).
Proof.
  apply (drawn_sample_statistic_in_domain (1 # 2) 4 [0; 3; 0; 1]%Z 3 (Rng.create 1234)); lia.
Defined.

(** ** The sampling distribution *)

Lemma binOf_lt (B : nat) (eps : Q) (dom : Q * Q) (q : Q) :
  (0 < B)%nat -> exists b, Bins.binOf B eps dom (Num q) = Some b /\ (b < B)%nat.
Proof.
  intros HB. unfold Bins.binOf. destruct dom as [lo hi].
  eexists. split; [reflexivity|]. unfold clampZ. lia.
Qed.

Lemma wrap32_small (z : Z) : (0 <= z < two32)%Z -> wrap32 z = z.
Proof. intros H. unfold wrap32. apply Z.mod_small, H. Qed.

Lemma inc32_spec (l : list Z) (i : nat) :
  (i < length l)%nat -> Forall (fun z => 0 <= z)%Z l -> (sumZ l < two32 - 1)%Z ->
  inc32 l i = <[ i := (rd l i + 1)%Z ]> l /\
  length (inc32 l i) = length l /\
  Forall (fun z => 0 <= z)%Z (inc32 l i) /\
  sumZ (inc32 l i) = (sumZ l + 1)%Z.
Proof.
  intros Hi Hn Hs. pose proof (rd_le_sum l i Hn) as Hr.
  unfold inc32. rewrite wrap32_small by lia.
  split; [reflexivity|]. split; [apply length_insert|].
  split; [apply insert_nonneg; [lia|exact Hn]|].
  rewrite sumZ_insert by exact Hi. lia.
Qed.

Lemma rd_insert_ne (l : list Z) (i j : nat) (x : Z) :
  i <> j -> rd (<[ i := x ]> l) j = rd l j.
Proof. intros H. unfold rd. rewrite list_lookup_insert_ne by exact H. reflexivity. Qed.

Lemma rd_insert_eq (l : list Z) (i : nat) (x : Z) :
  (i < length l)%nat -> rd (<[ i := x ]> l) i = x.
Proof.
  intros H. unfold rd. rewrite list_lookup_insert_eq by exact H. reflexivity.
Qed.

(** X8.  [addToSamplingDistribution] of a number records exactly one
    observation: one bin inside the histogram goes up by one, every
    other bin is unchanged, and the total count goes up by one (as
    long as the 32-bit counters do not overflow).  A NaN value leaves
    the engine as it is. *)
Theorem add_records_one_observation (e : StatEngine.t) :
  (0 < StatEngine.statBins e)%nat ->
  length (StatEngine.samplingDistData e) = StatEngine.statBins e ->
  Forall (fun z => 0 <= z)%Z (StatEngine.samplingDistData e) ->
  (sumZ (StatEngine.samplingDistData e) < two32 - 1)%Z ->
  (forall v : Q,
      let data := StatEngine.samplingDistData e in
      let data' := StatEngine.samplingDistData
                     (StatEngine.addToSamplingDistribution (Num v) e) in
      exists b, (b < StatEngine.statBins e)%nat /\
        rd data' b = (rd data b + 1)%Z /\
        (forall j, j <> b -> rd data' j = rd data j) /\
        length data' = length data /\
        sumZ data' = (sumZ data + 1)%Z) /\
  StatEngine.addToSamplingDistribution NaN e = e.
Proof.
  intros HB Hl Hn Hs. split.
  - intros v. cbv zeta. unfold StatEngine.addToSamplingDistribution; cbn [StatEngine.samplingDistData].
    destruct (binFor_lt e v HB) as [b [-> Hb]].
    cbn [Bins.inc32_at].
    destruct (inc32_spec (StatEngine.samplingDistData e) b) as [E [L [_ S]]];
      [lia|exact Hn|exact Hs|].
    exists b. split; [exact Hb|]. rewrite E in *.
    split; [apply rd_insert_eq; lia|].
    split; [intros j Hj; apply rd_insert_ne; congruence|].
    split; [exact L|exact S].
  - destruct e. reflexivity.
Qed.

Lemma add_records_one_observation_witness :
  let e := {| StatEngine.cols := 4; StatEngine.statBins := 4;
              StatEngine.populationData := [0; 3; 0; 1]%Z;
              StatEngine.sampleData := zeros 4;
              StatEngine.samplingDistData := [0; 2; 5; 0]%Z;
              StatEngine.currentSample := [];
              StatEngine.statistic := StMean; StatEngine.threshold := 1 # 2;
              StatEngine.rng := Rng.create 1234 |} in
  let data := StatEngine.samplingDistData e in
  let data' := StatEngine.samplingDistData
                 (StatEngine.addToSamplingDistribution (Num (3 # 8)) e) in
  exists b, (b < StatEngine.statBins e)%nat /\
    rd data' b = (rd data b + 1)%Z /\
    (forall j, j <> b -> rd data' j = rd data j) /\
    length data' = length data /\
    sumZ data' = (sumZ data + 1)%Z.
Proof.
  intros e.
  refine (proj1 (add_records_one_observation e _ _ _ _) (3 # 8)).
  - vm_compute. lia.
  - reflexivity.
  - repeat constructor; discriminate.
  - vm_compute. reflexivity.
Defined.

Lemma computeStat_is_number `{HostMath} (st : Statistic) (thr : Q) (xs : list Q) :
  xs <> [] -> st <> StOther -> exists v, Stats.computeStat st thr xs = Num v.
Proof.
  intros Hx Hst. destruct xs as [|x xs]; [congruence|].
  destruct st; try congruence; cbn [Stats.computeStat].
  - eexists; reflexivity.
  - rewrite (med_value (x :: xs)) by discriminate. eexists; reflexivity.
  - unfold Stats.robustSD. destruct (Stats.varianceUnbiased (x :: xs)) as [|v].
    + eexists; reflexivity.
    + destruct (Qle_bool 0 v); eexists; reflexivity.
  - eexists; reflexivity.
Qed.

Lemma draws_add (m n : nat) (s : Rng.stream) :
  snd (Rng.draws (m + n) s) = snd (Rng.draws n (snd (Rng.draws m s))).
Proof.
  revert s; induction m as [|m IH]; intros s; [reflexivity|].
  change (S m + n)%nat with (S (m + n)). rewrite !draws_S. cbn [snd]. apply IH.
Qed.

Lemma sampleN_stream (cols : nat) (weights : list Z) (n : nat) (rng : Rng.stream) :
  snd (Sampler.sampleN cols weights n rng) = snd (Rng.draws n rng).
Proof. unfold Sampler.sampleN. rewrite loop_spec. reflexivity. Qed.

Lemma sampleN_nonempty (cols : nat) (weights : list Z) (n : nat) (rng : Rng.stream) :
  (0 < n)%nat -> fst (fst (Sampler.sampleN cols weights n rng)) <> [].
Proof.
  intros Hn E. destruct (sampleN_values cols weights n rng) as [_ Hl].
  rewrite E in Hl. simpl in Hl. lia.
Qed.

(** A histogram of [B] non-negative 32-bit counters holding [s]
    observations, after one more observation of a number. *)
Lemma inc32_at_bin (B : nat) (eps : Q) (dom : Q * Q) (q : Q) (data : list Z) :
  (0 < B)%nat -> length data = B -> Forall (fun z => 0 <= z)%Z data ->
  (sumZ data < two32 - 1)%Z ->
  let data' := Bins.inc32_at data (Bins.binOf B eps dom (Num q)) in
  length data' = B /\ Forall (fun z => 0 <= z)%Z data' /\
  sumZ data' = (sumZ data + 1)%Z.
Proof.
  intros HB Hl Hn Hs. cbv zeta.
  destruct (binOf_lt B eps dom q HB) as [b [-> Hb]]. cbn [Bins.inc32_at].
  destruct (inc32_spec data b) as [_ [L [N S]]]; [lia|exact Hn|exact Hs|].
  split; [lia|]. split; assumption.
Qed.

Lemma inc32_at_binFor (e : StatEngine.t) (q : Q) (data : list Z) :
  (0 < StatEngine.statBins e)%nat -> length data = StatEngine.statBins e ->
  Forall (fun z => 0 <= z)%Z data ->
  (sumZ data < two32 - 1)%Z ->
  let data' := Bins.inc32_at data (StatEngine.binFor e (Num q)) in
  length data' = StatEngine.statBins e /\ Forall (fun z => 0 <= z)%Z data' /\
  sumZ data' = (sumZ data + 1)%Z.
Proof.
  intros HB Hl Hn Hs. cbv zeta.
  destruct (binFor_lt e q HB) as [b [-> Hb]]. cbn [Bins.inc32_at].
  destruct (inc32_spec data b) as [_ [L [N S]]]; [lia|exact Hn|exact Hs|].
  split; [lia|]. split; assumption.
Qed.

Lemma bulkStep_spec `{HostMath} (n : nat) (e : StatEngine.t) :
  (0 < n)%nat -> (0 < StatEngine.statBins e)%nat ->
  StatEngine.statistic e <> StOther ->
  length (StatEngine.samplingDistData e) = StatEngine.statBins e ->
  Forall (fun z => 0 <= z)%Z (StatEngine.samplingDistData e) ->
  (sumZ (StatEngine.samplingDistData e) < two32 - 1)%Z ->
  let e' := StatEngine.bulkStep n e in
  (StatEngine.cols e' = StatEngine.cols e /\
   StatEngine.statBins e' = StatEngine.statBins e /\
   StatEngine.statistic e' = StatEngine.statistic e /\
   StatEngine.populationData e' = StatEngine.populationData e /\
   StatEngine.sampleData e' = StatEngine.sampleData e) /\
  StatEngine.rng e' = snd (Rng.draws n (StatEngine.rng e)) /\
  length (StatEngine.samplingDistData e') = StatEngine.statBins e /\
  Forall (fun z => 0 <= z)%Z (StatEngine.samplingDistData e') /\
  sumZ (StatEngine.samplingDistData e') = (sumZ (StatEngine.samplingDistData e) + 1)%Z.
Proof.
  intros Hn HB Hst Hl Hnn Hs. cbv zeta.
  unfold StatEngine.bulkStep, StatEngine.drawSample.
  pose proof (sampleN_stream (StatEngine.cols e) (StatEngine.populationData e) n
                             (StatEngine.rng e)) as Hr.
  pose proof (sampleN_nonempty (StatEngine.cols e) (StatEngine.populationData e) n
                               (StatEngine.rng e) Hn) as Hne.
  destruct (Sampler.sampleN _ _ _ _) as [[values columns] r]. cbn [fst snd] in Hr, Hne.
  unfold StatEngine.computeStatistic; cbn [StatEngine.statistic StatEngine.threshold].
  destruct (computeStat_is_number (StatEngine.statistic e) (StatEngine.threshold e)
                                  values Hne Hst) as [v ->].
  unfold StatEngine.addToSamplingDistribution.
  cbn [StatEngine.cols StatEngine.statBins StatEngine.statistic StatEngine.populationData
       StatEngine.sampleData StatEngine.rng StatEngine.samplingDistData].
  split; [repeat split|]. split; [exact Hr|].
  match goal with
  | |- context [StatEngine.binFor ?e1 _] => apply (inc32_at_binFor e1); assumption
  end.
Qed.

Lemma bulkStep_empty `{HostMath} (e : StatEngine.t) :
  StatEngine.samplingDistData (StatEngine.bulkStep 0 e) = StatEngine.samplingDistData e /\
  StatEngine.rng (StatEngine.bulkStep 0 e) = StatEngine.rng e.
Proof.
  unfold StatEngine.bulkStep, StatEngine.drawSample, Sampler.sampleN.
  cbn [Sampler.loop]. unfold StatEngine.computeStatistic. cbn [Stats.computeStat].
  split; reflexivity.
Qed.

(** X9.  [runBulkSimulation(sampleSize, iterations)] with a sample size
    of at least 1 records exactly [iterations] observations in the
    sampling distribution and consumes exactly
    [iterations * sampleSize] values of the generator; it changes
    neither the population nor the displayed sample histogram.  With a
    sample size of 0 every statistic is NaN and nothing is recorded. *)
Theorem bulk_simulation_records_every_iteration `{HostMath} :
  (forall (n iterations : nat) (e : StatEngine.t),
      (0 < n)%nat -> (0 < StatEngine.statBins e)%nat ->
      StatEngine.statistic e <> StOther ->
      length (StatEngine.samplingDistData e) = StatEngine.statBins e ->
      Forall (fun z => 0 <= z)%Z (StatEngine.samplingDistData e) ->
      (sumZ (StatEngine.samplingDistData e) + Z.of_nat iterations < two32)%Z ->
      let e' := StatEngine.runBulkSimulation n iterations e in
      sumZ (StatEngine.samplingDistData e')
      = (sumZ (StatEngine.samplingDistData e) + Z.of_nat iterations)%Z /\
      StatEngine.rng e' = snd (Rng.draws (iterations * n) (StatEngine.rng e)) /\
      StatEngine.populationData e' = StatEngine.populationData e /\
      StatEngine.sampleData e' = StatEngine.sampleData e) /\
  (forall (iterations : nat) (e : StatEngine.t),
      StatEngine.samplingDistData (StatEngine.runBulkSimulation 0 iterations e)
      = StatEngine.samplingDistData e).
Proof.
  split.
  - intros n iterations e Hn HB Hst Hl Hnn Hs. cbv zeta.
    unfold StatEngine.runBulkSimulation.
    assert (G : forall k, (k <= iterations)%nat ->
      let e' := Nat.iter k (StatEngine.bulkStep n) e in
      (StatEngine.statBins e' = StatEngine.statBins e /\
       StatEngine.statistic e' = StatEngine.statistic e /\
       StatEngine.populationData e' = StatEngine.populationData e /\
       StatEngine.sampleData e' = StatEngine.sampleData e) /\
      StatEngine.rng e' = snd (Rng.draws (k * n) (StatEngine.rng e)) /\
      length (StatEngine.samplingDistData e') = StatEngine.statBins e /\
      Forall (fun z => 0 <= z)%Z (StatEngine.samplingDistData e') /\
      sumZ (StatEngine.samplingDistData e')
      = (sumZ (StatEngine.samplingDistData e) + Z.of_nat k)%Z).
    { induction k as [|k IH]; intros Hk; cbv zeta.
      - cbn [Nat.iter nat_rect Nat.mul Rng.draws snd].
        repeat split; try assumption. lia.
      - destruct (IH ltac:(lia)) as [[B1 [B2 [B3 B4]]] [R [L [N HS]]]].
        cbn [Nat.iter nat_rect].
        change (nat_rect (fun _ => StatEngine.t) e (fun _ => StatEngine.bulkStep n) k)
          with (Nat.iter k (StatEngine.bulkStep n) e).
        set (ek := Nat.iter k (StatEngine.bulkStep n) e) in *.
        assert (HBk : (0 < StatEngine.statBins ek)%nat) by (rewrite B1; exact HB).
        assert (Hstk : StatEngine.statistic ek <> StOther) by congruence.
        assert (Hlk : length (StatEngine.samplingDistData ek) = StatEngine.statBins ek)
          by congruence.
        assert (Hsk : (sumZ (StatEngine.samplingDistData ek) < two32 - 1)%Z) by lia.
        destruct (bulkStep_spec n ek Hn HBk Hstk Hlk N Hsk)
          as [[_ [C1 [C2 [C3 C4]]]] [R' [L' [N' HS']]]].
        split; [repeat split; congruence|].
        split.
        { rewrite R', R. change (S k * n)%nat with (n + k * n)%nat.
          rewrite (Nat.add_comm n). symmetry. apply draws_add. }
        split; [congruence|]. split; [exact N'|]. rewrite HS', HS. lia. }
    destruct (G iterations (Nat.le_refl _)) as [[_ [_ [B3 B4]]] [R [_ [_ HS]]]].
    repeat split; assumption.
  - intros iterations e. unfold StatEngine.runBulkSimulation.
    induction iterations as [|k IH]; [reflexivity|].
    cbn [Nat.iter nat_rect].
    change (nat_rect (fun _ => StatEngine.t) e (fun _ => StatEngine.bulkStep 0) k)
      with (Nat.iter k (StatEngine.bulkStep 0) e).
    rewrite (proj1 (bulkStep_empty _)). exact IH.
Qed.

Lemma bulk_simulation_records_every_iteration_witness :
  let e := {| StatEngine.cols := 4; StatEngine.statBins := 4;
              StatEngine.populationData := [0; 3; 0; 1]%Z;
              StatEngine.sampleData := zeros 4;
              StatEngine.samplingDistData := [0; 2; 5; 0]%Z;
              StatEngine.currentSample := [];
              StatEngine.statistic := StMean; StatEngine.threshold := 1 # 2;
              StatEngine.rng := Rng.create 1234 |} in
  let e' := StatEngine.runBulkSimulation 3 5 e in
  sumZ (StatEngine.samplingDistData e')
  = (sumZ (StatEngine.samplingDistData e) + Z.of_nat 5)%Z /\
  StatEngine.rng e' = snd (Rng.draws (5 * 3) (StatEngine.rng e)) /\
  StatEngine.populationData e' = StatEngine.populationData e /\
  StatEngine.sampleData e' = StatEngine.sampleData e.
Proof.
  intros e.
  refine (proj1 bulk_simulation_records_every_iteration 3%nat 5%nat e _ _ _ _ _ _).
  - lia.
  - vm_compute. lia.
  - discriminate.
  - reflexivity.
  - repeat constructor; discriminate.
  - vm_compute. reflexivity.
Defined.

(** ** The turbo mode *)

Lemma turboStep_spec `{HostMath} (n : nat) (e : Engine.t) :
  (0 < n)%nat -> (0 < Engine.STAT_BINS e)%nat ->
  Engine.statistic e <> StOther ->
  length (Engine.botCounts e) = Engine.STAT_BINS e ->
  Forall (fun z => 0 <= z)%Z (Engine.botCounts e) ->
  (sumZ (Engine.botCounts e) < two32 - 1)%Z ->
  let e' := Engine.turboStep n e in
  (Engine.COLS e' = Engine.COLS e /\ Engine.STAT_BINS e' = Engine.STAT_BINS e /\
   Engine.statistic e' = Engine.statistic e /\ Engine.popCounts e' = Engine.popCounts e /\
   Engine.midCounts e' = Engine.midCounts e /\ Engine.lastSample e' = Engine.lastSample e /\
   Engine.sampleParticles e' = Engine.sampleParticles e /\
   Engine.statParticles e' = Engine.statParticles e /\
   Engine.emissionPlan e' = Engine.emissionPlan e /\
   Engine.gathering e' = Engine.gathering e) /\
  Engine.rng e' = snd (Rng.draws n (Engine.rng e)) /\
  length (Engine.botCounts e') = Engine.STAT_BINS e /\
  Forall (fun z => 0 <= z)%Z (Engine.botCounts e') /\
  sumZ (Engine.botCounts e') = (sumZ (Engine.botCounts e) + 1)%Z.
Proof.
  intros Hn HB Hst Hl Hnn Hs. cbv zeta.
  unfold Engine.turboStep, Engine.sampleN, Engine.turboBin, Engine.computeStat,
    Engine.statDomain.
  pose proof (sampleN_stream (Engine.COLS e) (Engine.popCounts e) n (Engine.rng e)) as Hr.
  pose proof (sampleN_nonempty (Engine.COLS e) (Engine.popCounts e) n (Engine.rng e) Hn)
    as Hne.
  destruct (Sampler.sampleN _ _ _ _) as [[xs columns] r]. cbn [fst snd] in Hr, Hne.
  destruct (computeStat_is_number (Engine.statistic e) (Engine.threshold e) xs Hne Hst)
    as [v ->].
  unfold Engine.with_rng_bot.
  cbn [Engine.COLS Engine.STAT_BINS Engine.statistic Engine.popCounts Engine.midCounts
       Engine.lastSample Engine.sampleParticles Engine.statParticles Engine.emissionPlan
       Engine.gathering Engine.rng Engine.botCounts].
  split; [repeat split|]. split; [exact Hr|].
  apply inc32_at_bin; assumption.
Qed.

Lemma turboStep_empty `{HostMath} (e : Engine.t) :
  Engine.botCounts (Engine.turboStep 0 e) = Engine.botCounts e.
Proof.
  unfold Engine.turboStep, Engine.sampleN, Sampler.sampleN, Engine.turboBin,
    Engine.computeStat.
  cbn [Sampler.loop Stats.computeStat Bins.binOf]. reflexivity.
Qed.

Lemma turbo_iterations `{HostMath} (n : nat) (e : Engine.t) (iterations : nat) :
  (0 < n)%nat -> (0 < Engine.STAT_BINS e)%nat ->
  Engine.statistic e <> StOther ->
  length (Engine.botCounts e) = Engine.STAT_BINS e ->
  Forall (fun z => 0 <= z)%Z (Engine.botCounts e) ->
  (sumZ (Engine.botCounts e) + Z.of_nat iterations < two32)%Z ->
  forall k, (k <= iterations)%nat ->
    let e' := Nat.iter k (Engine.turboStep n) e in
    (Engine.STAT_BINS e' = Engine.STAT_BINS e /\
     Engine.statistic e' = Engine.statistic e /\ Engine.popCounts e' = Engine.popCounts e /\
     Engine.midCounts e' = Engine.midCounts e /\ Engine.lastSample e' = Engine.lastSample e /\
     Engine.sampleParticles e' = Engine.sampleParticles e /\
     Engine.statParticles e' = Engine.statParticles e /\
     Engine.emissionPlan e' = Engine.emissionPlan e /\
     Engine.gathering e' = Engine.gathering e) /\
    Engine.rng e' = snd (Rng.draws (k * n) (Engine.rng e)) /\
    length (Engine.botCounts e') = Engine.STAT_BINS e /\
    Forall (fun z => 0 <= z)%Z (Engine.botCounts e') /\
    sumZ (Engine.botCounts e') = (sumZ (Engine.botCounts e) + Z.of_nat k)%Z.
Proof.
  intros Hn HB Hst Hl Hnn Hs.
  induction k as [|k IH]; intros Hk; cbv zeta.
  - cbn [Nat.iter nat_rect Nat.mul Rng.draws snd].
    repeat split; try assumption. lia.
  - destruct (IH ltac:(lia)) as [[B1 [B2 [B3 [B4 [B5 [B6 [B7 [B8 B9]]]]]]]] [R [L [N HS]]]].
    cbn [Nat.iter nat_rect].
    change (nat_rect (fun _ => Engine.t) e (fun _ => Engine.turboStep n) k)
      with (Nat.iter k (Engine.turboStep n) e).
    set (ek := Nat.iter k (Engine.turboStep n) e) in *.
    assert (HBk : (0 < Engine.STAT_BINS ek)%nat) by (rewrite B1; exact HB).
    assert (Hstk : Engine.statistic ek <> StOther) by congruence.
    assert (Hlk : length (Engine.botCounts ek) = Engine.STAT_BINS ek) by congruence.
    assert (Hsk : (sumZ (Engine.botCounts ek) < two32 - 1)%Z) by lia.
    destruct (turboStep_spec n ek Hn HBk Hstk Hlk N Hsk)
      as [[_ [C1 [C2 [C3 [C4 [C5 [C6 [C7 [C8 C9]]]]]]]]] [R' [L' [N' HS']]]].
    split; [repeat split; congruence|].
    split.
    { rewrite R', R. change (S k * n)%nat with (n + k * n)%nat.
      rewrite (Nat.add_comm n). symmetry. apply draws_add. }
    split; [congruence|]. split; [exact N'|]. rewrite HS', HS. lia.
Qed.

Lemma turbo_after `{HostMath} (n iterations : nat) (e : Engine.t) :
  (0 < n)%nat -> (0 < Engine.STAT_BINS e)%nat ->
  Engine.statistic e <> StOther ->
  length (Engine.botCounts e) = Engine.STAT_BINS e ->
  Forall (fun z => 0 <= z)%Z (Engine.botCounts e) ->
  (sumZ (Engine.botCounts e) + Z.of_nat iterations < two32)%Z ->
  let e1 := Nat.iter iterations (Engine.turboStep n) e in
  let e' := Engine.with_rng_bot (Engine.rng e1) (Engine.botCounts e1) true e1 in
  sumZ (Engine.botCounts e') = (sumZ (Engine.botCounts e) + Z.of_nat iterations)%Z /\
  Engine.rng e' = snd (Rng.draws (iterations * n) (Engine.rng e)) /\
  Engine.needsRedraw e' = true /\
  Engine.midCounts e' = Engine.midCounts e /\
  Engine.lastSample e' = Engine.lastSample e /\
  Engine.sampleParticles e' = Engine.sampleParticles e /\
  Engine.statParticles e' = Engine.statParticles e /\
  Engine.emissionPlan e' = Engine.emissionPlan e /\
  Engine.gathering e' = Engine.gathering e.
Proof.
  intros Hn HB Hst Hl Hnn Hs. cbv zeta.
  destruct (turbo_iterations n e iterations Hn HB Hst Hl Hnn Hs iterations (Nat.le_refl _))
    as [[_ [_ [_ [B4 [B5 [B6 [B7 [B8 B9]]]]]]]] [R [_ [_ HS]]]].
  unfold Engine.with_rng_bot.
  cbn [Engine.botCounts Engine.rng Engine.needsRedraw Engine.midCounts Engine.lastSample
       Engine.sampleParticles Engine.statParticles Engine.emissionPlan Engine.gathering].
  repeat split; assumption.
Qed.

Lemma turbo_empty_after `{HostMath} (iterations : nat) (e : Engine.t) :
  let e1 := Nat.iter iterations (Engine.turboStep 0) e in
  Engine.botCounts (Engine.with_rng_bot (Engine.rng e1) (Engine.botCounts e1) true e1)
  = Engine.botCounts e.
Proof.
  cbv zeta. unfold Engine.with_rng_bot. cbn [Engine.botCounts].
  induction iterations as [|k IH]; [reflexivity|].
  cbn [Nat.iter nat_rect].
  change (nat_rect (fun _ => Engine.t) e (fun _ => Engine.turboStep 0) k)
    with (Nat.iter k (Engine.turboStep 0) e).
  rewrite turboStep_empty. exact IH.
Qed.

(** X10.  The repeat-1000 turbo mode, for a sample size of at least 1,
    adds exactly 1000 observations to the sampling distribution and
    consumes exactly [1000 * n] values of the generator; it requests a
    repaint and touches neither the sample tray, the last sample, the
    particles nor a running emission or gather.  With a sample size of
    0 every statistic is NaN and no bin changes. *)
Theorem turbo_records_1000_observations `{HostMath} :
  (forall (n : nat) (e : Engine.t),
      (0 < n)%nat -> (0 < Engine.STAT_BINS e)%nat ->
      Engine.statistic e <> StOther ->
      length (Engine.botCounts e) = Engine.STAT_BINS e ->
      Forall (fun z => 0 <= z)%Z (Engine.botCounts e) ->
      (sumZ (Engine.botCounts e) + Z.of_nat 1000 < two32)%Z ->
      let e' := Engine.handleRepeatTurbo n e in
      sumZ (Engine.botCounts e') = (sumZ (Engine.botCounts e) + Z.of_nat 1000)%Z /\
      Engine.rng e' = snd (Rng.draws (1000 * n) (Engine.rng e)) /\
      Engine.needsRedraw e' = true /\
      Engine.midCounts e' = Engine.midCounts e /\
      Engine.lastSample e' = Engine.lastSample e /\
      Engine.sampleParticles e' = Engine.sampleParticles e /\
      Engine.statParticles e' = Engine.statParticles e /\
      Engine.emissionPlan e' = Engine.emissionPlan e /\
      Engine.gathering e' = Engine.gathering e) /\
  (forall e : Engine.t,
      Engine.botCounts (Engine.handleRepeatTurbo 0 e) = Engine.botCounts e).
Proof.
  split.
  - intros n e. exact (turbo_after n 1000 e).
  - intros e. exact (turbo_empty_after 1000 e).
Qed.

Lemma turbo_records_1000_observations_witness :
  let e := Scenario.twoBins in
  let e' := Engine.handleRepeatTurbo 2 e in
  sumZ (Engine.botCounts e') = (sumZ (Engine.botCounts e) + Z.of_nat 1000)%Z /\
  Engine.rng e' = snd (Rng.draws (1000 * 2) (Engine.rng e)) /\
  Engine.needsRedraw e' = true /\
  Engine.midCounts e' = Engine.midCounts e /\
  Engine.lastSample e' = Engine.lastSample e /\
  Engine.sampleParticles e' = Engine.sampleParticles e /\
  Engine.statParticles e' = Engine.statParticles e /\
  Engine.emissionPlan e' = Engine.emissionPlan e /\
  Engine.gathering e' = Engine.gathering e.
Proof.
  intros e.
  refine (proj1 turbo_records_1000_observations 2%nat e _ _ _ _ _ _).
  - lia.
  - vm_compute. lia.
  - discriminate.
  - reflexivity.
  - apply zeros_nonneg.
  - vm_compute. reflexivity.
Defined.

(** ** Summary of the sampling distribution *)

Lemma weighted_fold_from (d : list Z) (f : nat -> Q) (l : list nat) (t0 : Z) (m0 : Q) :
  let r := fold_left (fun '(total, mean) b =>
                        ((total + rd d b)%Z, mean + inject_Z (rd d b) * f b))
                     l (t0, m0) in
  fst r = (t0 + sumZ (map (rd d) l))%Z /\
  snd r == m0 + Spec.sumQ (map (fun b => inject_Z (rd d b) * f b) l).
Proof.
  revert t0 m0; induction l as [|c l IH]; intros t0 m0; cbn [fold_left map].
  - split; [cbn; lia|cbn; ring].
  - cbv zeta in IH |- *.
    destruct (IH (t0 + rd d c)%Z (m0 + inject_Z (rd d c) * f c)) as [H1 H2].
    split.
    + rewrite H1, sumZ_cons. lia.
    + rewrite H2, sumQ_cons. ring.
Qed.

Lemma weighted_sum_bounds (d : list Z) (f : nat -> Q) (lo hi : Q) (l : list nat) :
  Forall (fun z => 0 <= z)%Z d ->
  Forall (fun b => lo <= f b /\ f b <= hi) l ->
  inject_Z (sumZ (map (rd d) l)) * lo
  <= Spec.sumQ (map (fun b => inject_Z (rd d b) * f b) l) /\
  Spec.sumQ (map (fun b => inject_Z (rd d b) * f b) l)
  <= inject_Z (sumZ (map (rd d) l)) * hi.
Proof.
  intros Hd. induction 1 as [|b l [Hlo Hhi] _ [IH1 IH2]].
  - cbn [map]. change (sumZ []) with 0%Z. change (Spec.sumQ []) with 0.
    change (inject_Z 0) with 0. split; lra.
  - cbn [map]. rewrite sumZ_cons, sumQ_cons, inject_Z_plus, !Qmult_plus_distr_l.
    assert (Hw : 0 <= inject_Z (rd d b)).
    { change 0 with (inject_Z 0). rewrite <- Zle_Qle. apply rd_nonneg, Hd. }
    assert (inject_Z (rd d b) * lo <= inject_Z (rd d b) * f b).
    { rewrite !(Qmult_comm (inject_Z (rd d b))). apply Qmult_le_compat_r; assumption. }
    assert (inject_Z (rd d b) * f b <= inject_Z (rd d b) * hi).
    { rewrite !(Qmult_comm (inject_Z (rd d b))). apply Qmult_le_compat_r; assumption. }
    split; lra.
Qed.

Lemma map_rd_seq (d : list Z) : map (rd d) (seq 0 (length d)) = d.
Proof.
  induction d as [|x d IH]; [reflexivity|].
  cbn [length seq map]. f_equal.
  rewrite <- seq_shift, map_map.
  rewrite <- IH at 2. apply map_ext. intros i. apply rd_cons_S.
Qed.

Lemma center_bounds (cols c : nat) :
  (c < cols)%nat ->
  (1 # 2) / inject_Z (Z.of_nat cols) <= Pop.center cols c /\
  Pop.center cols c <= 1 - (1 # 2) / inject_Z (Z.of_nat cols).
Proof.
  intros Hc. unfold Pop.center.
  assert (Hn : 0 < inject_Z (Z.of_nat cols)).
  { change 0 with (inject_Z 0). rewrite <- Zlt_Qlt. lia. }
  assert (H0 : 0 <= inject_Z (Z.of_nat c)).
  { change 0 with (inject_Z 0). rewrite <- Zle_Qle. lia. }
  assert (H1 : inject_Z (Z.of_nat c) + 1 <= inject_Z (Z.of_nat cols)).
  { change 1 with (inject_Z 1). rewrite <- inject_Z_plus, <- Zle_Qle. lia. }
  set (n := inject_Z (Z.of_nat cols)) in *. set (k := inject_Z (Z.of_nat c)) in *.
  assert (Hnz : ~ n == 0) by lra.
  split.
  - apply Qle_shift_div_l; [exact Hn|].
    assert (E : (1 # 2) / n * n == 1 # 2) by (field; exact Hnz). rewrite E. lra.
  - apply Qle_shift_div_r; [exact Hn|].
    assert (E : (1 - (1 # 2) / n) * n == n - (1 # 2)) by (field; exact Hnz). rewrite E. lra.
Qed.

Lemma half_bin_pos (cols : nat) :
  (0 < cols)%nat -> 0 < (1 # 2) / inject_Z (Z.of_nat cols).
Proof.
  intros Hc. apply Qlt_shift_div_l.
  - change 0 with (inject_Z 0). rewrite <- Zlt_Qlt. lia.
  - lra.
Qed.

Lemma statDomain_cases (st : Statistic) :
  exists hi, Stats.statDomain st = (0, hi) /\ 0 < hi.
Proof.
  destruct st; eexists; (split; [reflexivity|reflexivity]).
Qed.

(** X11.  [getSamplingDistributionStats] reports as [total] the number
    of recorded observations; with none recorded the mean is 0, and
    otherwise the mean lies strictly inside the domain of the
    statistic. *)
Theorem sampling_distribution_summary `{HostMath} (e : StatEngine.t) :
  (0 < StatEngine.statBins e)%nat ->
  length (StatEngine.samplingDistData e) = StatEngine.statBins e ->
  Forall (fun z => 0 <= z)%Z (StatEngine.samplingDistData e) ->
  let s := StatEngine.getSamplingDistributionStats e in
  StatEngine.ds_total s = sumZ (StatEngine.samplingDistData e) /\
  (sumZ (StatEngine.samplingDistData e) = 0%Z -> StatEngine.ds_mean s = 0) /\
  ((0 < sumZ (StatEngine.samplingDistData e))%Z ->
   fst (StatEngine.getStatisticDomain e) < StatEngine.ds_mean s /\
   StatEngine.ds_mean s < snd (StatEngine.getStatisticDomain e)).
Proof.
  intros HB Hl Hn. cbv zeta.
  unfold StatEngine.getSamplingDistributionStats, StatEngine.loop_total_mean.
  destruct (weighted_fold_from (StatEngine.samplingDistData e) (StatEngine.binValue e)
                               (seq 0 (StatEngine.statBins e)) 0 0) as [H1 H2].
  cbv zeta in H1, H2.
  destruct (fold_left _ _ _) as [total mean0]. cbn [fst snd] in H1, H2.
  assert (Em : map (rd (StatEngine.samplingDistData e)) (seq 0 (StatEngine.statBins e))
               = StatEngine.samplingDistData e) by (rewrite <- Hl; apply map_rd_seq).
  rewrite Em, Z.add_0_l in H1. subst total.
  cbn [StatEngine.ds_total StatEngine.ds_mean].
  split; [reflexivity|]. split.
  - intros ->. reflexivity.
  - intros Hpos.
    destruct (Z.eqb_spec (sumZ (StatEngine.samplingDistData e)) 0) as [E|_]; [lia|].
    unfold StatEngine.getStatisticDomain in *.
    destruct (statDomain_cases (StatEngine.statistic e)) as [hi [Ed Hhi]].
    assert (Hv : Forall (fun b => hi * ((1 # 2) / inject_Z (Z.of_nat (StatEngine.statBins e)))
                                  <= StatEngine.binValue e b /\
                                  StatEngine.binValue e b
                                  <= hi - hi * ((1 # 2) / inject_Z (Z.of_nat (StatEngine.statBins e))))
                        (seq 0 (StatEngine.statBins e))).
    { apply List.Forall_forall. intros b Hb. apply in_seq in Hb.
      unfold StatEngine.binValue, StatEngine.getStatisticDomain. rewrite Ed.
      destruct (center_bounds (StatEngine.statBins e) b) as [C1 C2]; [lia|].
      set (c := Pop.center (StatEngine.statBins e) b) in *.
      set (h := (1 # 2) / inject_Z (Z.of_nat (StatEngine.statBins e))) in *.
      assert (hi * h <= hi * c).
      { rewrite !(Qmult_comm hi). apply Qmult_le_compat_r; lra. }
      assert (hi * c <= hi * (1 - h)).
      { rewrite !(Qmult_comm hi). apply Qmult_le_compat_r; lra. }
      split; [|assert (E1 : hi * (1 - h) == hi - hi * h) by ring]; lra. }
    destruct (weighted_sum_bounds _ _ _ _ _ Hn Hv) as [B1 B2].
    rewrite Em in B1, B2.
    rewrite Ed. cbn [fst snd].
    pose proof (half_bin_pos _ HB) as Hh.
    set (h := (1 # 2) / inject_Z (Z.of_nat (StatEngine.statBins e))) in *.
    assert (Hhh : 0 < hi * h) by (apply Qmult_lt_0_compat; assumption).
    assert (HT : 0 < inject_Z (sumZ (StatEngine.samplingDistData e))).
    { change 0 with (inject_Z 0). rewrite <- Zlt_Qlt. exact Hpos. }
    set (T := inject_Z (sumZ (StatEngine.samplingDistData e))) in *.
    rewrite Qplus_0_l in H2.
    split.
    + apply Qlt_le_trans with (hi * h); [exact Hhh|].
      apply Qle_shift_div_l; [exact HT|]. rewrite H2.
      rewrite (Qmult_comm (hi * h)). exact B1.
    + apply Qle_lt_trans with (hi - hi * h); [|lra].
      apply Qle_shift_div_r; [exact HT|]. rewrite H2.
      rewrite (Qmult_comm (hi - hi * h)). exact B2.
Qed.

Lemma sampling_distribution_summary_witness :
  let e := {| StatEngine.cols := 4; StatEngine.statBins := 4;
              StatEngine.populationData := [0; 3; 0; 1]%Z;
              StatEngine.sampleData := zeros 4;
              StatEngine.samplingDistData := [0; 2; 5; 0]%Z;
              StatEngine.currentSample := [];
              StatEngine.statistic := StSd; StatEngine.threshold := 1 # 2;
              StatEngine.rng := Rng.create 1234 |} in
  let s := StatEngine.getSamplingDistributionStats e in
  StatEngine.ds_total s = sumZ (StatEngine.samplingDistData e) /\
  (sumZ (StatEngine.samplingDistData e) = 0%Z -> StatEngine.ds_mean s = 0) /\
  ((0 < sumZ (StatEngine.samplingDistData e))%Z ->
   fst (StatEngine.getStatisticDomain e) < StatEngine.ds_mean s /\
   StatEngine.ds_mean s < snd (StatEngine.getStatisticDomain e)).
Proof.
  intros e.
  apply (sampling_distribution_summary e).
  - vm_compute. lia.
  - reflexivity.
  - repeat constructor; discriminate.
Defined.

(** ** Falling particles *)

Lemma inFlight_true (y target : Q) :
  Engine.inFlight y target = true <-> y < target - (1 # 10).
Proof.
  unfold Engine.inFlight. rewrite negb_true_iff, Qle_bool_false. split.
  - apply Qnot_le_lt.
  - apply Qlt_not_le.
Qed.

Lemma samplePhysics_survivors (g dt : Q) (ps : list Engine.Particle) (mid : list Z) :
  Forall (fun s => Engine.p_y s < Engine.p_targetY s - (1 # 10))
         (fst (Engine.samplePhysics g dt ps mid)).
Proof.
  revert mid; induction ps as [|s ps IH]; intros mid; cbn [Engine.samplePhysics]; cbv zeta.
  - constructor.
  - destruct (Engine.inFlight _ _) eqn:Hf.
    + specialize (IH mid). destruct (Engine.samplePhysics g dt ps mid) as [sv mid'].
      cbn [fst] in *. constructor; [apply inFlight_true, Hf|exact IH].
    + apply IH.
Qed.

Lemma statPhysics_survivors (g dt : Q) (ps : list Engine.StatParticle) (bot : list Z) :
  Forall (fun q => Engine.q_y q < Engine.q_targetY q - (1 # 10))
         (fst (Engine.statPhysics g dt ps bot)).
Proof.
  revert bot; induction ps as [|s ps IH]; intros bot; cbn [Engine.statPhysics]; cbv zeta.
  - constructor.
  - destruct (Engine.inFlight _ _) eqn:Hf.
    + specialize (IH bot). destruct (Engine.statPhysics g dt ps bot) as [sv bot'].
      cbn [fst] in *. constructor; [apply inFlight_true, Hf|exact IH].
    + apply IH.
Qed.

(** X12.  A falling particle never passes its target: one step of the
    physics leaves it at or above the target row, and moves it
    downwards (never back up) when its speed is not negative.  After
    every tick each particle still listed is more than 0.1 px above
    its target: the ones that arrived have been removed. *)
Theorem particles_stop_at_their_target (dt now : Q) (e : Engine.t) :
  (forall (g : Q) (s : Engine.Particle),
      Engine.p_y (Engine.fall g dt s) <= Engine.p_targetY s /\
      Engine.p_targetY (Engine.fall g dt s) = Engine.p_targetY s /\
      (0 <= g -> 0 <= dt -> 0 <= Engine.p_vy s -> Engine.p_y s <= Engine.p_targetY s ->
       Engine.p_y s <= Engine.p_y (Engine.fall g dt s) /\
       0 <= Engine.p_vy (Engine.fall g dt s))) /\
  Forall (fun s => Engine.p_y s < Engine.p_targetY s - (1 # 10))
         (Engine.sampleParticles (Engine.tick dt now e)) /\
  Forall (fun q => Engine.q_y q < Engine.q_targetY q - (1 # 10))
         (Engine.statParticles (Engine.tick dt now e)).
Proof.
  split; [|split].
  - intros g s. unfold Engine.fall; cbn [Engine.p_y Engine.p_targetY Engine.p_vy].
    split; [apply Q.le_min_r|]. split; [reflexivity|].
    intros Hg Hdt Hv Hy.
    assert (Hgd : 0 <= g * dt) by (apply Qmult_le_0_compat; assumption).
    assert (Hvd : 0 <= (Engine.p_vy s + g * dt) * dt).
    { apply Qmult_le_0_compat; lra. }
    split; [|lra].
    apply Q.min_glb; lra.
  - pose proof (tick_sample dt now e) as E.
    pose proof (samplePhysics_survivors (Engine.gravity (Engine.speed e)) dt
                  (snd (Engine.emission e now)) (Engine.midCounts e)) as H.
    cbv zeta in E. rewrite <- E in H. exact H.
  - pose proof (tick_stat dt now e) as E.
    pose proof (statPhysics_survivors (Engine.gravity (Engine.speed e)) dt
                  (Engine.go_statParticles (Engine.gatherStep e now))
                  (Engine.botCounts e)) as H.
    cbv zeta in E. rewrite <- E in H. exact H.
Qed.

Lemma particles_stop_at_their_target_witness :
  let s := {| Engine.p_col := 3; Engine.p_x := 100; Engine.p_y := 200;
              Engine.p_vy := 0; Engine.p_targetY := 500 |} in
  Engine.p_y s <= Engine.p_y (Engine.fall 1400 (6 # 100) s) /\
  0 <= Engine.p_vy (Engine.fall 1400 (6 # 100) s).
Proof.
  intros s.
  apply (proj1 (particles_stop_at_their_target (6 # 100) 0 (Engine.create 60 60)) 1400 s);
    vm_compute; discriminate.
Defined.

Lemma idle_all_fields (e : Engine.t) :
  Engine.hasActiveAnimations e = false ->
  Engine.emissionPlan e = None /\ Engine.sampleParticles e = [] /\
  Engine.statParticles e = [] /\ Engine.gathering e = false /\
  Engine.popFlashes e = [] /\ Engine.gatherParticles e = [].
Proof.
  unfold Engine.hasActiveAnimations. intros H.
  repeat (apply orb_false_iff in H; destruct H as [H ?]).
  repeat match goal with
         | Hx : negb _ = false |- _ => apply negb_false_iff, Nat.eqb_eq, length_zero_iff_nil in Hx
         end.
  destruct (Engine.emissionPlan e); [discriminate|].
  repeat split; assumption.
Qed.

(** X13.  A tick of an engine without active animations changes
    nothing at all, not even the repaint flag; a tick of an engine
    with an active animation always requests a repaint. *)
Theorem idle_tick_changes_nothing (dt now : Q) (e : Engine.t) :
  (Engine.hasActiveAnimations e = false -> Engine.tick dt now e = e) /\
  (Engine.hasActiveAnimations e = true -> Engine.needsRedraw (Engine.tick dt now e) = true).
Proof.
  split.
  - intros Hidle.
    destruct (idle_all_fields e Hidle) as (H1 & H2 & H3 & H4 & H5 & H6).
    unfold Engine.tick. rewrite Hidle.
    rewrite (emission_none e now H1), H2, (gatherStep_idle e now H4), H3, H5.
    cbn [Engine.samplePhysics Engine.statPhysics Engine.go_statParticles
         Engine.go_gatherParticles Engine.go_gathering Engine.go_gatherTarget
         Engine.go_lastGatheringSample List.filter].
    cbn [Engine.COLS Engine.STAT_BINS Engine.geom Engine.popCounts Engine.midCounts
         Engine.botCounts Engine.sampleParticles Engine.statParticles Engine.popFlashes
         Engine.gatherParticles Engine.gatherTarget Engine.gathering Engine.gatherStart
         Engine.gatherDur Engine.emissionPlan Engine.lastSample Engine.statistic
         Engine.threshold Engine.speed Engine.rng Engine.needsRedraw
         Engine.lastGatheringSample].
    unfold Engine.hasActiveAnimations.
    cbn [Engine.emissionPlan Engine.sampleParticles Engine.statParticles Engine.gathering
         Engine.popFlashes Engine.gatherParticles].
    rewrite H6. cbn [length Nat.eqb negb orb].
    destruct e; cbn in *; subst; reflexivity.
  - intros Hact. unfold Engine.tick. rewrite Hact.
    destruct (Engine.emission e now) as [[plan fl] parts].
    destruct (Engine.samplePhysics _ dt parts (Engine.midCounts e)).
    destruct (Engine.statPhysics _ dt _ _).
    cbn [Engine.needsRedraw]. rewrite orb_true_r. reflexivity.
Qed.

Lemma idle_tick_changes_nothing_witness :
  Engine.tick (6 # 100) 5000 (Engine.create 60 60) = Engine.create 60 60.
Proof.
  apply (proj1 (idle_tick_changes_nothing (6 # 100) 5000 (Engine.create 60 60))).
  reflexivity.
Defined.

(** ** The release schedule of an emission plan *)

Lemma js_div_clamp01_pos (a b : Q) :
  0 < b -> js_div_clamp01 a b = Num (clamp (a / b) 0 1).
Proof.
  intros Hb. unfold js_div_clamp01.
  destruct (Qeq_bool b 0) eqn:E; [|reflexivity].
  apply Qeq_bool_iff in E. lra.
Qed.

Lemma floor_fraction_range (f : Q) (total : nat) :
  0 <= f -> f <= 1 ->
  (0 <= Qfloor (f * inject_Z (Z.of_nat total)) <= Z.of_nat total)%Z.
Proof.
  intros H0 H1.
  assert (Ht : 0 <= inject_Z (Z.of_nat total)).
  { change 0 with (inject_Z 0). rewrite <- Zle_Qle. lia. }
  split.
  - apply Qfloor_ge. change (inject_Z 0) with 0. apply Qmult_le_0_compat; assumption.
  - rewrite <- (Qfloor_Z (Z.of_nat total)) at 2. apply Qfloor_resp_le.
    rewrite <- (Qmult_1_l (inject_Z (Z.of_nat total))) at 2.
    apply Qmult_le_compat_r; assumption.
Qed.

Lemma floor_full_fraction (f : Q) (total : nat) :
  f == 1 -> Qfloor (f * inject_Z (Z.of_nat total)) = Z.of_nat total.
Proof.
  intros Hf. rewrite <- (Qfloor_Z (Z.of_nat total)) at 2.
  apply Qfloor_comp. rewrite Hf. ring.
Qed.

(** The value of [emitted] after the emission block of a tick. *)
Lemma emitted_after (e : Engine.t) (now : Q) (p : Engine.EmissionPlan) (inflight : list Z) :
  (Engine.e_emitted p <= Engine.e_total p)%nat ->
  Engine.e_start p < Engine.e_end p ->
  let f := clamp ((now - Engine.e_start p) / (Engine.e_end p - Engine.e_start p)) 0 1 in
  let released :=
    Z.to_nat (Z.max (Z.of_nat (Engine.e_emitted p))
                    (Qfloor (f * inject_Z (Z.of_nat (Engine.e_total p))))) in
  let k := Engine.toEmit p now in
  snd (if (0 <? k)%Z
       then Engine.emitLoop e now p (Z.to_nat k) (Engine.e_emitted p) inflight
       else ([], [], Engine.e_emitted p))
  = released.
Proof.
  intros Hle Hd f released k.
  assert (Ef : js_div_clamp01 (now - Engine.e_start p) (Engine.e_end p - Engine.e_start p)
               = Num f).
  { apply js_div_clamp01_pos. lra. }
  destruct (clamp01_range ((now - Engine.e_start p) / (Engine.e_end p - Engine.e_start p)))
    as [F0 F1]. fold f in F0, F1.
  pose proof (floor_fraction_range f (Engine.e_total p) F0 F1) as Ht.
  unfold k, Engine.toEmit. rewrite Ef. cbv zeta.
  set (target := Qfloor (f * inject_Z (Z.of_nat (Engine.e_total p)))) in *.
  destruct ((target - Z.of_nat (Engine.e_emitted p) <=? 0)%Z && Qle_bool 1 f) eqn:Hc.
  - apply andb_true_iff in Hc. destruct Hc as [Hk Hf1].
    apply Z.leb_le in Hk. apply Qle_bool_iff in Hf1.
    assert (Etarget : target = Z.of_nat (Engine.e_total p)).
    { apply floor_full_fraction. apply Qle_antisym; assumption. }
    destruct (Z.ltb_spec 0 (Z.of_nat (Engine.e_total p) - Z.of_nat (Engine.e_emitted p)));
      [lia|].
    cbn [snd]. unfold released. lia.
  - destruct (Z.ltb_spec 0 (target - Z.of_nat (Engine.e_emitted p))) as [Hpos|Hneg].
    + destruct (emitLoop_count e now p (Z.to_nat (target - Z.of_nat (Engine.e_emitted p)))
                               (Engine.e_emitted p) inflight) as (_ & _ & _ & _ & E & _).
      rewrite E by lia. unfold released. lia.
    + cbn [snd]. unfold released. lia.
Qed.

(** The emission block of a tick, with the count read off the exact
    value of the fraction. *)
Lemma emission_step (dt now : Q) (e : Engine.t) (p : Engine.EmissionPlan) :
  Engine.emissionPlan e = Some p ->
  (Engine.e_emitted p <= Engine.e_total p)%nat ->
  (Engine.e_total p <= length (Engine.e_cols p))%nat ->
  Engine.e_start p < Engine.e_end p ->
  let f := clamp ((now - Engine.e_start p) / (Engine.e_end p - Engine.e_start p)) 0 1 in
  let released :=
    Z.to_nat (Z.max (Z.of_nat (Engine.e_emitted p))
                    (Qfloor (f * inject_Z (Z.of_nat (Engine.e_total p))))) in
  (Engine.e_emitted p <= released <= Engine.e_total p)%nat /\
  (exists ps,
      snd (Engine.emission e now) = Engine.sampleParticles e ++ ps /\
      map Engine.p_col ps
      = firstn (released - Engine.e_emitted p) (skipn (Engine.e_emitted p) (Engine.e_cols p)) /\
      length ps = (released - Engine.e_emitted p)%nat /\
      Forall (fun s => Engine.p_vy s = 0 /\ Engine.p_y s = Engine.yStart e (Engine.p_col s))
             ps) /\
  Engine.emissionPlan (Engine.tick dt now e)
  = if (Engine.e_total p <=? released)%nat then None
    else Some {| Engine.e_start := Engine.e_start p; Engine.e_end := Engine.e_end p;
                 Engine.e_total := Engine.e_total p; Engine.e_emitted := released;
                 Engine.e_cols := Engine.e_cols p; Engine.e_xs := Engine.e_xs p |}.
Proof.
  intros Hp Hle Hlen Hd f released.
  destruct (clamp01_range ((now - Engine.e_start p) / (Engine.e_end p - Engine.e_start p)))
    as [F0 F1]. fold f in F0, F1.
  pose proof (floor_fraction_range f (Engine.e_total p) F0 F1) as Ht.
  split; [unfold released; lia|].
  rewrite tick_plan. unfold Engine.emission. rewrite Hp. cbv zeta.
  pose proof (emitted_after e now p (Engine.inflightOf (Engine.COLS e) (Engine.sampleParticles e))
                            Hle Hd) as Hem.
  cbv zeta in Hem. fold f in Hem. fold released in Hem.
  set (k := Engine.toEmit p now) in *.
  assert (Hshape :
    let r := if (0 <? k)%Z
             then Engine.emitLoop e now p (Z.to_nat k) (Engine.e_emitted p)
                    (Engine.inflightOf (Engine.COLS e) (Engine.sampleParticles e))
             else ([], [], Engine.e_emitted p) in
    map Engine.p_col (snd (fst r))
    = firstn (snd r - Engine.e_emitted p) (skipn (Engine.e_emitted p) (Engine.e_cols p)) /\
    length (snd (fst r)) = (snd r - Engine.e_emitted p)%nat /\
    Forall (fun s => Engine.p_vy s = 0 /\ Engine.p_y s = Engine.yStart e (Engine.p_col s))
           (snd (fst r))).
  { cbv zeta. destruct (0 <? k)%Z.
    - destruct (emitLoop_shape e now p (Z.to_nat k) (Engine.e_emitted p)
                  (Engine.inflightOf (Engine.COLS e) (Engine.sampleParticles e)) Hlen)
        as (S1 & S2 & _).
      destruct (emitLoop_count e now p (Z.to_nat k) (Engine.e_emitted p)
                  (Engine.inflightOf (Engine.COLS e) (Engine.sampleParticles e)))
        as (_ & _ & C3 & _).
      split; [exact S1|]. split; [exact C3|exact S2].
    - cbn [fst snd]. rewrite Nat.sub_diag. cbn [firstn map length].
      split; [reflexivity|]. split; [reflexivity|constructor]. }
  cbv zeta in Hshape.
  destruct (if (0 <? k)%Z then _ else _) as [[fs ps] em].
  cbn [fst snd] in *. subst em.
  destruct Hshape as (S1 & S2 & S3).
  split.
  - exists ps. repeat split; assumption.
  - reflexivity.
Qed.

(** X14.  While an emission plan runs, a tick at time [now] brings the
    number of released particles to the linear schedule [f * total],
    [f = clamp((now - start) / (end - start), 0, 1)], to within one
    particle and never below what was released before: nothing is
    released up to the start and everything from the end on.  The
    particles created are the next entries of the plan, in the order of
    the sample, each starting at rest on top of the population stack of
    its column; the plan is dropped exactly when all of its particles
    have been released. *)
Theorem emission_follows_schedule (dt now : Q) (e : Engine.t) (p : Engine.EmissionPlan) :
  Engine.emissionPlan e = Some p ->
  (Engine.e_emitted p <= Engine.e_total p)%nat ->
  (Engine.e_total p <= length (Engine.e_cols p))%nat ->
  Engine.e_start p < Engine.e_end p ->
  let f := clamp ((now - Engine.e_start p) / (Engine.e_end p - Engine.e_start p)) 0 1 in
  let scheduled := f * inject_Z (Z.of_nat (Engine.e_total p)) in
  exists released : nat,
    (Engine.e_emitted p <= released <= Engine.e_total p)%nat /\
    (scheduled - 2 < inject_Z (Z.of_nat released) /\
     ((Engine.e_emitted p < released)%nat -> inject_Z (Z.of_nat released) <= scheduled + 1)) /\
    (now <= Engine.e_start p -> released = Engine.e_emitted p) /\
    (Engine.e_end p <= now -> released = Engine.e_total p) /\
    (exists ps,
        snd (Engine.emission e now) = Engine.sampleParticles e ++ ps /\
        map Engine.p_col ps
        = firstn (released - Engine.e_emitted p)
                 (skipn (Engine.e_emitted p) (Engine.e_cols p)) /\
        length ps = (released - Engine.e_emitted p)%nat /\
        Forall (fun s => Engine.p_vy s = 0 /\ Engine.p_y s = Engine.yStart e (Engine.p_col s))
               ps) /\
    Engine.emissionPlan (Engine.tick dt now e)
    = if (Engine.e_total p <=? released)%nat then None
      else Some {| Engine.e_start := Engine.e_start p; Engine.e_end := Engine.e_end p;
                   Engine.e_total := Engine.e_total p; Engine.e_emitted := released;
                   Engine.e_cols := Engine.e_cols p; Engine.e_xs := Engine.e_xs p |}.
Proof.
  intros Hp Hle Hlen Hd f scheduled.
  destruct (emission_step dt now e p Hp Hle Hlen Hd) as (Hr & Hps & Hplan).
  cbv zeta in Hr, Hps, Hplan. fold f in Hr, Hps, Hplan. fold scheduled in Hr, Hps, Hplan.
  set (released := Z.to_nat (Z.max (Z.of_nat (Engine.e_emitted p)) (Qfloor scheduled))) in *.
  exists released.
  pose proof (Qfloor_le scheduled) as F1. pose proof (Qlt_floor scheduled) as F2.
  rewrite inject_Z_plus in F2. change (inject_Z 1) with 1 in F2.
  assert (Er : Z.of_nat released = Z.max (Z.of_nat (Engine.e_emitted p)) (Qfloor scheduled))
    by (unfold released; lia).
  assert (Hd' : 0 < Engine.e_end p - Engine.e_start p) by lra.
  split; [exact Hr|]. split; [split|].
  - assert (Hge : inject_Z (Qfloor scheduled) <= inject_Z (Z.of_nat released))
      by (rewrite <- Zle_Qle; lia).
    lra.
  - intros Hlt. assert (Heq : Z.of_nat released = Qfloor scheduled) by lia.
    rewrite Heq. lra.
  - split; [|split; [|split; [exact Hps|exact Hplan]]].
    + intros Hnow.
      assert (Ef : f == 0).
      { apply clamp01_below. apply Qle_shift_div_r; [exact Hd'|]. lra. }
      assert (Es : Qfloor scheduled = 0%Z).
      { unfold scheduled. rewrite (Qfloor_comp _ 0); [reflexivity|]. rewrite Ef. ring. }
      lia.
    + intros Hnow.
      assert (Ef : f == 1).
      { apply clamp01_above. apply Qle_shift_div_l; [exact Hd'|]. lra. }
      assert (Es : Qfloor scheduled = Z.of_nat (Engine.e_total p))
        by (apply floor_full_fraction; exact Ef).
      lia.
Qed.

Lemma emission_follows_schedule_witness :
  let e := Engine.startSample 4 1200 0 Scenario.twoBins in
  let p := {| Engine.e_start := 0; Engine.e_end := 0 + 1200; Engine.e_total := 4;
              Engine.e_emitted := 0;
              Engine.e_cols := snd (fst (Engine.sampleN Scenario.twoBins 4));
              Engine.e_xs := fst (fst (Engine.sampleN Scenario.twoBins 4)) |} in
  let f := clamp ((600 - Engine.e_start p) / (Engine.e_end p - Engine.e_start p)) 0 1 in
  let scheduled := f * inject_Z (Z.of_nat (Engine.e_total p)) in
  exists released : nat,
    (Engine.e_emitted p <= released <= Engine.e_total p)%nat /\
    (scheduled - 2 < inject_Z (Z.of_nat released) /\
     ((Engine.e_emitted p < released)%nat -> inject_Z (Z.of_nat released) <= scheduled + 1)) /\
    (600 <= Engine.e_start p -> released = Engine.e_emitted p) /\
    (Engine.e_end p <= 600 -> released = Engine.e_total p) /\
    (exists ps,
        snd (Engine.emission e 600) = Engine.sampleParticles e ++ ps /\
        map Engine.p_col ps
        = firstn (released - Engine.e_emitted p)
                 (skipn (Engine.e_emitted p) (Engine.e_cols p)) /\
        length ps = (released - Engine.e_emitted p)%nat /\
        Forall (fun s => Engine.p_vy s = 0 /\ Engine.p_y s = Engine.yStart e (Engine.p_col s))
               ps) /\
    Engine.emissionPlan (Engine.tick (6 # 100) 600 e)
    = if (Engine.e_total p <=? released)%nat then None
      else Some {| Engine.e_start := Engine.e_start p; Engine.e_end := Engine.e_end p;
                   Engine.e_total := Engine.e_total p; Engine.e_emitted := released;
                   Engine.e_cols := Engine.e_cols p; Engine.e_xs := Engine.e_xs p |}.
Proof.
  intros e p.
  apply (emission_follows_schedule (6 # 100) 600 e p).
  - vm_compute. reflexivity.
  - vm_compute. lia.
  - vm_compute. lia.
  - vm_compute. reflexivity.
Defined.

(** ** Every draw settles within finitely many frames *)

Lemma ticks_app (dt : Q) (t1 t2 : list Q) (e : Engine.t) :
  ticks dt (t1 ++ t2) e = ticks dt t2 (ticks dt t1 e).
Proof. revert e; induction t1 as [|t t1 IH]; intros e; [reflexivity|]. cbn. apply IH. Qed.

Lemma tick_geometry (dt now : Q) (e : Engine.t) :
  Engine.geom (Engine.tick dt now e) = Engine.geom e /\
  Engine.speed (Engine.tick dt now e) = Engine.speed e.
Proof.
  unfold Engine.tick. destruct (Engine.emission e now) as [[plan fl] parts].
  destruct (Engine.samplePhysics _ dt parts (Engine.midCounts e)).
  destruct (Engine.statPhysics _ dt _ _). split; reflexivity.
Qed.

Lemma gravity_pos (s : Engine.Speed) : 0 < Engine.gravity s.
Proof. destruct s; reflexivity. Qed.














Lemma frames_cover_gap (D g dt : Q) (k : nat) :
  0 <= D -> 0 < g -> 0 < dt ->
  (Z.to_nat (Qceiling (D / (g * dt * dt))) <= k)%nat ->
  D <= inject_Z (Z.of_nat k) * (g * dt * dt).
Proof.
  intros HD Hg Hdt Hk.
  assert (Hgdd : 0 < g * dt * dt).
  { apply Qmult_lt_0_compat; [apply Qmult_lt_0_compat|]; assumption. }
  assert (Hq : D / (g * dt * dt) <= inject_Z (Z.of_nat k)).
  { eapply Qle_trans; [apply Qle_ceiling|].
    rewrite <- Zle_Qle. lia. }
  assert (E : D == D / (g * dt * dt) * (g * dt * dt)) by (field; lra).
  rewrite E at 1. apply Qmult_le_compat_r; [exact Hq|lra].
Qed.



(** ** A gather delivers its observation *)

Lemma fallStat_gap (g dt D : Q) (q : Engine.StatParticle) :
  0 < g -> 0 < dt -> 0 <= D ->
  0 <= Engine.q_vy q -> Engine.q_targetY q - Engine.q_y q <= D ->
  let q' := Engine.fallStat g dt q in
  0 <= Engine.q_vy q' /\ Engine.q_bin q' = Engine.q_bin q /\
  (Engine.inFlight (Engine.q_y q') (Engine.q_targetY q') = true ->
   Engine.q_targetY q' - Engine.q_y q' <= Qmax 0 (D - g * dt * dt)).
Proof.
  intros Hg Hdt HD Hv Hgap. cbv zeta.
  unfold Engine.fallStat; cbn [Engine.q_vy Engine.q_y Engine.q_targetY Engine.q_bin].
  assert (Hgd : 0 < g * dt) by (apply Qmult_lt_0_compat; assumption).
  assert (Hgdd : 0 < g * dt * dt) by (apply Qmult_lt_0_compat; assumption).
  assert (Hvd : 0 <= Engine.q_vy q * dt) by (apply Qmult_le_0_compat; lra).
  assert (E : (Engine.q_vy q + g * dt) * dt == Engine.q_vy q * dt + g * dt * dt) by ring.
  split; [lra|]. split; [reflexivity|].
  pose proof (Q.min_spec (Engine.q_y q + (Engine.q_vy q + g * dt) * dt) (Engine.q_targetY q))
    as Hm.
  set (m := Qmin (Engine.q_y q + (Engine.q_vy q + g * dt) * dt) (Engine.q_targetY q)) in *.
  intros Hf. apply inFlight_true in Hf.
  apply Qle_trans with (D - g * dt * dt); [|apply Q.le_max_r].
  destruct Hm as [[Hlt Hm]|[Hle Hm]]; lra.
Qed.

Lemma gather_reached (e : Engine.t) (now : Q) :
  0 < Engine.gatherDur e -> Engine.gatherStart e + Engine.gatherDur e <= now ->
  Engine.reached1 (Engine.gatherT e now) = true.
Proof.
  intros Hd Hnow. unfold Engine.gatherT. rewrite js_div_clamp01_pos by exact Hd.
  cbn [Engine.reached1]. apply Qle_bool_iff.
  assert (H1 : 1 <= (now - Engine.gatherStart e) / Engine.gatherDur e).
  { apply Qle_shift_div_l; [exact Hd|]. lra. }
  rewrite (clamp01_above _ H1). apply Qle_refl.
Qed.

Lemma spawnStat_ext `{HostMath} (e e1 : Engine.t) (tgt : Engine.GatherTarget) :
  Engine.geom e = Engine.geom e1 -> Engine.botCounts e = Engine.botCounts e1 ->
  Engine.spawnStat e [] tgt = Engine.spawnStat e1 [] tgt.
Proof. intros H1 H2. unfold Engine.spawnStat. rewrite H1, H2. reflexivity. Qed.

(** One statistic particle under one step of the physics. *)
Lemma statPhysics_single (g dt D : Q) (q : Engine.StatParticle) (bot : list Z) :
  0 < g -> 0 < dt -> 0 <= D ->
  0 <= Engine.q_vy q -> Engine.q_targetY q - Engine.q_y q <= D ->
  (exists q', Engine.statPhysics g dt [q] bot = ([q'], bot) /\
              0 <= Engine.q_vy q' /\
              Engine.q_targetY q' - Engine.q_y q' <= Qmax 0 (D - g * dt * dt) /\
              Engine.q_bin q' = Engine.q_bin q)
  \/ Engine.statPhysics g dt [q] bot = ([], Bins.inc32_at bot (Engine.q_bin q)).
Proof.
  intros Hg Hdt HD Hv Hgap.
  destruct (fallStat_gap g dt D q Hg Hdt HD Hv Hgap) as (F1 & F2 & F3).
  cbn [Engine.statPhysics]. cbv zeta.
  destruct (Engine.inFlight _ _) eqn:Hf.
  - left. eexists. split; [reflexivity|]. split; [exact F1|]. split; [apply F3; reflexivity|exact F2].
  - right. rewrite F2. reflexivity.
Qed.

Section GatherFrames.
Context (tgt : Engine.GatherTarget) (bot0 : list Z) (g0 : Engine.Geometry)
        (sp : Engine.Speed) (t0 dur dt : Q).
Hypothesis Hdur : 0 < dur.
Hypothesis Hdt : 0 < dt.

Let g := Engine.gravity sp.

(** The fields of the engine a gather depends on. *)
Let fixed (e : Engine.t) : Prop :=
  Engine.geom e = g0 /\ Engine.speed e = sp /\
  Engine.gatherStart e = t0 /\ Engine.gatherDur e = dur.

Lemma tick_fixed (now : Q) (e : Engine.t) : fixed e -> fixed (Engine.tick dt now e).
Proof.
  intros (F1 & F2 & F3 & F4).
  destruct (tick_geometry dt now e) as [T1 T2].
  destruct (tick_static dt now e) as (_ & _ & _ & T3 & T4 & _).
  unfold fixed. rewrite T1, T2, T3, T4. repeat split; assumption.
Qed.

Lemma tick_gatherStage (D : Q) (now : Q) (e : Engine.t) (q0 : Engine.StatParticle) :
  0 <= D ->
  (forall e', Engine.geom e' = g0 -> Engine.botCounts e' = bot0 ->
              Engine.spawnStat e' [] tgt = q0) ->
  Engine.q_targetY q0 - Engine.q_y q0 <= D -> Engine.q_vy q0 = 0 ->
  Engine.q_bin q0 = Engine.gt_bin tgt ->
  fixed e -> gatherStage tgt bot0 D e ->
  gatherStage tgt bot0 D (Engine.tick dt now e) /\
  (t0 + dur <= now -> Engine.gathering (Engine.tick dt now e) = false).
Proof.
  intros HD Hspawn Hq0 Hv0 Hb0 (F1 & F2 & F3 & F4) Hst.
  pose proof (tick_stat dt now e) as Ts. cbv zeta in Ts. rewrite F2 in Ts. fold g in Ts.
  destruct (tick_gather dt now e) as (Tg & Tt & _).
  assert (Hg : 0 < g) by apply gravity_pos.
  destruct Hst as [(A1 & A2 & A3 & A4)|[(B1 & B2 & q & B3 & B4 & B5 & B6)|(C1 & C2 & C3)]].
  - (* still gathering *)
    destruct (Engine.reached1 (Engine.gatherT e now)) eqn:Hr.
    + rewrite (gatherStep_done e now tgt A1 A2 Hr) in Ts, Tg, Tt.
      cbn [Engine.go_statParticles Engine.go_gathering Engine.go_gatherTarget] in Ts, Tg, Tt.
      rewrite A3 in Ts. cbn [app] in Ts. rewrite (Hspawn e F1 A4), A4 in Ts.
      split; [|intros _; exact Tg].
      destruct (statPhysics_single g dt D q0 bot0 Hg Hdt HD) as [(q' & E & Q1 & Q2 & Q3)|E];
        [rewrite Hv0; apply Qle_refl|exact Hq0| |]; rewrite E in Ts; injection Ts as T1 T2.
      * right; left. split; [exact Tg|]. split; [exact T2|].
        exists q'. split; [exact T1|]. split; [exact Q1|]. split; [|congruence].
        eapply Qle_trans; [exact Q2|]. apply Q.max_lub; [exact HD|].
        assert (0 < g * dt * dt).
        { apply Qmult_lt_0_compat; [apply Qmult_lt_0_compat|]; assumption. }
        lra.
      * right; right. split; [exact Tg|]. split; [exact T1|]. rewrite T2, Hb0. reflexivity.
    + rewrite (gatherStep_before e now tgt A1 A2 Hr) in Ts, Tg, Tt.
      cbn [Engine.go_statParticles Engine.go_gathering Engine.go_gatherTarget] in Ts, Tg, Tt.
      rewrite A3 in Ts. cbn [Engine.statPhysics] in Ts. injection Ts as T1 T2.
      split.
      * left. repeat split; congruence.
      * intros Hlate. exfalso.
        assert (Engine.reached1 (Engine.gatherT e now) = true); [|congruence].
        apply gather_reached; rewrite ?F3, ?F4; assumption.
  - (* falling *)
    rewrite (gatherStep_idle e now B1) in Ts, Tg, Tt.
    cbn [Engine.go_statParticles Engine.go_gathering Engine.go_gatherTarget] in Ts, Tg, Tt.
    rewrite B3, B2 in Ts.
    assert (Hnext : gatherStage tgt bot0 (Qmax 0 (D - g * dt * dt)) (Engine.tick dt now e)).
    { destruct (statPhysics_single g dt D q bot0 Hg Hdt HD B4 B5) as [(q' & E & Q1 & Q2 & Q3)|E];
        rewrite E in Ts; injection Ts as T1 T2.
      - right; left. split; [exact Tg|]. split; [exact T2|].
        exists q'. split; [exact T1|]. split; [exact Q1|]. split; [exact Q2|congruence].
      - right; right. split; [exact Tg|]. split; [exact T1|]. rewrite T2, B6. reflexivity. }
    split; [|intros _; exact Tg].
    destruct Hnext as [(N1 & _)|[(N1 & N2 & q' & N3 & N4 & N5 & N6)|N]].
    + congruence.
    + right; left. split; [exact N1|]. split; [exact N2|].
      exists q'. split; [exact N3|]. split; [exact N4|]. split; [|exact N6].
      eapply Qle_trans; [exact N5|]. apply Q.max_lub; [exact HD|].
      assert (0 < g * dt * dt).
      { apply Qmult_lt_0_compat; [apply Qmult_lt_0_compat|]; assumption. }
      lra.
    + right; right. exact N.
  - (* landed *)
    rewrite (gatherStep_idle e now C1) in Ts, Tg, Tt.
    cbn [Engine.go_statParticles Engine.go_gathering Engine.go_gatherTarget] in Ts, Tg, Tt.
    rewrite C2 in Ts. cbn [Engine.statPhysics] in Ts. injection Ts as T1 T2.
    assert (Hc : forall D', gatherStage tgt bot0 D' (Engine.tick dt now e)).
    { intros D'. right; right. repeat split; congruence. }
    split; [apply Hc|]. intros _; exact Tg.
Qed.

Lemma gatherStage_weaken (D D' : Q) (e : Engine.t) :
  D <= D' -> gatherStage tgt bot0 D e -> gatherStage tgt bot0 D' e.
Proof.
  intros Hle [A|[(B1 & B2 & q & B3 & B4 & B5 & B6)|C]].
  - left. exact A.
  - right; left. split; [exact B1|]. split; [exact B2|].
    exists q. split; [exact B3|]. split; [exact B4|]. split; [lra|exact B6].
  - right; right. exact C.
Qed.

Lemma ticks_gatherStage (D : Q) (q0 : Engine.StatParticle) (times : list Q) :
  0 <= D ->
  (forall e', Engine.geom e' = g0 -> Engine.botCounts e' = bot0 ->
              Engine.spawnStat e' [] tgt = q0) ->
  Engine.q_targetY q0 - Engine.q_y q0 <= D -> Engine.q_vy q0 = 0 ->
  Engine.q_bin q0 = Engine.gt_bin tgt ->
  forall e, fixed e -> gatherStage tgt bot0 D e ->
            fixed (ticks dt times e) /\ gatherStage tgt bot0 D (ticks dt times e).
Proof.
  intros HD Hspawn Hq0 Hv0 Hb0.
  induction times as [|t times IH]; intros e Hf Hs; [split; assumption|].
  cbn [ticks]. apply IH; [apply tick_fixed, Hf|].
  apply (tick_gatherStage D t e q0); assumption.
Qed.

Lemma ticks_gather_falling (D : Q) (q0 : Engine.StatParticle) (times : list Q) :
  0 <= D ->
  (forall e', Engine.geom e' = g0 -> Engine.botCounts e' = bot0 ->
              Engine.spawnStat e' [] tgt = q0) ->
  Engine.q_vy q0 = 0 -> Engine.q_bin q0 = Engine.gt_bin tgt ->
  forall e, fixed e -> Engine.gathering e = false -> gatherStage tgt bot0 D e ->
            Engine.gathering (ticks dt times e) = false /\
            gatherStage tgt bot0
              (Qmax 0 (D - inject_Z (Z.of_nat (length times)) * (g * dt * dt)))
              (ticks dt times e).
Proof.
  intros HD Hspawn Hv0 Hb0.
  assert (Hgdd : 0 < g * dt * dt).
  { apply Qmult_lt_0_compat; [apply Qmult_lt_0_compat|]; try assumption. apply gravity_pos. }
  revert D HD.
  induction times as [|t times IH]; intros D HD e Hf Hg Hs.
  - cbn [ticks length]. split; [exact Hg|].
    apply (gatherStage_weaken D); [|exact Hs].
    change (inject_Z (Z.of_nat 0)) with 0.
    apply Qle_trans with (D - 0 * (g * dt * dt)); [lra|apply Q.le_max_r].
  - cbn [ticks].
    assert (Hstep : gatherStage tgt bot0 (Qmax 0 (D - g * dt * dt)) (Engine.tick dt t e) /\
                    Engine.gathering (Engine.tick dt t e) = false).
    { destruct Hs as [(A1 & _)|[(B1 & B2 & q & B3 & B4 & B5 & B6)|(C1 & C2 & C3)]];
        [congruence| |].
      - pose proof (tick_stat dt t e) as Ts. cbv zeta in Ts.
        destruct Hf as (F1 & F2 & F3 & F4). rewrite F2 in Ts. fold g in Ts.
        destruct (tick_gather dt t e) as (Tg & _).
        rewrite (gatherStep_idle e t B1) in Ts, Tg.
        cbn [Engine.go_statParticles Engine.go_gathering] in Ts, Tg.
        rewrite B3, B2 in Ts.
        split; [|exact Tg].
        destruct (statPhysics_single g dt D q bot0 (gravity_pos sp) Hdt HD B4 B5)
          as [(q' & E & Q1 & Q2 & Q3)|E]; rewrite E in Ts; injection Ts as T1 T2.
        + right; left. split; [exact Tg|]. split; [exact T2|].
          exists q'. split; [exact T1|]. split; [exact Q1|]. split; [exact Q2|congruence].
        + right; right. split; [exact Tg|]. split; [exact T1|]. rewrite T2, B6. reflexivity.
      - pose proof (tick_stat dt t e) as Ts. cbv zeta in Ts.
        destruct (tick_gather dt t e) as (Tg & _).
        rewrite (gatherStep_idle e t C1) in Ts, Tg.
        cbn [Engine.go_statParticles Engine.go_gathering] in Ts, Tg.
        rewrite C2 in Ts. cbn [Engine.statPhysics] in Ts. injection Ts as T1 T2.
        split; [|exact Tg]. right; right. repeat split; congruence. }
    destruct Hstep as [Hs1 Hg1].
    destruct (IH (Qmax 0 (D - g * dt * dt)) (Q.le_max_l _ _) (Engine.tick dt t e)
                 (tick_fixed t e Hf) Hg1 Hs1) as [I1 I2].
    split; [exact I1|].
    eapply gatherStage_weaken; [|exact I2].
    change (length (t :: times)) with (S (length times)).
    rewrite Nat2Z.inj_succ. unfold Z.succ. rewrite inject_Z_plus.
    change (inject_Z 1) with 1.
    set (k := inject_Z (Z.of_nat (length times))).
    assert (Hk : 0 <= k).
    { unfold k. change 0 with (inject_Z 0). rewrite <- Zle_Qle. lia. }
    assert (Hkg : 0 <= k * (g * dt * dt)) by (apply Qmult_le_0_compat; lra).
    assert (E : (k + 1) * (g * dt * dt) == k * (g * dt * dt) + g * dt * dt) by ring.
    apply Q.max_lub; [apply Q.le_max_l|].
    destruct (Q.max_spec 0 (D - g * dt * dt)) as [[Hlt Hm]|[Hle Hm]]; rewrite Hm.
    + apply Qle_trans with (D - (k + 1) * (g * dt * dt)); [lra|apply Q.le_max_r].
    + apply Qle_trans with 0; [lra|apply Q.le_max_l].
Qed.

End GatherFrames.

Lemma ticks_stat_survivors (dt : Q) (times : list Q) (e : Engine.t) :
  times <> [] ->
  Forall (fun q => Engine.q_y q < Engine.q_targetY q - (1 # 10))
         (Engine.statParticles (ticks dt times e)).
Proof.
  revert e. induction times as [|t times IH]; intros e Hne; [congruence|].
  cbn [ticks]. destruct times as [|t' times].
  - cbn [ticks].
    pose proof (tick_stat dt t e) as Ts. cbv zeta in Ts.
    pose proof (statPhysics_survivors (Engine.gravity (Engine.speed e)) dt
                  (Engine.go_statParticles (Engine.gatherStep e t))
                  (Engine.botCounts e)) as H.
    rewrite <- Ts in H. exact H.
  - apply IH. discriminate.
Qed.

(** X16.  A gather started on an occupied tray, with no other
    statistic particle in flight, delivers exactly one observation:
    there is a number [K] of frames such that, whatever frames happen
    before, once [K] frames not earlier than the end of the gather
    have run the gather is over, its statistic particle has landed,
    and the sampling distribution differs from the one before the
    gather by one increment of the bin resolved for the gathered
    sample (and by nothing when the statistic is NaN). *)
Theorem gather_delivers_one_observation `{HostMath} (e : Engine.t) (t0 dt : Q) :
  App.trayOccupied e = true ->
  Engine.statParticles e = [] ->
  0 < Engine.gatherDur e -> 0 < dt ->
  let lgs := if negb (length (Engine.lastSample e) =? 0)%nat then Engine.lastSample e
             else Engine.expandTray (Engine.COLS e) (Engine.midCounts e) in
  let bin := Bins.binOf (Engine.STAT_BINS e) Bins.eps9 (Engine.statDomain e)
                        (Engine.computeStat e lgs) in
  exists K : nat,
    forall earlier later : list Q,
      Forall (fun t => t0 + Engine.gatherDur e <= t) later -> (K <= length later)%nat ->
      let e' := ticks dt (earlier ++ later) (Engine.calculateWithGather t0 e) in
      Engine.gathering e' = false /\
      Engine.statParticles e' = [] /\
      Engine.botCounts e' = Bins.inc32_at (Engine.botCounts e) bin.
Proof.
  intros Hocc Hst Hdur Hdt lgs bin.
  destruct (calculateWithGather_occupied t0 e Hocc)
    as (_ & _ & G1 & G2 & _ & _ & (tgt & G3 & G4) & _ & _ & G5 & G6 & G7).
  fold lgs in G4. fold bin in G4.
  set (e1 := Engine.calculateWithGather t0 e) in *.
  set (q0 := Engine.spawnStat e1 [] tgt).
  set (D := Qmax 0 (Engine.q_targetY q0 - Engine.q_y q0)).
  set (g := Engine.gravity (Engine.speed e1)).
  assert (Hg : 0 < g) by apply gravity_pos.
  assert (HD : 0 <= D) by apply Q.le_max_l.
  assert (Hspawn : forall e', Engine.geom e' = Engine.geom e1 ->
                              Engine.botCounts e' = Engine.botCounts e ->
                              Engine.spawnStat e' [] tgt = q0).
  { intros e' E1 E2. apply spawnStat_ext; congruence. }
  assert (Hq0 : Engine.q_targetY q0 - Engine.q_y q0 <= D) by apply Q.le_max_r.
  assert (Hfix : Engine.geom e1 = Engine.geom e1 /\ Engine.speed e1 = Engine.speed e1 /\
                 Engine.gatherStart e1 = t0 /\ Engine.gatherDur e1 = Engine.gatherDur e).
  { repeat split; assumption. }
  assert (Hstage : gatherStage tgt (Engine.botCounts e) D e1).
  { left. repeat split; congruence. }
  exists (S (S (Z.to_nat (Qceiling (D / (g * dt * dt)))))).
  intros earlier later Hlater Hlen. cbv zeta. rewrite ticks_app.
  pose proof (ticks_gatherStage tgt (Engine.botCounts e) (Engine.geom e1) (Engine.speed e1)
              t0 (Engine.gatherDur e) dt Hdur Hdt D q0 earlier HD Hspawn Hq0
              eq_refl eq_refl e1 Hfix Hstage) as [Hfix2 Hstage2].
  set (e2 := ticks dt earlier e1) in *.
  destruct later as [|t later]; [cbn in Hlen; lia|].
  cbn [length] in Hlen. cbn [ticks].
  pose proof (tick_gatherStage tgt (Engine.botCounts e) (Engine.geom e1) (Engine.speed e1)
              t0 (Engine.gatherDur e) dt Hdur Hdt D t e2 q0 HD Hspawn Hq0
              eq_refl eq_refl Hfix2 Hstage2) as [Hstage3 Hdone].
  assert (Hg3 : Engine.gathering (Engine.tick dt t e2) = false).
  { apply Hdone. inversion Hlater; assumption. }
  pose proof (tick_fixed (Engine.geom e1) (Engine.speed e1) t0 (Engine.gatherDur e) dt
                         t e2 Hfix2) as Hfix3.
  set (e3 := Engine.tick dt t e2) in *.
  pose proof (ticks_gather_falling tgt (Engine.botCounts e) (Engine.geom e1) (Engine.speed e1)
              t0 (Engine.gatherDur e) dt Hdt D q0 later HD Hspawn eq_refl eq_refl
              e3 Hfix3 Hg3 Hstage3) as [Hg4 Hstage4].
  fold g in Hstage4.
  assert (Hne : later <> []) by (destruct later; [cbn in Hlen; lia|discriminate]).
  pose proof (ticks_stat_survivors dt later e3 Hne) as Hsv.
  pose proof (frames_cover_gap D g dt (length later) HD Hg Hdt ltac:(lia)) as Hcov.
  assert (Hm : Qmax 0 (D - inject_Z (Z.of_nat (length later)) * (g * dt * dt)) == 0).
  { apply Q.max_l. lra. }
  split; [exact Hg4|].
  destruct Hstage4 as [(A1 & _)|[(B1 & B2 & q & B3 & B4 & B5 & B6)|(C1 & C2 & C3)]].
  - congruence.
  - exfalso. rewrite B3 in Hsv. pose proof (Forall_inv Hsv) as Hgt. cbv beta in Hgt.
    rewrite Hm in B5. lra.
  - split; [exact C2|]. rewrite C3, G4. reflexivity.
Qed.

Lemma gather_delivers_one_observation_witness :
  let e := Scenario.settled in
  let lgs := if negb (length (Engine.lastSample e) =? 0)%nat then Engine.lastSample e
             else Engine.expandTray (Engine.COLS e) (Engine.midCounts e) in
  let bin := Bins.binOf (Engine.STAT_BINS e) Bins.eps9 (Engine.statDomain e)
                        (Engine.computeStat e lgs) in
  exists K : nat,
    forall earlier later : list Q,
      Forall (fun t => 2000 + Engine.gatherDur e <= t) later -> (K <= length later)%nat ->
      let e' := ticks (6 # 100) (earlier ++ later) (Engine.calculateWithGather 2000 e) in
      Engine.gathering e' = false /\
      Engine.statParticles e' = [] /\
      Engine.botCounts e' = Bins.inc32_at (Engine.botCounts e) bin.
Proof.
  intros e.
  apply (gather_delivers_one_observation e 2000 (6 # 100)).
  - vm_compute. reflexivity.
  - vm_compute. reflexivity.
  - vm_compute. reflexivity.
  - reflexivity.
Defined.

(** ** The tray as a record of the sample *)

Lemma flat_map_ext_in' {A B : Type} (f g : A -> list B) (l : list A) :
  (forall a, In a l -> f a = g a) -> flat_map f l = flat_map g l.
Proof.
  induction l as [|a l IH]; intros H; [reflexivity|].
  cbn [flat_map]. rewrite (H a) by (left; reflexivity).
  rewrite IH; [reflexivity|]. intros b Hb. apply H. right. exact Hb.
Qed.

Lemma rd_inc16_ne (h : list Z) (i j : nat) : i <> j -> rd (inc16 h i) j = rd h j.
Proof. intros H. unfold inc16. apply rd_insert_ne. exact H. Qed.

Lemma rd_inc16_eq (h : list Z) (i : nat) :
  (i < length h)%nat -> (0 <= rd h i < 65535)%Z -> rd (inc16 h i) i = (rd h i + 1)%Z.
Proof.
  intros Hi Hr. unfold inc16. rewrite rd_insert_eq by exact Hi.
  unfold wrap16, two16. apply Z.mod_small. lia.
Qed.

Lemma seq_split_at (c n : nat) :
  (c < n)%nat -> seq 0 n = seq 0 c ++ c :: seq (S c) (n - S c).
Proof.
  intros H. replace n with (c + S (n - S c))%nat at 1 by lia.
  rewrite seq_app. reflexivity.
Qed.

(** One more box in column [c0] is one more value [center c0]. *)
Lemma expandTray_inc16 (cols : nat) (h : list Z) (c0 : nat) :
  (c0 < cols)%nat -> length h = cols -> (0 <= rd h c0 < 65535)%Z ->
  Permutation (Engine.expandTray cols (inc16 h c0))
              (Pop.center cols c0 :: Engine.expandTray cols h).
Proof.
  intros Hc Hl Hr. unfold Engine.expandTray.
  rewrite (seq_split_at c0 cols Hc), !flat_map_app. cbn [flat_map].
  rewrite rd_inc16_eq by (try lia; exact Hr).
  replace (Z.to_nat (rd h c0 + 1)) with (S (Z.to_nat (rd h c0))) by lia.
  cbn [repeat].
  rewrite (flat_map_ext_in' (fun c => repeat (Pop.center cols c) (Z.to_nat (rd (inc16 h c0) c)))
                            (fun c => repeat (Pop.center cols c) (Z.to_nat (rd h c)))
                            (seq 0 c0)).
  2:{ intros a Ha. apply in_seq in Ha. rewrite rd_inc16_ne by lia. reflexivity. }
  rewrite (flat_map_ext_in' (fun c => repeat (Pop.center cols c) (Z.to_nat (rd (inc16 h c0) c)))
                            (fun c => repeat (Pop.center cols c) (Z.to_nat (rd h c)))
                            (seq (S c0) (cols - S c0))).
  2:{ intros a Ha. apply in_seq in Ha. rewrite rd_inc16_ne by lia. reflexivity. }
  cbn [app]. symmetry. apply Permutation_middle.
Qed.

Lemma expandTray_zeros (cols : nat) : Engine.expandTray cols (zeros cols) = [].
Proof.
  unfold Engine.expandTray.
  rewrite (flat_map_ext_in' _ (fun _ => @nil Q)).
  - induction (seq 0 cols) as [|a l IH]; [reflexivity|exact IH].
  - intros a _. rewrite rd_zeros. reflexivity.
Qed.

Lemma expandTray_fold (cols : nat) (cs : list nat) (h : list Z) :
  Forall (fun c => (c < cols)%nat) cs -> length h = cols ->
  Forall (fun z => 0 <= z)%Z h ->
  (sumZ h + Z.of_nat (length cs) <= 65535)%Z ->
  Permutation (Engine.expandTray cols (fold_left inc16 cs h))
              (map (Pop.center cols) cs ++ Engine.expandTray cols h).
Proof.
  intros Hcs. revert h. induction Hcs as [|c cs Hc _ IH]; intros h Hl Hn Hs.
  - reflexivity.
  - cbn [fold_left map length] in *.
    pose proof (rd_le_sum h c Hn) as Hr.
    rewrite IH.
    + rewrite expandTray_inc16 by (try assumption; lia).
      cbn [app]. symmetry. apply Permutation_middle.
    + rewrite inc16_length. exact Hl.
    + apply inc16_nonneg, Hn.
    + rewrite inc16_sum by (try assumption; lia). lia.
Qed.

Lemma snapshot_length (e : Engine.t) :
  length (Engine.snapshotTray e)
  = length (Engine.expandTray (Engine.COLS e) (Engine.midCounts e)).
Proof.
  unfold Engine.snapshotTray, Engine.expandTray. cbv zeta.
  induction (seq 0 (Engine.COLS e)) as [|c l IH]; [reflexivity|].
  cbn [flat_map]. rewrite !length_app, IH, length_map, length_seq, repeat_length.
  reflexivity.
Qed.

(** X17.  The sample tray records the sample: for a histogram built by
    landing the columns [cs] of a sample of at most 65535 values, the
    list of values the gather reads back from the tray is a
    rearrangement of the sample (in column order), the gather shows
    one particle per value, and the median and the proportion computed
    from the tray are those of the sample. *)
Theorem tray_records_the_sample `{HostMath} (st : Statistic) (thr : Q) (cols : nat)
    (cs : list nat) (e : Engine.t) :
  Forall (fun c => (c < cols)%nat) cs ->
  (Z.of_nat (length cs) <= 65535)%Z ->
  Engine.COLS e = cols ->
  Engine.midCounts e = fold_left inc16 cs (zeros cols) ->
  st = StMedian \/ st = StProportion ->
  Permutation (Engine.expandTray cols (Engine.midCounts e)) (map (Pop.center cols) cs) /\
  length (Engine.snapshotTray e) = length cs /\
  sameNumber (Stats.computeStat st thr (Engine.expandTray cols (Engine.midCounts e)))
             (Stats.computeStat st thr (map (Pop.center cols) cs)).
Proof.
  intros Hcs Hn Hc Hm Hst.
  assert (Hp : Permutation (Engine.expandTray cols (Engine.midCounts e))
                           (map (Pop.center cols) cs)).
  { rewrite Hm, expandTray_fold.
    - rewrite expandTray_zeros, app_nil_r. reflexivity.
    - exact Hcs.
    - apply zeros_length.
    - apply zeros_nonneg.
    - rewrite zeros_sum. lia. }
  split; [exact Hp|]. split.
  - rewrite snapshot_length, Hc, (Permutation_length Hp), length_map. reflexivity.
  - apply computeStat_perm; assumption.
Qed.

Lemma tray_records_the_sample_witness :
  let e := Scenario.settled in
  let cs := snd (fst (Engine.sampleN (Controls.setSeed 1234 (Engine.create 60 60)) 2)) in
  Permutation (Engine.expandTray 60 (Engine.midCounts e)) (map (Pop.center 60) cs) /\
  length (Engine.snapshotTray e) = length cs /\
  sameNumber (Stats.computeStat StMedian (1 # 2) (Engine.expandTray 60 (Engine.midCounts e)))
             (Stats.computeStat StMedian (1 # 2) (map (Pop.center 60) cs)).
Proof.
  intros e cs.
  apply (tray_records_the_sample StMedian (1 # 2) 60 cs e).
  - vm_compute. repeat constructor.
  - vm_compute. discriminate.
  - vm_compute. reflexivity.
  - vm_compute. reflexivity.
  - left. reflexivity.
Defined.

(** ** Editing the population *)

Lemma clampZ_range (x lo hi : Z) : (lo <= hi)%Z -> (lo <= clampZ x lo hi <= hi)%Z.
Proof. intros H. unfold clampZ. lia. Qed.

Lemma clampZ_inside (x lo hi : Z) : (lo <= x <= hi)%Z -> clampZ x lo hi = x.
Proof. intros H. unfold clampZ. lia. Qed.

Lemma wrap16_small (z : Z) : (0 <= z < 65536)%Z -> wrap16 z = z.
Proof. intros H. unfold wrap16, two16. apply Z.mod_small, H. Qed.

Lemma click_outside (delta : Z) (x y : Q) (e : Engine.t) :
  Engine.marginY (Engine.geom e) + Engine.H_TOP (Engine.geom e) < y ->
  Controls.clickPopulation delta x y e = e.
Proof.
  intros Hy. unfold Controls.clickPopulation. cbv zeta.
  destruct (Qle_bool y _) eqn:E; [|reflexivity].
  apply Qle_bool_iff in E. lra.
Qed.

Lemma click_inside (delta : Z) (x y : Q) (e : Engine.t) :
  y <= Engine.marginY (Engine.geom e) + Engine.H_TOP (Engine.geom e) ->
  let col := Z.to_nat (clampZ (Qfloor ((x - Engine.gridX0 (Engine.geom e))
                                       / Engine.BOX (Engine.geom e)))
                              0 (Z.of_nat (Engine.COLS e) - 1)) in
  Engine.popCounts (Controls.clickPopulation delta x y e)
  = <[ col := clampZ (rd (Engine.popCounts e) col + delta) 0 10000 ]> (Engine.popCounts e) /\
  Engine.geom (Controls.clickPopulation delta x y e) = Engine.geom e /\
  Engine.COLS (Controls.clickPopulation delta x y e) = Engine.COLS e /\
  Engine.needsRedraw (Controls.clickPopulation delta x y e) = true /\
  Engine.midCounts (Controls.clickPopulation delta x y e) = Engine.midCounts e /\
  Engine.botCounts (Controls.clickPopulation delta x y e) = Engine.botCounts e /\
  Engine.rng (Controls.clickPopulation delta x y e) = Engine.rng e.
Proof.
  intros Hy. cbv zeta. unfold Controls.clickPopulation. cbv zeta.
  apply Qle_bool_iff in Hy. rewrite Hy. cbn [negb].
  unfold Controls.assign.
  cbn [Engine.popCounts Engine.geom Engine.COLS Engine.needsRedraw Engine.midCounts
       Engine.botCounts Engine.rng].
  rewrite wrap16_small by (pose proof (clampZ_range (rd (Engine.popCounts e)
    (Z.to_nat (clampZ (Qfloor ((x - Engine.gridX0 (Engine.geom e)) / Engine.BOX (Engine.geom e)))
                      0 (Z.of_nat (Engine.COLS e) - 1))) + delta) 0 10000); lia).
  repeat split.
Qed.

(** X18.  A click (or an erasing click) above the lower edge of the
    population tray changes exactly one bin of the population, by
    one step, and never takes it out of [0, 10000]; the length of the
    table, the other bins, the trays and the generator are unchanged
    and a repaint is requested.  A click below the population tray
    does nothing. *)
Theorem click_edits_one_bin (delta : Z) (x y : Q) (e : Engine.t) :
  (0 < Engine.COLS e)%nat ->
  length (Engine.popCounts e) = Engine.COLS e ->
  (y <= Engine.marginY (Engine.geom e) + Engine.H_TOP (Engine.geom e) ->
   let e' := Controls.clickPopulation delta x y e in
   exists col, (col < Engine.COLS e)%nat /\
     rd (Engine.popCounts e') col = clampZ (rd (Engine.popCounts e) col + delta) 0 10000 /\
     (0 <= rd (Engine.popCounts e') col <= 10000)%Z /\
     (forall c, c <> col -> rd (Engine.popCounts e') c = rd (Engine.popCounts e) c) /\
     length (Engine.popCounts e') = length (Engine.popCounts e) /\
     Engine.midCounts e' = Engine.midCounts e /\
     Engine.botCounts e' = Engine.botCounts e /\
     Engine.rng e' = Engine.rng e /\
     Engine.needsRedraw e' = true) /\
  (Engine.marginY (Engine.geom e) + Engine.H_TOP (Engine.geom e) < y ->
   Controls.clickPopulation delta x y e = e).
Proof.
  intros Hc Hl. split; [|apply click_outside].
  intros Hy. cbv zeta.
  destruct (click_inside delta x y e Hy) as (E & _ & _ & R & M & B & G). cbv zeta in E.
  set (col := Z.to_nat (clampZ (Qfloor ((x - Engine.gridX0 (Engine.geom e))
                                        / Engine.BOX (Engine.geom e)))
                               0 (Z.of_nat (Engine.COLS e) - 1))) in *.
  assert (Hcol : (col < Engine.COLS e)%nat).
  { unfold col. pose proof (clampZ_range (Qfloor ((x - Engine.gridX0 (Engine.geom e))
                                                   / Engine.BOX (Engine.geom e)))
                                         0 (Z.of_nat (Engine.COLS e) - 1)). lia. }
  exists col. split; [exact Hcol|]. rewrite E.
  split; [apply rd_insert_eq; lia|].
  split; [rewrite rd_insert_eq by lia; apply clampZ_range; lia|].
  split; [intros c Hne; apply rd_insert_ne; congruence|].
  split; [apply length_insert|]. repeat split; assumption.
Qed.

Lemma click_edits_one_bin_witness :
  let e := Engine.create 60 60 in
  let e' := Controls.clickPopulation 1 100 50 e in
  exists col, (col < Engine.COLS e)%nat /\
    rd (Engine.popCounts e') col = clampZ (rd (Engine.popCounts e) col + 1) 0 10000 /\
    (0 <= rd (Engine.popCounts e') col <= 10000)%Z /\
    (forall c, c <> col -> rd (Engine.popCounts e') c = rd (Engine.popCounts e) c) /\
    length (Engine.popCounts e') = length (Engine.popCounts e) /\
    Engine.midCounts e' = Engine.midCounts e /\
    Engine.botCounts e' = Engine.botCounts e /\
    Engine.rng e' = Engine.rng e /\
    Engine.needsRedraw e' = true.
Proof.
  intros e.
  refine (proj1 (click_edits_one_bin 1 100 50 e _ _) _).
  - vm_compute. lia.
  - vm_compute. reflexivity.
  - vm_compute. discriminate.
Defined.

Lemma Qfloor_unique (x : Q) (z : Z) :
  inject_Z z <= x -> x < inject_Z (z + 1) -> Qfloor x = z.
Proof.
  intros H1 H2.
  pose proof (Qfloor_le x) as F1. pose proof (Qlt_floor x) as F2.
  assert (A : inject_Z (Qfloor x) < inject_Z (z + 1)) by lra.
  assert (B : inject_Z z < inject_Z (Qfloor x + 1)) by lra.
  rewrite <- Zlt_Qlt in A, B. lia.
Qed.

Lemma column_of_centre (e : Engine.t) (c : nat) :
  0 < Engine.BOX (Engine.geom e) -> (c < Engine.COLS e)%nat ->
  Z.to_nat (clampZ (Qfloor ((Engine.colCenter e c - Engine.gridX0 (Engine.geom e))
                            / Engine.BOX (Engine.geom e)))
                   0 (Z.of_nat (Engine.COLS e) - 1)) = c.
Proof.
  intros Hb Hc. unfold Engine.colCenter.
  set (B := Engine.BOX (Engine.geom e)) in *. set (x0 := Engine.gridX0 (Engine.geom e)).
  assert (E : (x0 + inject_Z (Z.of_nat c) * B + B / 2 - x0) / B
              == inject_Z (Z.of_nat c) + (1 # 2)) by (field; lra).
  rewrite (Qfloor_comp _ _ E).
  rewrite (Qfloor_unique _ (Z.of_nat c)).
  - rewrite clampZ_inside by lia. apply Nat2Z.id.
  - lra.
  - rewrite inject_Z_plus. change (inject_Z 1) with 1. lra.
Qed.

(** X19.  The column a click resolves is the column drawn under the
    pointer: a click at the horizontal centre of column [c], inside the
    population tray, adds one box to bin [c]; and an erasing click at
    the same place takes it away again, restoring the population (as
    long as the bin was below the cap of 10000). *)
Theorem click_hits_the_column_under_it (e : Engine.t) (c : nat) (y : Q) :
  0 < Engine.BOX (Engine.geom e) -> (c < Engine.COLS e)%nat ->
  length (Engine.popCounts e) = Engine.COLS e ->
  y <= Engine.marginY (Engine.geom e) + Engine.H_TOP (Engine.geom e) ->
  (0 <= rd (Engine.popCounts e) c < 10000)%Z ->
  let e1 := Controls.clickPopulation 1 (Engine.colCenter e c) y e in
  let e2 := Controls.clickPopulation (-1) (Engine.colCenter e c) y e1 in
  Engine.popCounts e1 = <[ c := (rd (Engine.popCounts e) c + 1)%Z ]> (Engine.popCounts e) /\
  Engine.popCounts e2 = Engine.popCounts e.
Proof.
  intros Hb Hc Hl Hy Hr. cbv zeta.
  destruct (click_inside 1 (Engine.colCenter e c) y e Hy) as (E1 & G1 & C1 & _).
  cbv zeta in E1. rewrite (column_of_centre e c Hb Hc) in E1.
  rewrite clampZ_inside in E1 by lia.
  split; [exact E1|].
  set (e1 := Controls.clickPopulation 1 (Engine.colCenter e c) y e) in *.
  assert (Hcc : Engine.colCenter e c = Engine.colCenter e1 c).
  { unfold Engine.colCenter. rewrite G1. reflexivity. }
  rewrite Hcc.
  destruct (click_inside (-1) (Engine.colCenter e1 c) y e1) as (E2 & _).
  { rewrite G1. exact Hy. }
  cbv zeta in E2. rewrite (column_of_centre e1 c) in E2 by (rewrite ?G1, ?C1; assumption).
  rewrite E2, E1. rewrite rd_insert_eq by lia.
  rewrite clampZ_inside by lia.
  rewrite list_insert_insert_eq.
  replace (rd (Engine.popCounts e) c + 1 + -1)%Z with (rd (Engine.popCounts e) c) by lia.
  apply list_insert_id. unfold rd.
  destruct (Engine.popCounts e !! c) as [z|] eqn:Ez; [reflexivity|].
  apply lookup_ge_None in Ez. lia.
Qed.

Lemma click_hits_the_column_under_it_witness :
  let e := Engine.create 60 60 in
  let e1 := Controls.clickPopulation 1 (Engine.colCenter e 7) 50 e in
  let e2 := Controls.clickPopulation (-1) (Engine.colCenter e 7) 50 e1 in
  Engine.popCounts e1 = <[ 7%nat := (rd (Engine.popCounts e) 7 + 1)%Z ]> (Engine.popCounts e) /\
  Engine.popCounts e2 = Engine.popCounts e.
Proof.
  intros e.
  apply (click_hits_the_column_under_it e 7 50).
  - reflexivity.
  - vm_compute. lia.
  - vm_compute. reflexivity.
  - vm_compute. discriminate.
  - vm_compute. split; [discriminate|reflexivity].
Defined.

(** ** Layout and scaling *)

Lemma Qmax6_integer (z : Z) : exists k : Z, Qmax 6 (inject_Z z) == inject_Z k /\ (6 <= k)%Z.
Proof.
  destruct (Q.max_spec 6 (inject_Z z)) as [[Hlt Hm]|[Hle Hm]].
  - exists z. split; [exact Hm|].
    change 6 with (inject_Z 6) in Hlt. rewrite <- Zlt_Qlt in Hlt. lia.
  - exists 6%Z. split; [exact Hm|lia].
Qed.

(** X20.  [layoutFromViewport] always leaves a usable layout: the
    column width is a whole number of pixels and at least 6, the grid
    is [COLS] columns wide and centred in the plot to the pixel, and
    the three trays have heights 30, 24 and 36 times a common unit of
    at least 6 px, which is no larger than the column width whenever
    the plot is at least 232 px wide.  It requests a repaint and
    leaves the three histograms alone. *)
Theorem layout_is_usable (pw canvasH : Q) (e : Engine.t) :
  (0 < Engine.COLS e)%nat ->
  let e' := Controls.layoutFromViewport pw canvasH e in
  let g := Engine.geom e' in
  (exists k : Z, Engine.BOX g == inject_Z k /\ (6 <= k)%Z) /\
  Engine.gridW g == Engine.BOX g * inject_Z (Z.of_nat (Engine.COLS e)) /\
  (Engine.gridX0 g <= (pw - Engine.gridW g) / 2 /\ (pw - Engine.gridW g) / 2 < Engine.gridX0 g + 1) /\
  (exists u, 6 <= u /\ Engine.H_TOP g == 30 * u /\ Engine.H_MID g == 24 * u /\
             Engine.H_BOT g == 36 * u /\ (232 <= pw -> u <= Engine.BOX g)) /\
  Engine.needsRedraw e' = true /\
  Engine.popCounts e' = Engine.popCounts e /\ Engine.midCounts e' = Engine.midCounts e /\
  Engine.botCounts e' = Engine.botCounts e.
Proof.
  intros Hc. cbv zeta.
  unfold Controls.layoutFromViewport, Controls.assign, Engine.resetGeometry. cbv zeta.
  cbn [Engine.geom Engine.BOX Engine.gridW Engine.gridX0 Engine.H_TOP Engine.H_MID
       Engine.H_BOT Engine.needsRedraw Engine.popCounts Engine.midCounts Engine.botCounts].
  set (n := inject_Z (Z.of_nat (Engine.COLS e))).
  split; [apply Qmax6_integer|]. split; [reflexivity|]. split.
  { split; [apply Qfloor_le|].
    pose proof (Qlt_floor ((pw - Qmax 6 (inject_Z (Qfloor ((pw - 2 * 16) / n))) * n) / 2)) as H.
    rewrite inject_Z_plus in H. exact H. }
  split; [|repeat split].
  exists (Qmin (Qmax 6 (inject_Z (Qfloor (Qmax 200 (pw - 2 * 16) / n))))
               (Qmax 6 (inject_Z (Qfloor ((canvasH - 2 * 16) / 90))))).
  split; [apply Q.min_glb; apply Q.le_max_l|].
  split; [reflexivity|]. split; [reflexivity|]. split; [reflexivity|].
  intros Hpw.
  eapply Qle_trans; [apply Q.le_min_l|].
  assert (E : Qmax 200 (pw - 2 * 16) == pw - 2 * 16) by (apply Q.max_r; lra).
  assert (E2 : Qfloor (Qmax 200 (pw - 2 * 16) / n) = Qfloor ((pw - 2 * 16) / n)).
  { apply Qfloor_comp. rewrite E. reflexivity. }
  rewrite E2. apply Qle_refl.
Qed.

Lemma layout_is_usable_witness :
  let e := Engine.create 60 60 in
  let e' := Controls.layoutFromViewport 640 560 e in
  let g := Engine.geom e' in
  (exists k : Z, Engine.BOX g == inject_Z k /\ (6 <= k)%Z) /\
  Engine.gridW g == Engine.BOX g * inject_Z (Z.of_nat (Engine.COLS e)) /\
  (Engine.gridX0 g <= (640 - Engine.gridW g) / 2 /\
   (640 - Engine.gridW g) / 2 < Engine.gridX0 g + 1) /\
  (exists u, 6 <= u /\ Engine.H_TOP g == 30 * u /\ Engine.H_MID g == 24 * u /\
             Engine.H_BOT g == 36 * u /\ (232 <= 640 -> u <= Engine.BOX g)) /\
  Engine.needsRedraw e' = true /\
  Engine.popCounts e' = Engine.popCounts e /\ Engine.midCounts e' = Engine.midCounts e /\
  Engine.botCounts e' = Engine.botCounts e.
Proof.
  intros e.
  apply (layout_is_usable 640 560 e). vm_compute. lia.
Defined.

Lemma maxOf_from (arr : list Z) (m : Z) :
  (m <= fold_left Z.max arr m)%Z /\
  forall c, (rd arr c <= fold_left Z.max arr m)%Z \/ arr !! c = None.
Proof.
  revert m. induction arr as [|x arr IH]; intros m; cbn [fold_left].
  - split; [lia|]. intros c. right. apply lookup_nil.
  - destruct (IH (Z.max m x)) as [I1 I2]. split; [lia|].
    intros [|c].
    + left. cbn. lia.
    + destruct (I2 c) as [H|H]; [left; rewrite rd_cons_S; exact H|right; exact H].
Qed.

Lemma rd_le_maxOf (arr : list Z) (c : nat) :
  (rd arr c <= Controls.maxOf arr)%Z /\ (0 <= Controls.maxOf arr)%Z.
Proof.
  unfold Controls.maxOf. destruct (maxOf_from arr 0) as [H0 H]. split; [|exact H0].
  destruct (H c) as [Hc|Hn]; [exact Hc|].
  unfold rd. rewrite Hn. cbn. exact H0.
Qed.

(** A stack of [rd counts c] boxes scaled by [scaleOf] fits under the
    28 px header of a tray of height [h]. *)
Lemma scaled_stack_fits (h box : Q) (counts : list Z) (c : nat) :
  0 < box -> 28 <= h -> Forall (fun z => 0 <= z)%Z counts ->
  0 <= box * Controls.scaleOf h box counts /\
  box * Controls.scaleOf h box counts <= box /\
  inject_Z (rd counts c) * (box * Controls.scaleOf h box counts) <= Qmax 0 (h - 28) /\
  (inject_Z (Controls.maxOf counts) * box <= h - 28 ->
   Controls.scaleOf h box counts == 1).
Proof.
  intros Hb Hh Hn.
  destruct (rd_le_maxOf counts c) as [Hc Hm].
  pose proof (rd_nonneg counts c Hn) as Hr.
  assert (Qr : 0 <= inject_Z (rd counts c)).
  { change 0 with (inject_Z 0). rewrite <- Zle_Qle. exact Hr. }
  assert (Qm : inject_Z (rd counts c) <= inject_Z (Controls.maxOf counts)).
  { rewrite <- Zle_Qle. exact Hc. }
  unfold Controls.scaleOf. cbv zeta.
  set (need := inject_Z (Controls.maxOf counts) * box) in *.
  assert (Hneed : 0 <= need).
  { unfold need. apply Qmult_le_0_compat; [|lra].
    change 0 with (inject_Z 0). rewrite <- Zle_Qle. exact Hm. }
  destruct (Qle_bool need 0) eqn:E; cbn [negb].
  - apply Qle_bool_iff in E.
    assert (Hz : inject_Z (rd counts c) * box <= 0).
    { apply Qle_trans with need; [|exact E].
      unfold need. apply Qmult_le_compat_r; lra. }
    rewrite Qmult_1_r.
    split; [lra|]. split; [lra|]. split.
    + apply Qle_trans with 0; [exact Hz|apply Q.le_max_l].
    + intros _. reflexivity.
  - apply Qle_bool_false in E. apply Qnot_le_lt in E.
    assert (Hq : 0 <= (h - 28) / need).
    { apply Qle_shift_div_l; [exact E|]. lra. }
    set (sc := Qmin 1 ((h - 28) / need)).
    assert (S0 : 0 <= sc) by (apply Q.min_glb; lra).
    assert (S1 : sc <= 1) by apply Q.le_min_l.
    assert (S2 : sc <= (h - 28) / need) by apply Q.le_min_r.
    assert (Hbs : 0 <= box * sc) by (apply Qmult_le_0_compat; lra).
    split; [exact Hbs|]. split.
    + rewrite <- (Qmult_1_r box) at 2. rewrite !(Qmult_comm box).
      apply Qmult_le_compat_r; lra.
    + split.
      * apply Qle_trans with (h - 28); [|apply Q.le_max_r].
        apply Qle_trans with (inject_Z (Controls.maxOf counts) * (box * sc)).
        { apply Qmult_le_compat_r; assumption. }
        assert (E1 : inject_Z (Controls.maxOf counts) * (box * sc) == need * sc)
          by (unfold need; ring).
        rewrite E1.
        apply Qle_trans with (need * ((h - 28) / need)).
        { rewrite !(Qmult_comm need). apply Qmult_le_compat_r; lra. }
        assert (E2 : need * ((h - 28) / need) == h - 28) by (field; lra).
        rewrite E2. apply Qle_refl.
      * intros Hfit. unfold sc. apply Q.min_l.
        apply Qle_shift_div_l; [exact E|]. lra.
Qed.

(** X21.  A repaint of an engine with a canvas context only ever
    shrinks the boxes of a tray: after [draw()] no box is taller than
    it is wide; the boxes of a tray stay square when its tallest stack
    of square boxes fits into the tray height minus 28 px, and
    otherwise they are scaled so that every stack fits into that
    height (up to the rounding of the scale, one part in 10^9).  The
    repaint flag is cleared and the histograms are not touched.
    Without a pending repaint [draw()] does nothing. *)
Theorem repaint_fits_every_stack (e : Engine.t) (c : nat) :
  0 < Engine.BOX (Engine.geom e) ->
  28 <= Engine.H_TOP (Engine.geom e) -> 28 <= Engine.H_MID (Engine.geom e) ->
  28 <= Engine.H_BOT (Engine.geom e) ->
  Forall (fun z => 0 <= z)%Z (Engine.popCounts e) ->
  Forall (fun z => 0 <= z)%Z (Engine.midCounts e) ->
  Forall (fun z => 0 <= z)%Z (Engine.botCounts e) ->
  (Engine.needsRedraw e = true ->
   let g := Engine.geom (Controls.draw e) in
   let slack := 1000000001 # 1000000000 in
   (inject_Z (rd (Engine.popCounts e) c) * Engine.BOX_TOP_Y g <= (Engine.H_TOP g - 28) * slack /\
    inject_Z (rd (Engine.midCounts e) c) * Engine.BOX_MID_Y g <= (Engine.H_MID g - 28) * slack /\
    inject_Z (rd (Engine.botCounts e) c) * Engine.BOX_BOT_Y g <= (Engine.H_BOT g - 28) * slack) /\
   (0 <= Engine.BOX_TOP_Y g <= Engine.BOX g /\ 0 <= Engine.BOX_MID_Y g <= Engine.BOX g /\
    0 <= Engine.BOX_BOT_Y g <= Engine.BOX g) /\
   ((inject_Z (Controls.maxOf (Engine.popCounts e)) * Engine.BOX g <= Engine.H_TOP g - 28 ->
     Engine.BOX_TOP_Y g == Engine.BOX g) /\
    (inject_Z (Controls.maxOf (Engine.midCounts e)) * Engine.BOX g <= Engine.H_MID g - 28 ->
     Engine.BOX_MID_Y g == Engine.BOX g) /\
    (inject_Z (Controls.maxOf (Engine.botCounts e)) * Engine.BOX g <= Engine.H_BOT g - 28 ->
     Engine.BOX_BOT_Y g == Engine.BOX g)) /\
   Engine.needsRedraw (Controls.draw e) = false /\
   Engine.popCounts (Controls.draw e) = Engine.popCounts e /\
   Engine.midCounts (Controls.draw e) = Engine.midCounts e /\
   Engine.botCounts (Controls.draw e) = Engine.botCounts e) /\
  (Engine.needsRedraw e = false -> Controls.draw e = e).
Proof.
  intros Hb H1 H2 H3 N1 N2 N3. split.
  - intros Hr. cbv zeta. unfold Controls.draw. rewrite Hr. cbn [negb].
    unfold Controls.assign.
    cbn [Engine.geom Engine.BOX_TOP_Y Engine.BOX_MID_Y Engine.BOX_BOT_Y Engine.H_TOP
         Engine.H_MID Engine.H_BOT Engine.BOX Engine.needsRedraw Engine.popCounts
         Engine.midCounts Engine.botCounts].
    destruct (scaled_stack_fits (Engine.H_TOP (Engine.geom e)) (Engine.BOX (Engine.geom e))
                (Engine.popCounts e) c Hb H1 N1) as (A1 & A2 & A3 & A4).
    destruct (scaled_stack_fits (Engine.H_MID (Engine.geom e)) (Engine.BOX (Engine.geom e))
                (Engine.midCounts e) c Hb H2 N2) as (B1 & B2 & B3 & B4).
    destruct (scaled_stack_fits (Engine.H_BOT (Engine.geom e)) (Engine.BOX (Engine.geom e))
                (Engine.botCounts e) c Hb H3 N3) as (C1 & C2 & C3 & C4).
    rewrite Q.max_r in A3 by lra. rewrite Q.max_r in B3 by lra. rewrite Q.max_r in C3 by lra.
    assert (Hslack : forall h x, 28 <= h -> x <= h - 28 ->
                       x <= (h - 28) * (1000000001 # 1000000000)).
    { intros h x Hh Hx. lra. }
    split; [repeat split; apply Hslack; assumption|].
    split; [repeat split; assumption|].
    split.
    + split; [|split]; intros Hfit.
      * rewrite (A4 Hfit). ring.
      * rewrite (B4 Hfit). ring.
      * rewrite (C4 Hfit). ring.
    + repeat split.
  - intros Hr. unfold Controls.draw. rewrite Hr. reflexivity.
Qed.

Lemma repaint_fits_every_stack_witness :
  let e := Scenario.twoBins in
  let g := Engine.geom (Controls.draw e) in
  let slack := 1000000001 # 1000000000 in
  (inject_Z (rd (Engine.popCounts e) 0) * Engine.BOX_TOP_Y g <= (Engine.H_TOP g - 28) * slack /\
   inject_Z (rd (Engine.midCounts e) 0) * Engine.BOX_MID_Y g <= (Engine.H_MID g - 28) * slack /\
   inject_Z (rd (Engine.botCounts e) 0) * Engine.BOX_BOT_Y g <= (Engine.H_BOT g - 28) * slack) /\
  (0 <= Engine.BOX_TOP_Y g <= Engine.BOX g /\ 0 <= Engine.BOX_MID_Y g <= Engine.BOX g /\
   0 <= Engine.BOX_BOT_Y g <= Engine.BOX g) /\
  ((inject_Z (Controls.maxOf (Engine.popCounts e)) * Engine.BOX g <= Engine.H_TOP g - 28 ->
    Engine.BOX_TOP_Y g == Engine.BOX g) /\
   (inject_Z (Controls.maxOf (Engine.midCounts e)) * Engine.BOX g <= Engine.H_MID g - 28 ->
    Engine.BOX_MID_Y g == Engine.BOX g) /\
   (inject_Z (Controls.maxOf (Engine.botCounts e)) * Engine.BOX g <= Engine.H_BOT g - 28 ->
    Engine.BOX_BOT_Y g == Engine.BOX g)) /\
  Engine.needsRedraw (Controls.draw e) = false /\
  Engine.popCounts (Controls.draw e) = Engine.popCounts e /\
  Engine.midCounts (Controls.draw e) = Engine.midCounts e /\
  Engine.botCounts (Controls.draw e) = Engine.botCounts e.
Proof.
  intros e.
  refine (proj1 (repaint_fits_every_stack e 0 _ _ _ _ _ _ _) _).
  - reflexivity.
  - vm_compute. discriminate.
  - vm_compute. discriminate.
  - vm_compute. discriminate.
  - vm_compute. repeat constructor; discriminate.
  - apply zeros_nonneg.
  - apply zeros_nonneg.
  - vm_compute. reflexivity.
Defined.

(** ** The renderer's coordinate maps *)

Lemma colsOf_pos (cfg : Renderer.Config) : (0 < Renderer.colsOf cfg)%nat.
Proof. unfold Renderer.colsOf. destruct (Renderer.cfg_cols cfg) as [[|k]|]; lia. Qed.

Lemma updateLayout_grid (cfg : Renderer.Config) (pw canvasH : Q) (l : Renderer.Layout) :
  let l' := Renderer.updateLayout cfg pw canvasH l in
  6 <= Renderer.boxSize l' /\
  Renderer.gridW l' == Renderer.boxSize l' * inject_Z (Z.of_nat (Renderer.colsOf cfg)) /\
  6 <= Renderer.gridW l'.
Proof.
  cbv zeta. unfold Renderer.updateLayout. cbv zeta.
  cbn [Renderer.boxSize Renderer.gridW].
  set (box := Qmin _ _).
  assert (Hb : 6 <= box) by (apply Q.min_glb; apply Q.le_max_l).
  split; [exact Hb|]. split; [reflexivity|].
  pose proof (colsOf_pos cfg) as Hc.
  assert (Hn : 1 <= inject_Z (Z.of_nat (Renderer.colsOf cfg))).
  { change 1 with (inject_Z 1). rewrite <- Zle_Qle. lia. }
  apply Qle_trans with (box * 1); [lra|].
  rewrite !(Qmult_comm box). apply Qmult_le_compat_r; lra.
Qed.

Lemma screenToValue_of (l : Renderer.Layout) (p : Q) :
  0 < Renderer.gridW l -> 0 <= p -> p <= 1 ->
  exists q, Renderer.screenToValue l (Renderer.gridX0 l + p * Renderer.gridW l) = Num q /\
            q == p.
Proof.
  intros Hw H0 H1. unfold Renderer.screenToValue.
  rewrite js_div_clamp01_pos by exact Hw.
  eexists. split; [reflexivity|].
  assert (E : (Renderer.gridX0 l + p * Renderer.gridW l - Renderer.gridX0 l) / Renderer.gridW l
              == p) by (field; lra).
  unfold clamp. rewrite E. rewrite Q.min_r by exact H1. apply Q.max_r. exact H0.
Qed.

(** X22.  After any layout the grid of the renderer is at least 6 px
    wide, [valueToX] maps every value into the grid, and
    [screenToValue] undoes it up to rounding: the screen position of a
    value [v] of a domain [lo, hi] is read back as a fraction of the
    grid in [0, 1] within 10^-9 of [clamp((v - lo) / (hi - lo), 0, 1)],
    which is [v] itself for a value of the population domain
    [0, 1]. *)
Theorem screen_position_round_trip (cfg : Renderer.Config) (pw canvasH : Q)
    (l0 : Renderer.Layout) (v lo hi : Q) :
  lo < hi ->
  let l := Renderer.updateLayout cfg pw canvasH l0 in
  let p := clamp ((v - lo) / (hi - lo)) 0 1 in
  let tol := 1 # 1000000000 in
  6 <= Renderer.gridW l /\
  exists x q,
    Renderer.valueToX l v (lo, hi) = Num x /\
    Renderer.gridX0 l <= x /\ x <= Renderer.gridX0 l + Renderer.gridW l /\
    Renderer.screenToValue l x = Num q /\
    (0 <= q /\ q <= 1) /\
    (p - tol <= q /\ q <= p + tol) /\
    (lo == 0 -> hi == 1 -> 0 <= v -> v <= 1 -> v - tol <= q /\ q <= v + tol).
Proof.
  intros Hd. cbv zeta.
  destruct (updateLayout_grid cfg pw canvasH l0) as (_ & _ & Hw). cbv zeta in Hw.
  set (l := Renderer.updateLayout cfg pw canvasH l0) in *.
  split; [exact Hw|].
  unfold Renderer.valueToX. rewrite js_div_clamp01_pos by lra.
  destruct (clamp01_range ((v - lo) / (hi - lo))) as [P0 P1].
  set (p := clamp ((v - lo) / (hi - lo)) 0 1) in *.
  destruct (screenToValue_of l p) as (q & Eq & Hq); [lra|exact P0|exact P1|].
  exists (Renderer.gridX0 l + p * Renderer.gridW l), q.
  split; [reflexivity|].
  assert (0 <= p * Renderer.gridW l) by (apply Qmult_le_0_compat; lra).
  assert (p * Renderer.gridW l <= 1 * Renderer.gridW l)
    by (apply Qmult_le_compat_r; lra).
  split; [lra|]. split; [lra|]. split; [exact Eq|].
  split; [split; lra|]. split; [split; lra|].
  intros Hlo Hhi V0 V1.
  assert (Ep : p == v).
  { unfold p. assert (E : (v - lo) / (hi - lo) == v) by (rewrite Hlo, Hhi; field).
    unfold clamp. rewrite E. rewrite Q.min_r by exact V1. apply Q.max_r. exact V0. }
  split; lra.
Qed.

Lemma screen_position_round_trip_witness :
  let l := Renderer.updateLayout Renderer.DEFAULT_CONFIG 960 1112 (Renderer.layout0 300 150) in
  let p := clamp (((1 # 100) - 0) / (1 - 0)) 0 1 in
  let tol := 1 # 1000000000 in
  6 <= Renderer.gridW l /\
  exists x q,
    Renderer.valueToX l (1 # 100) (0, 1) = Num x /\
    Renderer.gridX0 l <= x /\ x <= Renderer.gridX0 l + Renderer.gridW l /\
    Renderer.screenToValue l x = Num q /\
    (0 <= q /\ q <= 1) /\
    (p - tol <= q /\ q <= p + tol) /\
    (0 == 0 -> 1 == 1 -> 0 <= 1 # 100 -> 1 # 100 <= 1 ->
     (1 # 100) - tol <= q /\ q <= (1 # 100) + tol).
Proof.
  apply (screen_position_round_trip Renderer.DEFAULT_CONFIG 960 1112
           (Renderer.layout0 300 150) (1 # 100) 0 1).
  reflexivity.
Defined.

(** ** Editing the population through the canvas of the application *)

Lemma modifyPopulation_at_centre (e : StatEngine.t) (c : nat) (position : Q) (delta : Z) :
  (c < StatEngine.cols e)%nat -> position == Pop.center (StatEngine.cols e) c ->
  StatEngine.populationData (StatEngine.modifyPopulation position delta e)
  = <[ c := wrap16 (clampZ (rd (StatEngine.populationData e) c + delta) 0 10000) ]>
      (StatEngine.populationData e).
Proof.
  intros Hc Hp. unfold StatEngine.modifyPopulation, StatEngine.with_population.
  cbv zeta. cbn [StatEngine.populationData].
  assert (Hn : 0 < inject_Z (Z.of_nat (StatEngine.cols e))).
  { change 0 with (inject_Z 0). rewrite <- Zlt_Qlt. lia. }
  assert (E : position * inject_Z (Z.of_nat (StatEngine.cols e))
              == inject_Z (Z.of_nat c) + (1 # 2)).
  { rewrite Hp. unfold Pop.center. field. lra. }
  rewrite (Qfloor_comp _ _ E).
  rewrite (Qfloor_unique _ (Z.of_nat c)).
  - rewrite clampZ_inside by lia. rewrite Nat2Z.id. reflexivity.
  - lra.
  - rewrite inject_Z_plus. change (inject_Z 1) with 1. lra.
Qed.

(** X23.  In the application, pressing the mouse on the canvas inside
    the population area, at the screen position of the centre of bin
    [c], adds one unit of weight to bin [c] of the engine (or removes
    one with shift held), clamped to [0, 10000], and changes no other
    bin; a press at or below the lower edge of the population area
    changes nothing. *)
Theorem canvas_press_edits_bin_under_pointer (a : CLTApp.t) (c : nat) (y : Q)
    (isAdding : bool) :
  0 < Renderer.gridW (CLTApp.layout a) ->
  (c < StatEngine.cols (CLTApp.engine a))%nat ->
  let l := CLTApp.layout a in
  let x := Renderer.gridX0 l
           + Pop.center (StatEngine.cols (CLTApp.engine a)) c * Renderer.gridW l in
  let data := StatEngine.populationData (CLTApp.engine a) in
  (y < Renderer.h_top l + Renderer.marginY l ->
   StatEngine.populationData (CLTApp.engine (CLTApp.canvasModify x y isAdding a))
   = <[ c := clampZ (rd data c + (if isAdding then 1 else -1)) 0 10000 ]> data) /\
  (Renderer.h_top l + Renderer.marginY l <= y ->
   CLTApp.canvasModify x y isAdding a = a).
Proof.
  intros Hw Hc. cbv zeta.
  destruct (center_range (StatEngine.cols (CLTApp.engine a)) c Hc) as [C0 C1].
  destruct (screenToValue_of (CLTApp.layout a)
              (Pop.center (StatEngine.cols (CLTApp.engine a)) c) Hw) as (q & Eq & Hq);
    [lra|lra|].
  unfold CLTApp.canvasModify. rewrite Eq.
  split.
  - intros Hy.
    destruct (Qle_bool _ y) eqn:E; [apply Qle_bool_iff in E; lra|].
    unfold CLTApp.with_engine. cbn [CLTApp.engine].
    rewrite (modifyPopulation_at_centre _ c q _ Hc Hq).
    rewrite wrap16_small; [reflexivity|].
    pose proof (clampZ_range (rd (StatEngine.populationData (CLTApp.engine a)) c
                              + (if isAdding then 1 else -1)) 0 10000). lia.
  - intros Hy. apply Qle_bool_iff in Hy. rewrite Hy. reflexivity.
Qed.

Lemma canvas_press_edits_bin_under_pointer_witness :
  let a := uniformApp in
  let l := CLTApp.layout a in
  let x := Renderer.gridX0 l
           + Pop.center (StatEngine.cols (CLTApp.engine a)) 7 * Renderer.gridW l in
  let data := StatEngine.populationData (CLTApp.engine a) in
  StatEngine.populationData (CLTApp.engine (CLTApp.canvasModify x 100 true a))
  = <[ 7%nat := clampZ (rd data 7 + (if true then 1 else -1)) 0 10000 ]> data.
Proof.
  intros a.
  refine (proj1 (canvas_press_edits_bin_under_pointer a 7 100 true _ _) _).
  - vm_compute. reflexivity.
  - vm_compute. lia.
  - vm_compute. reflexivity.
Defined.

(** ** Drawing samples in the application *)

Lemma fold_inc16_sum (cs : list nat) (h : list Z) :
  Forall (fun c => (c < length h)%nat) cs ->
  Forall (fun z => 0 <= z)%Z h ->
  (sumZ h + Z.of_nat (length cs) <= 65535)%Z ->
  sumZ (fold_left inc16 cs h) = (sumZ h + Z.of_nat (length cs))%Z /\
  length (fold_left inc16 cs h) = length h /\
  Forall (fun z => 0 <= z)%Z (fold_left inc16 cs h).
Proof.
  intros Hcs. revert h Hcs. induction cs as [|c cs IH]; intros h Hcs Hn Hs.
  - cbn [fold_left length]. change (Z.of_nat 0) with 0%Z.
    split; [lia|]. split; [reflexivity|exact Hn].
  - inversion Hcs as [|? ? Hc Hcs']; subst. cbn [fold_left length] in *.
    destruct (IH (inc16 h c)) as (I1 & I2 & I3).
    + rewrite inc16_length. exact Hcs'.
    + apply inc16_nonneg, Hn.
    + rewrite inc16_sum by (try assumption; lia). lia.
    + rewrite I1, I2, inc16_length, inc16_sum by (try assumption; lia).
      repeat split; [lia|exact I3].
Qed.

(** What drawing one sample of [n] values does to the shared engine. *)
Lemma sampleOnce_spec `{HostMath} (n : nat) (e : StatEngine.t) :
  (0 < n)%nat -> (Z.of_nat n <= 65535)%Z ->
  (0 < StatEngine.cols e)%nat -> length (StatEngine.sampleData e) = StatEngine.cols e ->
  (0 < StatEngine.statBins e)%nat ->
  StatEngine.statistic e <> StOther ->
  length (StatEngine.samplingDistData e) = StatEngine.statBins e ->
  Forall (fun z => 0 <= z)%Z (StatEngine.samplingDistData e) ->
  (sumZ (StatEngine.samplingDistData e) < two32 - 1)%Z ->
  let e' := CLTApp.sampleOnce n e in
  (StatEngine.cols e' = StatEngine.cols e /\
   StatEngine.statBins e' = StatEngine.statBins e /\
   StatEngine.statistic e' = StatEngine.statistic e /\
   StatEngine.populationData e' = StatEngine.populationData e /\
   length (StatEngine.sampleData e') = StatEngine.cols e) /\
  StatEngine.rng e' = snd (Rng.draws n (StatEngine.rng e)) /\
  StatEngine.currentSample e' = [] /\
  sumZ (StatEngine.sampleData e') = Z.of_nat n /\
  length (StatEngine.samplingDistData e') = StatEngine.statBins e /\
  Forall (fun z => 0 <= z)%Z (StatEngine.samplingDistData e') /\
  sumZ (StatEngine.samplingDistData e') = (sumZ (StatEngine.samplingDistData e) + 1)%Z.
Proof.
  intros Hn Hn16 Hc Hsd HB Hst Hl Hnn Hs. cbv zeta.
  unfold CLTApp.sampleOnce, StatEngine.drawSample.
  pose proof (sampleN_stream (StatEngine.cols e) (StatEngine.populationData e) n
                             (StatEngine.rng e)) as Hr.
  pose proof (sampleN_nonempty (StatEngine.cols e) (StatEngine.populationData e) n
                               (StatEngine.rng e) Hn) as Hne.
  pose proof (sampleN_columns_lt (StatEngine.cols e) (StatEngine.populationData e) n
                                 (StatEngine.rng e) Hc) as Hcols.
  destruct (sampleN_values (StatEngine.cols e) (StatEngine.populationData e) n
                           (StatEngine.rng e)) as [Hv Hlen].
  destruct (Sampler.sampleN _ _ _ _) as [[values columns] r].
  cbn [fst snd] in Hr, Hne, Hcols, Hv, Hlen.
  assert (Hlc : length columns = n) by (rewrite Hv, length_map in Hlen; exact Hlen).
  unfold CLTApp.updateSampleVisualization, StatEngine.clearSample,
    StatEngine.computeStatistic.
  cbn [StatEngine.cols StatEngine.statBins StatEngine.statistic StatEngine.threshold
       StatEngine.populationData StatEngine.sampleData StatEngine.samplingDistData
       StatEngine.currentSample StatEngine.rng].
  destruct (computeStat_is_number (StatEngine.statistic e) (StatEngine.threshold e)
                                  values Hne Hst) as [v ->].
  unfold StatEngine.addToSamplingDistribution.
  cbn [StatEngine.cols StatEngine.statBins StatEngine.statistic StatEngine.threshold
       StatEngine.populationData StatEngine.sampleData StatEngine.samplingDistData
       StatEngine.currentSample StatEngine.rng].
  destruct (fold_inc16_sum columns (zeros (length (StatEngine.sampleData e))))
    as (F1 & F2 & _).
  { rewrite zeros_length, Hsd. exact Hcols. }
  { apply zeros_nonneg. }
  { rewrite zeros_sum. lia. }
  rewrite zeros_sum in F1. rewrite zeros_length in F2.
  split; [repeat split; congruence|]. split; [exact Hr|]. split; [reflexivity|].
  split; [rewrite F1; lia|].
  match goal with
  | |- context [StatEngine.binFor ?e1 _] => apply (inc32_at_binFor e1); assumption
  end.
Qed.



(** ** The animated repeat of the application *)

Lemma sampleOnce_wellSized `{HostMath} (n : nat) (e : StatEngine.t) :
  (0 < n)%nat -> (Z.of_nat n <= 65535)%Z -> wellSized e ->
  (sumZ (StatEngine.samplingDistData e) < two32 - 1)%Z ->
  wellSized (CLTApp.sampleOnce n e) /\
  sumZ (StatEngine.samplingDistData (CLTApp.sampleOnce n e))
  = (sumZ (StatEngine.samplingDistData e) + 1)%Z /\
  StatEngine.rng (CLTApp.sampleOnce n e) = snd (Rng.draws n (StatEngine.rng e)).
Proof.
  intros Hn Hn16 (W1 & W2 & W3 & W4 & W5 & W6) Hs.
  destruct (sampleOnce_spec n e Hn Hn16 W1 W2 W3 W4 W5 W6 Hs)
    as ((C1 & C2 & C3 & _ & C5) & R & _ & _ & L & N & S1).
  split; [|split; assumption].
  unfold wellSized. rewrite C1, C2, C3. repeat split; try assumption; congruence.
Qed.

Lemma iter_sampleOnce `{HostMath} (n k : nat) (e : StatEngine.t) :
  (0 < n)%nat -> (Z.of_nat n <= 65535)%Z -> wellSized e ->
  (sumZ (StatEngine.samplingDistData e) + Z.of_nat k < two32)%Z ->
  wellSized (Nat.iter k (CLTApp.sampleOnce n) e) /\
  sumZ (StatEngine.samplingDistData (Nat.iter k (CLTApp.sampleOnce n) e))
  = (sumZ (StatEngine.samplingDistData e) + Z.of_nat k)%Z /\
  StatEngine.rng (Nat.iter k (CLTApp.sampleOnce n) e)
  = snd (Rng.draws (k * n) (StatEngine.rng e)).
Proof.
  intros Hn Hn16 Hw. induction k as [|k IH]; intros Hs.
  - cbn [Nat.iter nat_rect Nat.mul Rng.draws snd]. split; [exact Hw|]. split; [lia|reflexivity].
  - destruct (IH ltac:(lia)) as (I1 & I2 & I3).
    cbn [Nat.iter nat_rect].
    change (nat_rect (fun _ => StatEngine.t) e (fun _ => CLTApp.sampleOnce n) k)
      with (Nat.iter k (CLTApp.sampleOnce n) e).
    destruct (sampleOnce_wellSized n (Nat.iter k (CLTApp.sampleOnce n) e) Hn Hn16 I1)
      as (J1 & J2 & J3); [lia|].
    split; [exact J1|]. split; [rewrite J2, I2; lia|].
    rewrite J3, I3. change (S k * n)%nat with (n + k * n)%nat.
    rewrite (Nat.add_comm n). symmetry. apply draws_add.
Qed.

(** The timer callbacks of an animated repeat with [d] iterations
    left: [d] of them draw a sample, the next one ends the animation. *)
Lemma animateTimers_run `{HostMath} (n d : nat) :
  forall (k : nat) (a : CLTApp.t),
    CLTApp.totalIterations a = (CLTApp.currentIteration a + d)%nat ->
    (d < k)%nat ->
    let a' := CLTApp.animateTimers n k a in
    CLTApp.engine a' = Nat.iter d (CLTApp.sampleOnce n) (CLTApp.engine a) /\
    CLTApp.isRunning a' = false /\
    CLTApp.currentIteration a' = CLTApp.totalIterations a.
Proof.
  induction d as [|d IH]; intros k a Ht Hk; cbv zeta.
  - destruct k as [|k]; [lia|]. cbn [CLTApp.animateTimers]. unfold CLTApp.animate.
    replace (CLTApp.totalIterations a <=? CLTApp.currentIteration a)%nat with true
      by (symmetry; apply Nat.leb_le; lia).
    cbn [CLTApp.engine CLTApp.isRunning CLTApp.currentIteration Nat.iter nat_rect].
    repeat split. lia.
  - destruct k as [|k]; [lia|]. cbn [CLTApp.animateTimers]. unfold CLTApp.animate.
    replace (CLTApp.totalIterations a <=? CLTApp.currentIteration a)%nat with false
      by (symmetry; apply Nat.leb_gt; lia).
    set (a1 := {| CLTApp.engine := CLTApp.sampleOnce n (CLTApp.engine a);
                  CLTApp.layout := CLTApp.layout a; CLTApp.isRunning := CLTApp.isRunning a;
                  CLTApp.currentIteration := S (CLTApp.currentIteration a);
                  CLTApp.totalIterations := CLTApp.totalIterations a;
                  CLTApp.sampleSize := CLTApp.sampleSize a; CLTApp.speed := CLTApp.speed a |}).
    destruct (IH k a1) as (I1 & I2 & I3); [cbn; lia|lia|].
    cbv zeta in I1, I2, I3.
    split; [|split; [exact I2|exact I3]].
    rewrite I1. cbn [CLTApp.engine a1]. symmetry. apply Nat.iter_succ_r.
Qed.

(** X25.  A repeat of fewer than 100 samples at normal speed is
    animated: [runMultipleSamples(count)] draws the first sample at
    once, marks the animation as running and arms a timer; after
    [count] timer callbacks the animation has stopped, having recorded
    exactly [count] observations from [count * sampleSize] generator
    values.  [reset()] does not cancel the timer: if it is called after
    the first sample of a repeat of at least 2, the next callback
    still draws a sample, records it in the distribution that was just
    cleared, and arms the timer again. *)
Theorem animated_repeat_runs_to_completion `{HostMath} (count : nat) (a : CLTApp.t) :
  let n := CLTApp.sampleSize a in
  let e := CLTApp.engine a in
  CLTApp.isRunning a = false -> CLTApp.speed a = Engine.SpNormal ->
  (0 < count < 100)%nat ->
  (0 < n)%nat -> (Z.of_nat n <= 65535)%Z -> wellSized e ->
  (sumZ (StatEngine.samplingDistData e) + Z.of_nat count < two32)%Z ->
  let started := CLTApp.runMultipleSamples count a in
  let finished := CLTApp.animateTimers n count (fst started) in
  (snd started = true /\ CLTApp.isRunning (fst started) = true /\
   CLTApp.currentIteration (fst started) = 1%nat) /\
  (CLTApp.isRunning finished = false /\
   CLTApp.currentIteration finished = count /\
   sumZ (StatEngine.samplingDistData (CLTApp.engine finished))
   = (sumZ (StatEngine.samplingDistData e) + Z.of_nat count)%Z /\
   StatEngine.rng (CLTApp.engine finished) = snd (Rng.draws (count * n) (StatEngine.rng e))) /\
  ((1 < count)%nat ->
   let next := CLTApp.animate n (CLTApp.reset (fst started)) in
   CLTApp.isRunning (CLTApp.reset (fst started)) = false /\
   snd next = true /\
   sumZ (StatEngine.samplingDistData (CLTApp.engine (fst next))) = 1%Z).
Proof.
  intros n e Hrun Hsp Hcount Hn Hn16 Hw Hs. cbv zeta.
  set (a1 := {| CLTApp.engine := CLTApp.sampleOnce n e; CLTApp.layout := CLTApp.layout a;
                CLTApp.isRunning := true; CLTApp.currentIteration := 1;
                CLTApp.totalIterations := count;
                CLTApp.sampleSize := n; CLTApp.speed := CLTApp.speed a |}).
  assert (Hstart : CLTApp.runMultipleSamples count a = (a1, true)).
  { unfold CLTApp.runMultipleSamples. rewrite Hrun, Hsp.
    replace (100 <=? count)%nat with false by (symmetry; apply Nat.leb_gt; lia).
    unfold CLTApp.runAnimatedSampling, CLTApp.animate.
    cbn [CLTApp.totalIterations CLTApp.currentIteration].
    replace (count <=? 0)%nat with false by (symmetry; apply Nat.leb_gt; lia).
    reflexivity. }
  rewrite Hstart. cbn [fst snd].
  split; [repeat split|].
  destruct (sampleOnce_wellSized n e Hn Hn16 Hw ltac:(lia)) as (W1 & S1 & R1).
  split.
  - destruct (animateTimers_run n (count - 1) count a1) as (A1 & A2 & A3); [cbn; lia|lia|].
    cbv zeta in A1, A2, A3. cbn [CLTApp.engine CLTApp.totalIterations a1] in A1, A3.
    destruct (iter_sampleOnce n (count - 1) (CLTApp.sampleOnce n e) Hn Hn16 W1 ltac:(lia))
      as (_ & I2 & I3).
    split; [exact A2|]. split; [exact A3|]. rewrite A1.
    split; [rewrite I2, S1; lia|].
    rewrite I3, R1. rewrite <- draws_add. f_equal. f_equal. 
    replace count with (S (count - 1)) at 2 by lia. cbn [Nat.mul]. lia.
  - intros Hc2. unfold CLTApp.reset, CLTApp.animate.
    cbn [CLTApp.isRunning CLTApp.totalIterations CLTApp.currentIteration CLTApp.engine a1].
    change (CLTApp.totalIterations a1) with count.
    change (CLTApp.currentIteration a1) with 1%nat.
    change (CLTApp.engine a1) with (CLTApp.sampleOnce n e).
    replace (count <=? 1)%nat with false by (symmetry; apply Nat.leb_gt; lia).
    cbn [fst snd CLTApp.engine].
    split; [reflexivity|]. split; [reflexivity|].
    assert (Wc : wellSized (StatEngine.clearAll (CLTApp.sampleOnce n e))).
    { destruct W1 as (V1 & V2 & V3 & V4 & V5 & V6). unfold wellSized, StatEngine.clearAll,
        StatEngine.clearSamplingDistribution, StatEngine.clearSample.
      cbn [StatEngine.cols StatEngine.statBins StatEngine.statistic StatEngine.sampleData
           StatEngine.samplingDistData].
      rewrite !zeros_length. repeat split; try assumption. apply zeros_nonneg. }
    assert (Sc : sumZ (StatEngine.samplingDistData
                         (StatEngine.clearAll (CLTApp.sampleOnce n e))) = 0%Z).
    { unfold StatEngine.clearAll, StatEngine.clearSamplingDistribution.
      cbn [StatEngine.samplingDistData]. apply zeros_sum. }
    destruct (sampleOnce_wellSized n _ Hn Hn16 Wc) as (_ & S2 & _).
    { rewrite Sc. unfold two32. lia. }
    rewrite S2, Sc. reflexivity.
Qed.

Lemma animated_repeat_runs_to_completion_witness :
  let a := uniformApp in
  let n := CLTApp.sampleSize a in
  let e := CLTApp.engine a in
  let started := CLTApp.runMultipleSamples 10 a in
  let finished := CLTApp.animateTimers n 10 (fst started) in
  (snd started = true /\ CLTApp.isRunning (fst started) = true /\
   CLTApp.currentIteration (fst started) = 1%nat) /\
  (CLTApp.isRunning finished = false /\
   CLTApp.currentIteration finished = 10%nat /\
   sumZ (StatEngine.samplingDistData (CLTApp.engine finished))
   = (sumZ (StatEngine.samplingDistData e) + Z.of_nat 10)%Z /\
   StatEngine.rng (CLTApp.engine finished) = snd (Rng.draws (10 * n) (StatEngine.rng e))) /\
  ((1 < 10)%nat ->
   let next := CLTApp.animate n (CLTApp.reset (fst started)) in
   CLTApp.isRunning (CLTApp.reset (fst started)) = false /\
   snd next = true /\
   sumZ (StatEngine.samplingDistData (CLTApp.engine (fst next))) = 1%Z).
Proof.
  intros a.
  apply (animated_repeat_runs_to_completion 10 a).
  - reflexivity.
  - reflexivity.
  - lia.
  - vm_compute. lia.
  - vm_compute. discriminate.
  - unfold wellSized. vm_compute. repeat split; try lia; try discriminate.
    repeat constructor; discriminate.
  - vm_compute. reflexivity.
Defined.

(** ** Merging the masked segments of a line *)

Lemma insert_by_start_in (s : RenderUtils.Segment) (l : list RenderUtils.Segment)
    (u : RenderUtils.Segment) :
  In u (RenderUtils.insert_by_start s l) <-> u = s \/ In u l.
Proof.
  induction l as [|y l IH]; cbn [RenderUtils.insert_by_start].
  - cbn. intuition.
  - destruct (Qlt_le_dec _ _); cbn [In]; [intuition|]. rewrite IH. cbn [In]. intuition.
Qed.

Lemma insert_by_start_length (s : RenderUtils.Segment) (l : list RenderUtils.Segment) :
  length (RenderUtils.insert_by_start s l) = S (length l).
Proof.
  induction l as [|y l IH]; cbn [RenderUtils.insert_by_start]; [reflexivity|].
  destruct (Qlt_le_dec _ _); cbn [length]; [reflexivity|]. now rewrite IH.
Qed.

Lemma insert_by_start_sorted (s : RenderUtils.Segment) (l : list RenderUtils.Segment) :
  StronglySorted le_start l -> StronglySorted le_start (RenderUtils.insert_by_start s l).
Proof.
  induction 1 as [|y l Hs IH Hy]; cbn [RenderUtils.insert_by_start].
  - constructor; constructor.
  - destruct (Qlt_le_dec _ _) as [Hlt|Hle].
    + constructor; [constructor; assumption|].
      constructor; [unfold le_start; lra|].
      rewrite List.Forall_forall in Hy |- *. intros u Hu. specialize (Hy u Hu).
      unfold le_start in *. lra.
    + constructor; [exact IH|].
      rewrite List.Forall_forall in Hy |- *. intros u Hu.
      apply insert_by_start_in in Hu. destruct Hu as [->|Hu]; [exact Hle|auto].
Qed.

Lemma sort_by_start_from (l acc : list RenderUtils.Segment) :
  StronglySorted le_start acc ->
  let r := fold_left (fun a s => RenderUtils.insert_by_start s a) l acc in
  StronglySorted le_start r /\ (forall u, In u r <-> In u l \/ In u acc) /\
  length r = (length l + length acc)%nat.
Proof.
  revert acc. induction l as [|s l IH]; intros acc Ha; cbn [fold_left].
  - cbn. repeat split; intuition.
  - destruct (IH _ (insert_by_start_sorted s acc Ha)) as (I1 & I2 & I3). cbv zeta in *.
    split; [exact I1|]. split.
    + intros u. rewrite I2, insert_by_start_in. cbn [In]. intuition.
    + rewrite I3, insert_by_start_length. cbn [length]. lia.
Qed.

Lemma covers_app (l1 l2 : list RenderUtils.Segment) (x : Q) :
  covers (l1 ++ l2) x = covers l1 x || covers l2 x.
Proof. apply existsb_app. Qed.

Lemma covers_in (l : list RenderUtils.Segment) (x : Q) :
  covers l x = true <->
  exists s, In s l /\ RenderUtils.seg_start s <= x /\ x <= RenderUtils.seg_end s.
Proof.
  unfold covers. rewrite existsb_exists. split; intros (s & Hs & Hx); exists s; (split; [exact Hs|]).
  - apply andb_true_iff in Hx. now rewrite !Qle_bool_iff in Hx.
  - apply andb_true_iff. now rewrite !Qle_bool_iff.
Qed.

Lemma covers_same_members (l1 l2 : list RenderUtils.Segment) (x : Q) :
  (forall u, In u l1 <-> In u l2) -> covers l1 x = covers l2 x.
Proof.
  intros Hin. apply Bool.eq_iff_eq_true. rewrite !covers_in.
  split; intros (s & Hs & Hx); exists s; (split; [apply Hin; exact Hs|exact Hx]).
Qed.

Lemma separated_last (done : list RenderUtils.Segment) (a b : RenderUtils.Segment) :
  RenderUtils.seg_start a = RenderUtils.seg_start b ->
  separated (done ++ [a]) = true -> separated (done ++ [b]) = true.
Proof.
  intros Hab. induction done as [|d done IH]; [reflexivity|].
  cbn [app separated]. destruct done as [|d' done].
  - cbn [app separated]. now rewrite Hab.
  - cbn [app] in *. intros Hs. apply andb_true_iff in Hs as [H1 H2].
    apply andb_true_iff. split; [exact H1|]. apply IH. exact H2.
Qed.

Lemma separated_push (done : list RenderUtils.Segment) (a b : RenderUtils.Segment) :
  Qle_bool (RenderUtils.seg_start b) (RenderUtils.seg_end a) = false ->
  separated (done ++ [a]) = true -> separated ((done ++ [a]) ++ [b]) = true.
Proof.
  intros Hab. induction done as [|d done IH].
  - cbn [app separated]. now rewrite Hab.
  - cbn [app separated]. destruct done as [|d' done].
    + cbn [app separated] in *. intros Hs. rewrite Hab.
      apply andb_true_iff in Hs as [H1 _]. now rewrite H1.
    + cbn [app] in *. intros Hs. apply andb_true_iff in Hs as [H1 H2].
      apply andb_true_iff. split; [exact H1|]. apply IH. exact H2.
Qed.

Lemma mergeLoop_spec (rest : list RenderUtils.Segment) :
  forall (done : list RenderUtils.Segment) (last : RenderUtils.Segment),
    Forall (le_start last) rest -> StronglySorted le_start rest ->
    separated (done ++ [last]) = true ->
    separated (RenderUtils.mergeLoop done last rest) = true /\
    (forall x, covers (RenderUtils.mergeLoop done last rest) x
               = covers (done ++ last :: rest) x) /\
    (length done + 1 <= length (RenderUtils.mergeLoop done last rest)
     <= length done + 1 + length rest)%nat.
Proof.
  induction rest as [|current rest IH]; intros done last Hl Hs Hsep;
    cbn [RenderUtils.mergeLoop].
  - split; [exact Hsep|]. split; [reflexivity|]. rewrite length_app. cbn. lia.
  - pose proof (Forall_inv Hl) as Hlc. pose proof (Forall_inv_tail Hl) as Hlr.
    pose proof (StronglySorted_inv Hs) as [Hs' Hcr]. unfold le_start in Hlc.
    destruct (Qle_bool (RenderUtils.seg_start current) (RenderUtils.seg_end last)) eqn:Hov.
    + set (last' := {| RenderUtils.seg_start := RenderUtils.seg_start last;
                       RenderUtils.seg_end := Qmax (RenderUtils.seg_end last)
                                                   (RenderUtils.seg_end current) |}).
      destruct (IH done last') as (I1 & I2 & I3).
      * rewrite List.Forall_forall in Hlr |- *. intros u Hu. apply (Hlr u Hu).
      * exact Hs'.
      * apply (separated_last done last last'); [reflexivity|exact Hsep].
      * split; [exact I1|]. split; [|cbn [length]; lia].
        intros x. rewrite I2.
        change (done ++ last' :: rest) with (done ++ [last'] ++ rest).
        change (done ++ last :: current :: rest) with (done ++ [last; current] ++ rest).
        rewrite !covers_app. f_equal. f_equal.
        apply Qle_bool_iff in Hov.
        apply Bool.eq_iff_eq_true. rewrite !covers_in. split.
        -- intros (s & [<-|[]] & Hx1 & Hx2). cbn [last' RenderUtils.seg_start RenderUtils.seg_end] in Hx1, Hx2.
           destruct (Qlt_le_dec (RenderUtils.seg_end last) x) as [Hgt|Hle].
           ++ exists current. split; [right; left; reflexivity|].
              destruct (Q.max_spec (RenderUtils.seg_end last) (RenderUtils.seg_end current))
                as [[_ Hm]|[_ Hm]]; rewrite Hm in Hx2; lra.
           ++ exists last. split; [left; reflexivity|]. lra.
        -- pose proof (Q.le_max_l (RenderUtils.seg_end last) (RenderUtils.seg_end current)).
           pose proof (Q.le_max_r (RenderUtils.seg_end last) (RenderUtils.seg_end current)).
           intros (s & [<-|[<-|[]]] & Hx1 & Hx2); exists last';
             (split; [left; reflexivity|]);
             cbn [last' RenderUtils.seg_start RenderUtils.seg_end]; lra.
    + destruct (IH (done ++ [last]) current) as (I1 & I2 & I3).
      * exact Hcr.
      * exact Hs'.
      * apply separated_push; assumption.
      * split; [exact I1|]. split.
        -- intros x. rewrite I2, <- app_assoc. reflexivity.
        -- rewrite length_app in I3. cbn [length] in *. lia.
Qed.

(** X26.  [mergeSegments] returns segments each of which ends strictly
    before the next one starts, and they contain exactly the points
    that the given segments contain; there are never more of them than
    were given, and at least one if any was given. *)
Theorem merged_segments_cover_same_points (segments : list RenderUtils.Segment) :
  let merged := RenderUtils.mergeSegments segments in
  separated merged = true /\
  (forall x, covers merged x = covers segments x) /\
  (length merged <= length segments)%nat /\
  (segments <> [] -> merged <> []).
Proof.
  cbv zeta. unfold RenderUtils.mergeSegments.
  destruct (length segments <=? 1)%nat eqn:Hlen.
  { apply Nat.leb_le in Hlen. split; [|split; [reflexivity|split; [lia|auto]]].
    destruct segments as [|s [|t l]]; [reflexivity|reflexivity|cbn [length] in Hlen; lia]. }
  apply Nat.leb_gt in Hlen.
  destruct (sort_by_start_from segments [] ltac:(constructor)) as (S1 & S2 & S3).
  cbv zeta in S1, S2, S3. fold (RenderUtils.sort_by_start segments) in S1, S2, S3.
  destruct (RenderUtils.sort_by_start segments) as [|first rest] eqn:Es.
  { cbn [length] in S3. lia. }
  pose proof (StronglySorted_inv S1) as [Hs Hf].
  destruct (mergeLoop_spec rest [] first Hf Hs eq_refl) as (M1 & M2 & M3).
  split; [exact M1|]. split; [|split].
  - intros x. rewrite M2. cbn [app]. apply covers_same_members.
    intros u. rewrite S2. cbn [In]. intuition.
  - cbn [length] in M3, S3. lia.
  - intros _ He. rewrite He in M3. cbn [length] in M3. lia.
Qed.

(** ** Population presets *)

Lemma fold_store_spec (f : nat -> Z) (l : list nat) :
  forall data : list Z,
    let r := fold_left (fun d c => <[ c := f c ]> d) l data in
    length r = length data /\
    (forall i, In i l -> (i < length data)%nat -> rd r i = f i) /\
    (forall i, ~ In i l -> rd r i = rd data i).
Proof.
  induction l as [|c l IH]; intros data; cbn [fold_left]; cbv zeta.
  - split; [reflexivity|]. split; [intros i []|reflexivity].
  - destruct (IH (<[ c := f c ]> data)) as (I1 & I2 & I3). cbv zeta in I1, I2, I3.
    rewrite length_insert in I1, I2.
    split; [exact I1|]. split.
    + intros i Hi Hlt. destruct (in_dec Nat.eq_dec i l) as [Hin|Hout].
      * apply I2; assumption.
      * destruct Hi as [->|Hi]; [|contradiction].
        rewrite I3 by exact Hout. apply rd_insert_eq. exact Hlt.
    + intros i Hi. rewrite I3 by (intros Hin; apply Hi; right; exact Hin).
      apply rd_insert_ne. intros ->. apply Hi. left. reflexivity.
Qed.

Lemma fold_store_same (f : nat -> Z) (n : nat) (d1 d2 : list Z) :
  length d1 = n -> length d2 = n ->
  fold_left (fun d c => <[ c := f c ]> d) (seq 0 n) d1
  = fold_left (fun d c => <[ c := f c ]> d) (seq 0 n) d2.
Proof.
  intros H1 H2.
  destruct (fold_store_spec f (seq 0 n) d1) as (A1 & A2 & _).
  destruct (fold_store_spec f (seq 0 n) d2) as (B1 & B2 & _).
  cbv zeta in *. apply list_eq. intros i.
  destruct (Nat.lt_ge_cases i n) as [Hlt|Hge].
  - assert (Hin : In i (seq 0 n)) by (apply in_seq; lia).
    specialize (A2 i Hin ltac:(lia)). specialize (B2 i Hin ltac:(lia)).
    unfold rd in A2, B2.
    destruct (lookup_lt_is_Some_2 (fold_left (fun d c => <[ c := f c ]> d) (seq 0 n) d1) i
                ltac:(lia)) as [x Hx].
    destruct (lookup_lt_is_Some_2 (fold_left (fun d c => <[ c := f c ]> d) (seq 0 n) d2) i
                ltac:(lia)) as [y Hy].
    rewrite Hx in A2 |- *. rewrite Hy in B2 |- *. cbn in A2, B2. congruence.
  - rewrite !(proj2 (lookup_ge_None _ _)) by lia. reflexivity.
Qed.

(** X27.  [setPopulationGenerator] overwrites every column with the
    rounded weight [Math.max(0, Math.round(20 * g(x)))] of its centre,
    kept to 16 bits, whatever the population was before (earlier edits
    are lost); it leaves the displayed sample, the sampling
    distribution, the statistic, the threshold and the generator state
    as they were. *)
Theorem preset_replaces_population (g : Q -> Q) (e : StatEngine.t) :
  length (StatEngine.populationData e) = StatEngine.cols e ->
  let e' := StatEngine.setPopulationGenerator g e in
  (length (StatEngine.populationData e') = StatEngine.cols e /\
   forall c, (c < StatEngine.cols e)%nat ->
     rd (StatEngine.populationData e') c
     = wrap16 (Z.max 0 (Qfloor (g (Pop.center (StatEngine.cols e) c) * 20 + (1 # 2))))) /\
  (forall p, length p = StatEngine.cols e ->
     StatEngine.setPopulationGenerator g (StatEngine.with_population p e) = e') /\
  (StatEngine.cols e' = StatEngine.cols e /\
   StatEngine.sampleData e' = StatEngine.sampleData e /\
   StatEngine.samplingDistData e' = StatEngine.samplingDistData e /\
   StatEngine.currentSample e' = StatEngine.currentSample e /\
   StatEngine.statistic e' = StatEngine.statistic e /\
   StatEngine.threshold e' = StatEngine.threshold e /\
   StatEngine.rng e' = StatEngine.rng e).
Proof.
  intros Hlen. cbv zeta. unfold StatEngine.setPopulationGenerator.
  set (f := fun c : nat =>
              wrap16 (Z.max 0 (Qfloor (g (Pop.center (StatEngine.cols e) c) * 20 + (1 # 2))))).
  destruct (fold_store_spec f (seq 0 (StatEngine.cols e)) (StatEngine.populationData e))
    as (F1 & F2 & _). cbv zeta in F1, F2.
  split; [|split].
  - cbn [StatEngine.with_population StatEngine.populationData].
    split; [exact (eq_trans F1 Hlen)|].
    intros c Hc. apply F2; [apply in_seq; lia|lia].
  - intros p Hp. unfold StatEngine.with_population.
    cbn [StatEngine.cols StatEngine.statBins StatEngine.populationData StatEngine.sampleData
         StatEngine.samplingDistData StatEngine.currentSample StatEngine.statistic
         StatEngine.threshold StatEngine.rng].
    f_equal. apply (fold_store_same f); assumption.
  - repeat split.
Qed.

Lemma preset_replaces_population_witness :
  let g := fun x : Q => 3 * x in
  let e := StatEngine.modifyPopulation (1 # 2) 7 (StatEngine.create (Some 4%nat) None None) in
  let e' := StatEngine.setPopulationGenerator g e in
  (length (StatEngine.populationData e') = StatEngine.cols e /\
   forall c, (c < StatEngine.cols e)%nat ->
     rd (StatEngine.populationData e') c
     = wrap16 (Z.max 0 (Qfloor (g (Pop.center (StatEngine.cols e) c) * 20 + (1 # 2))))) /\
  (forall p, length p = StatEngine.cols e ->
     StatEngine.setPopulationGenerator g (StatEngine.with_population p e) = e') /\
  (StatEngine.cols e' = StatEngine.cols e /\
   StatEngine.sampleData e' = StatEngine.sampleData e /\
   StatEngine.samplingDistData e' = StatEngine.samplingDistData e /\
   StatEngine.currentSample e' = StatEngine.currentSample e /\
   StatEngine.statistic e' = StatEngine.statistic e /\
   StatEngine.threshold e' = StatEngine.threshold e /\
   StatEngine.rng e' = StatEngine.rng e).
Proof.
  intros g e.
  apply (preset_replaces_population g e).
  vm_compute. reflexivity.
Defined.

Lemma sumQ_app (l1 l2 : list Q) : Spec.sumQ (l1 ++ l2) == Spec.sumQ l1 + Spec.sumQ l2.
Proof.
  induction l1 as [|x l1 IH]; cbn [app].
  - change (Spec.sumQ []) with 0. ring.
  - change (Spec.sumQ (x :: ?l)) with (x + Spec.sumQ l). rewrite IH. ring.
Qed.

Lemma flat_prefix (pc : list Z) (w : Z) (n k : nat) :
  (forall c, (c < n)%nat -> rd pc c = w) -> (k <= n)%nat ->
  prefix pc k = (w * Z.of_nat k)%Z.
Proof.
  intros Hflat. induction k as [|k IH]; intros Hk.
  - unfold prefix. cbn. lia.
  - rewrite prefix_S, IH, Hflat by lia. lia.
Qed.

Lemma flat_weighted_centres (pc : list Z) (w : Z) (n k : nat) :
  (forall c, (c < n)%nat -> rd pc c = w) -> (k <= n)%nat -> (0 < n)%nat ->
  Spec.sumQ (map (fun c => inject_Z (rd pc c) * Pop.center n c) (seq 0 k))
  == inject_Z w * (inject_Z (Z.of_nat k) * inject_Z (Z.of_nat k)) / (2 * inject_Z (Z.of_nat n)).
Proof.
  intros Hflat Hk Hn.
  assert (Hn' : ~ inject_Z (Z.of_nat n) == 0).
  { intros E. assert (0 < inject_Z (Z.of_nat n)) by (change 0 with (inject_Z 0); rewrite <- Zlt_Qlt; lia). lra. }
  induction k as [|k IH].
  - change (Spec.sumQ (map _ (seq 0 0))) with 0. change (inject_Z (Z.of_nat 0)) with 0.
    field. exact Hn'.
  - rewrite seq_S, map_app, sumQ_app, IH by lia. cbn [map Nat.add].
    change (Spec.sumQ [?x]) with (x + 0).
    rewrite Hflat by lia. unfold Pop.center.
    rewrite Nat2Z.inj_succ. unfold Z.succ. rewrite inject_Z_plus.
    change (inject_Z 1) with 1. field. exact Hn'.
Qed.

(** X28.  After the uniform preset every column holds 20, the
    population total is [20 * cols] and its median is the centre of
    column [(cols - 1) / 2] (integer division): for an even number of
    columns the reported median lies half a column below 1/2.  The
    mean is 1/2 up to the rounding of the sum (within 10^-9 for up to
    1000 columns). *)
Theorem uniform_preset_is_flat `{HostMath} (e : StatEngine.t) :
  (0 < StatEngine.cols e)%nat ->
  length (StatEngine.populationData e) = StatEngine.cols e ->
  let e' := StatEngine.setPopulationGenerator StatEngine.uniform e in
  let s := StatEngine.getPopulationStats e' in
  let tol := 1 # 1000000000 in
  (forall c, (c < StatEngine.cols e)%nat -> rd (StatEngine.populationData e') c = 20%Z) /\
  Pop.total s = (20 * Z.of_nat (StatEngine.cols e))%Z /\
  Pop.med s = Pop.center (StatEngine.cols e) ((StatEngine.cols e - 1) / 2) /\
  ((StatEngine.cols e <= 1000)%nat ->
   (1 # 2) - tol <= Pop.mu s /\ Pop.mu s <= (1 # 2) + tol).
Proof.
  intros Hc Hlen. cbv zeta.
  assert (Hflat : forall c, (c < StatEngine.cols e)%nat ->
            rd (StatEngine.populationData
                  (StatEngine.setPopulationGenerator StatEngine.uniform e)) c = 20%Z).
  { intros c Hlt. unfold StatEngine.setPopulationGenerator.
    cbn [StatEngine.with_population StatEngine.populationData].
    destruct (fold_store_spec
                (fun c : nat => wrap16 (Z.max 0 (Qfloor (StatEngine.uniform
                     (Pop.center (StatEngine.cols e) c) * 20 + (1 # 2)))))
                (seq 0 (StatEngine.cols e)) (StatEngine.populationData e)) as (_ & F2 & _).
    cbv zeta in F2. rewrite F2; [reflexivity|apply in_seq; lia|lia]. }
  split; [exact Hflat|].
  unfold StatEngine.getPopulationStats.
  change (StatEngine.cols (StatEngine.setPopulationGenerator StatEngine.uniform e))
    with (StatEngine.cols e).
  change (StatEngine.threshold (StatEngine.setPopulationGenerator StatEngine.uniform e))
    with (StatEngine.threshold e).
  set (pc := StatEngine.populationData (StatEngine.setPopulationGenerator StatEngine.uniform e))
    in *.
  set (n := StatEngine.cols e) in *.
  unfold Pop.popStats.
  pose proof (loop_total_mu_from n pc (seq 0 n) 0%Z 0) as Hl. cbv zeta in Hl.
  fold (Pop.loop_total_mu n pc) in Hl.
  destruct (Pop.loop_total_mu n pc) as [total mu0]. cbn [fst snd] in Hl.
  destruct Hl as [Ht Hm].
  change (sumZ (map (rd pc) (seq 0 n))) with (prefix pc n) in Ht.
  rewrite (flat_prefix pc 20 n n Hflat (Nat.le_refl n)) in Ht.
  rewrite (flat_weighted_centres pc 20 n n Hflat (Nat.le_refl n) Hc) in Hm.
  assert (Htot : total = (20 * Z.of_nat n)%Z) by lia.
  assert (Hz : (total =? 0)%Z = false) by (apply Z.eqb_neq; lia).
  rewrite Hz. cbn [Pop.total Pop.mu Pop.med].
  assert (Hn' : ~ inject_Z (Z.of_nat n) == 0).
  { intros E. assert (0 < inject_Z (Z.of_nat n)) by (change 0 with (inject_Z 0); rewrite <- Zlt_Qlt; lia). lra. }
  split; [exact Htot|]. split; cycle 1.
  - intros _.
    assert (Emu : mu0 / inject_Z total == 1 # 2).
    { rewrite Hm, Htot, inject_Z_mult. change (inject_Z 20) with 20. field. exact Hn'. }
    rewrite Emu. split; lra.
  - change 0%Z with (prefix pc 0) at 1.
    assert (Hreach : forall j, (j < n)%nat ->
              (inject_Z total / 2 <= inject_Z (prefix pc (S j)) <-> (n <= 2 * (j + 1))%nat)).
    { intros j Hj. rewrite (flat_prefix pc 20 n (S j) Hflat) by lia. rewrite Htot.
      rewrite !inject_Z_mult. change (inject_Z 20) with 20.
      assert (Hz2 : (n <= 2 * (j + 1))%nat
                    <-> inject_Z (Z.of_nat n) <= 2 * inject_Z (Z.of_nat (S j))).
      { change 2 with (inject_Z 2). rewrite <- inject_Z_mult, <- Zle_Qle. lia. }
      rewrite Hz2.
      generalize (inject_Z (Z.of_nat n)) (inject_Z (Z.of_nat (S j))). intros a b.
      unfold Qdiv. change (/ 2) with (1 # 2).
      split; intros Hle; lra. }
    destruct (loop_med_spec n pc (inject_Z total / 2) n 0 (1 # 2))
      as [(k & Hk & Hr & Hge & Hfirst)|(_ & Hnone)]; cbv zeta in *.
    + rewrite Hr. f_equal.
      apply Hreach in Hge; [|lia].
      destruct k as [|k].
      * symmetry. apply Nat.div_small_iff; lia.
      * assert (Hk1 : ~ (n <= 2 * (k + 1))%nat).
        { intros Hle. apply (Hfirst k); [lia|]. apply Hreach; [lia|exact Hle]. }
        apply Nat.div_unique with (r := (n - 1 - 2 * S k)%nat); lia.
    + exfalso. apply (Hnone (n - 1)%nat); [lia|]. apply Hreach; lia.
Qed.

Lemma uniform_preset_is_flat_witness :
  let e := StatEngine.create (Some 60%nat) (Some 60%nat) (Some 1234%Z) in
  let e' := StatEngine.setPopulationGenerator StatEngine.uniform e in
  let s := @StatEngine.getPopulationStats host_digits e' in
  let tol := 1 # 1000000000 in
  (forall c, (c < StatEngine.cols e)%nat -> rd (StatEngine.populationData e') c = 20%Z) /\
  Pop.total s = (20 * Z.of_nat (StatEngine.cols e))%Z /\
  Pop.med s = Pop.center (StatEngine.cols e) ((StatEngine.cols e - 1) / 2) /\
  ((StatEngine.cols e <= 1000)%nat ->
   (1 # 2) - tol <= Pop.mu s /\ Pop.mu s <= (1 # 2) + tol).
Proof.
  intros e.
  apply (@uniform_preset_is_flat host_digits e).
  - vm_compute. lia.
  - vm_compute. reflexivity.
Defined.
